(** * InversifyJS container: binding registry, hierarchy, modules,
      snapshots and middleware

    A shallow embedding of [src/container/container_base.ts] (class
    [ContainerBase]) and of [src/container/container.ts] (class [Container]),
    with the collaborators those two classes import.  Objects that the code
    mutates in place and shares ([Lookup] dictionaries, [Binding]s) live in a
    store and are referred to by address; the container itself is threaded
    through every method as explicit state; [throw] is a result value, and a
    throwing method hands back the state it had reached. *)

From Stdlib Require Import ZArith.
From stdpp Require Import base option list strings.

Open Scope string_scope.
Open Scope list_scope.
Open Scope nat_scope.
Set Warnings "-register-all".

(** ** JavaScript values *)

(** The values a dynamically typed argument may hold ([any] in the source).
    Objects and functions carry the identity [oid] that [===] compares;
    numbers are the integers, which is all the container code tells apart. *)
Inductive JsValue :=
| JsUndefined
| JsNull
| JsBoolean (b : bool)
| JsNumber (n : Z)
| JsString (s : string)
| JsSymbol (description : string)
| JsFunction (oid : nat) (name : string)
| JsObject (oid : nat) (props : list (string * JsValue)).

(** [typeof v] *)
Definition typeof (v : JsValue) : string :=
  match v with
  | JsUndefined => "undefined"
  | JsNull => "object"
  | JsBoolean _ => "boolean"
  | JsNumber _ => "number"
  | JsString _ => "string"
  | JsSymbol _ => "symbol"
  | JsFunction _ _ => "function"
  | JsObject _ _ => "object"
  end.

(** The truthiness [||], [!] and [if] test. *)
Definition truthy (v : JsValue) : bool :=
  match v with
  | JsUndefined | JsNull => false
  | JsBoolean b => b
  | JsNumber n => negb (n =? 0)%Z
  | JsString s => negb (String.eqb s "")
  | JsSymbol _ | JsFunction _ _ | JsObject _ _ => true
  end.

(** [a === b] *)
Definition strict_equals (a b : JsValue) : bool :=
  match a, b with
  | JsUndefined, JsUndefined => true
  | JsNull, JsNull => true
  | JsBoolean x, JsBoolean y => Bool.eqb x y
  | JsNumber x, JsNumber y => (x =? y)%Z
  | JsString x, JsString y => String.eqb x y
  | JsSymbol x, JsSymbol y => String.eqb x y
  | JsFunction x _, JsFunction y _ => Nat.eqb x y
  | JsObject x _, JsObject y _ => Nat.eqb x y
  | _, _ => false
  end.

(** [o.name]: the own property, [undefined] when there is none. *)
Fixpoint assoc_prop (name : string) (props : list (string * JsValue)) : JsValue :=
  match props with
  | [] => JsUndefined
  | (k, v) :: rest => if String.eqb k name then v else assoc_prop name rest
  end.

Definition get_prop (o : JsValue) (name : string) : JsValue :=
  match o with
  | JsObject _ props => assoc_prop name props
  | _ => JsUndefined
  end.

Definition is_nullish (v : JsValue) : bool :=
  strict_equals v JsUndefined || strict_equals v JsNull.

(** ** Service identifiers *)

(** [interfaces.ServiceIdentifier]: a string, a symbol or a constructor.
    Strings and symbols compare by their text, constructors by identity. *)
Inductive ServiceIdentifier :=
| StringId (s : string)
| SymbolId (description : string)
| NewableId (oid : nat) (name : string).

#[global] Instance ServiceIdentifier_eq_dec : EqDecision ServiceIdentifier.
Proof. solve_decision. Defined.

(** Modelled from the spec: [utils/serialization] is not among the sources.
    "Error messages must embed the human-readable identifier
    (string/symbol/class name)"; the container tests fix the three forms:
    a string is itself, [Symbol.for("Katana")] is ["Symbol(Katana)"], a class
    is its name. *)
Definition getServiceIdentifierAsString (serviceIdentifier : ServiceIdentifier) : string :=
  match serviceIdentifier with
  | NewableId _ name => name
  | SymbolId description => "Symbol(" +:+ description +:+ ")"
  | StringId s => s
  end.

(** ** Errors *)

(** The constants of [constants/error_msgs] the container refers to.  Their
    texts are not among the sources: a message keeps the constant's name and
    [render] supplies the texts. *)
Inductive ERROR_MSGS :=
| KEY_NOT_FOUND
| CANNOT_UNBIND
| NO_MORE_SNAPSHOTS_AVAILABLE
| INVALID_MIDDLEWARE_RETURN
| CONTAINER_OPTIONS_MUST_BE_AN_OBJECT
| CONTAINER_OPTIONS_INVALID_DEFAULT_SCOPE
| CONTAINER_OPTIONS_INVALID_AUTO_BIND_INJECTABLE
| CONTAINER_OPTIONS_INVALID_SKIP_BASE_CHECK.

(** A piece of a template literal: an interpolated constant or text. *)
Inductive Fragment :=
| Const (c : ERROR_MSGS)
| Text (s : string).

(** [new Error(message)] *)
Definition Error := list Fragment.

Fixpoint render (texts : ERROR_MSGS → string) (message : Error) : string :=
  match message with
  | [] => ""
  | Const c :: rest => texts c +:+ render texts rest
  | Text s :: rest => s +:+ render texts rest
  end.

#[global] Instance ERROR_MSGS_eq_dec : EqDecision ERROR_MSGS.
Proof. solve_decision. Defined.

#[global] Instance Fragment_eq_dec : EqDecision Fragment.
Proof. solve_decision. Defined.

(** A call returns a value or throws. *)
Inductive Res (A : Type) :=
| Ok (a : A)
| Throw (e : Error).
Arguments Ok {A} a.
Arguments Throw {A} e.

(** ** Bindings and requests *)

(** [interfaces.BindingScope] *)
Inductive BindingScope := Transient | Singleton | Request.

#[global] Instance BindingScope_eq_dec : EqDecision BindingScope.
Proof. solve_decision. Defined.

(** Modelled from the spec: [constants/literal_types] is not among the
    sources.  [BindingScopeEnum] holds the three scope names as strings
    ("scope: one of Transient | Singleton | Request"). *)
Definition BindingScopeEnum (scope : BindingScope) : JsValue :=
  match scope with
  | Transient => JsString "Transient"
  | Singleton => JsString "Singleton"
  | Request => JsString "Request"
  end.

(** Modelled from the spec: [constants/metadata_keys] is not among the
    sources; [NAMED_TAG] is "the canonical named tag". *)
Definition NAMED_TAG : JsValue := JsString "named".

Module Request.

(** Modelled from the spec: the planner's [Request] is not among the sources.
    "One node in a resolution tree: target service identifier, target
    constraints (name/tag), parent request (or null at root) ... and whether
    it is a multi-injection node"; the matched bindings and child requests,
    which the planner fills in after the constraints have run, are left out.
    [container] is the [id] of the container of the request's context. *)
Inductive t := make {
  serviceIdentifier : ServiceIdentifier;
  container : nat;
  tags : list (JsValue * JsValue);
  parentRequest : option t;
  isMultiInject : bool
}.

(** Modelled from the spec: the target of a request is not among the
    sources.  The request carries "tag key with value equal by strict
    comparison". *)
Definition matchesTag (request : t) (key value : JsValue) : bool :=
  existsb (λ m, strict_equals m.1 key && strict_equals m.2 value) (tags request).
End Request.

Module Binding.

(** Modelled from the spec: [bindings/binding] is not among the sources.
    The record holds the configuration of a binding; its identity (the unique
    [id] it gets at creation) is its address in the store, so that a clone is
    "new identity, same configuration".  The producer functions and the
    activation hooks, which no container operation reads, are left out. *)
Record t := make {
  serviceIdentifier : ServiceIdentifier;
  scope : BindingScope;
  implementationType : option JsValue;
  cache : option JsValue;
  constraint : Request.t → bool;
  moduleId : option nat
}.

(** Modelled from the spec: [new Binding(serviceIdentifier, scope)] is not
    among the sources.  "Default constraint is always eligible"; [moduleId]
    starts as the "no module" value. *)
Definition new (serviceIdentifier : ServiceIdentifier) (scope : BindingScope) : t :=
  {| serviceIdentifier := serviceIdentifier;
     scope := scope;
     implementationType := None;
     cache := None;
     constraint := λ _, true;
     moduleId := None |}.

(** Modelled from the spec: [binding.clone()] is not among the sources.
    "New identity, same configuration": the record of the new object. *)
Definition clone (b : t) : t :=
  {| serviceIdentifier := serviceIdentifier b;
     scope := scope b;
     implementationType := implementationType b;
     cache := cache b;
     constraint := constraint b;
     moduleId := moduleId b |}.
End Binding.

(** The address of a [Binding] in the store. *)
Abbreviation BindingRef := nat.

(** ** Lookup *)

Module Lookup.

(** Modelled from the spec: [container/lookup] is not among the sources.
    "Mapping from ServiceIdentifier to an ordered sequence of Bindings
    (insertion order preserved)": the entries of the map in insertion
    order, each key with the references to its bindings. *)
Definition t := list (ServiceIdentifier * list BindingRef).

(** [new Lookup()] *)
Definition empty : t := [].

(** Modelled from the spec: [Lookup.hasKey] is not among the sources.
    "hasKey(key)". *)
Fixpoint hasKey (map : t) (serviceIdentifier : ServiceIdentifier) : bool :=
  match map with
  | [] => false
  | (k, _) :: rest => bool_decide (k = serviceIdentifier) || hasKey rest serviceIdentifier
  end.

(** Modelled from the spec: [Lookup.add] is not among the sources.
    "add(key, value) appends preserving order": at the end of the bindings of
    the key, and a new key at the end of the keys. *)
Fixpoint add (map : t) (serviceIdentifier : ServiceIdentifier) (value : BindingRef) : t :=
  match map with
  | [] => [(serviceIdentifier, [value])]
  | (k, entries) :: rest =>
      if bool_decide (k = serviceIdentifier)
      then (k, entries ++ [value]) :: rest
      else (k, entries) :: add rest serviceIdentifier value
  end.

(** Modelled from the spec: [Lookup.get] is not among the sources.
    "get(key) fails with NotFound if key absent". *)
Fixpoint get (map : t) (serviceIdentifier : ServiceIdentifier) : Res (list BindingRef) :=
  match map with
  | [] => Throw [Const KEY_NOT_FOUND]
  | (k, entries) :: rest =>
      if bool_decide (k = serviceIdentifier) then Ok entries else get rest serviceIdentifier
  end.

(** Modelled from the spec: [Lookup.remove] is not among the sources.
    "remove(key) fails with NotFound if absent"; otherwise the key goes with
    all its bindings. *)
Definition remove (map : t) (serviceIdentifier : ServiceIdentifier) : Res t :=
  if hasKey map serviceIdentifier
  then Ok (List.filter (λ e, negb (bool_decide (e.1 = serviceIdentifier))) map)
  else Throw [Const KEY_NOT_FOUND].

(** Modelled from the spec: [Lookup.removeByCondition] is not among the
    sources.  "removeByCondition(predicate) deletes individual bindings
    matching the predicate across all keys, pruning now-empty keys". *)
Fixpoint removeByCondition (map : t) (condition : BindingRef → bool) : t :=
  match map with
  | [] => []
  | (k, entries) :: rest =>
      let updatedEntries := List.filter (λ entry, negb (condition entry)) entries in
      if (0 <? length updatedEntries)%nat
      then (k, updatedEntries) :: removeByCondition rest condition
      else removeByCondition rest condition
  end.

(** The bindings under a key, none when the key is absent. *)
Definition entries (map : t) (serviceIdentifier : ServiceIdentifier) : list BindingRef :=
  match get map serviceIdentifier with
  | Ok entries => entries
  | Throw _ => []
  end.

(** The keys in insertion order. *)
Definition keys (map : t) : list ServiceIdentifier := map.*1.
End Lookup.

(** ** The store and the state-and-exception monad *)

(** The address of a [Lookup] in the store. *)
Abbreviation LookupRef := nat.

(** The objects shared by reference, and the counter behind [id()]
    ([utils/id], one counter for the whole program). *)
Record Store := mkStore {
  lookups : list Lookup.t;
  bindingObjects : list Binding.t;
  nextId : nat
}.

(** A computation over a mutable state [S] that returns or throws; the state
    survives a [throw]. *)
Definition M (S A : Type) : Type := S → Res A * S.

(** [return a] *)
Definition ret {S A : Type} (a : A) : M S A := λ s, (Ok a, s).

(** [throw e] *)
Definition throw {S A : Type} (e : Error) : M S A := λ s, (Throw e, s).

(** [m] and then [k] with what it returned; a [throw] of [m] goes through. *)
Definition andThen {S A B : Type} (m : M S A) (k : A → M S B) : M S B :=
  λ s, match m s with
       | (Ok a, s') => k a s'
       | (Throw e, s') => (Throw e, s')
       end.

(** [try { m } catch (e) { handler(e) }] *)
Definition tryCatch {S A : Type} (m : M S A) (handler : Error → M S A) : M S A :=
  λ s, match m s with
       | (Ok a, s') => (Ok a, s')
       | (Throw e, s') => handler e s'
       end.

(** A read of the state. *)
Definition gets {S A : Type} (f : S → A) : M S A := λ s, (Ok (f s), s).

(** A change of the state. *)
Definition modify {S : Type} (f : S → S) : M S unit := λ s, (Ok tt, f s).

(** A result computed without touching the state. *)
Definition liftRes {S A : Type} (r : Res A) : M S A := λ s, (r, s).

Notation "x <- m ;; k" := (andThen m (λ x, k))
  (at level 100, m at next level, right associativity).
Notation "m ;;; k" := (andThen m (λ _, k))
  (at level 100, right associativity).

(** Modelled from the spec: [utils/id] is not among the sources.  [id()]
    hands out the "unique numeric identity assigned at creation": the next
    number of a counter. *)
Definition id_ : M Store nat :=
  λ σ, (Ok (nextId σ), mkStore (lookups σ) (bindingObjects σ) (S (nextId σ))).

(** [new Lookup()] *)
Definition newLookup (map : Lookup.t) : M Store LookupRef :=
  λ σ, (Ok (length (lookups σ)),
        mkStore (lookups σ ++ [map]) (bindingObjects σ) (nextId σ)).

(** The [Lookup] object at [l]; the default is for addresses outside the
    store, which no reference the program holds is. *)
Definition readLookup (σ : Store) (l : LookupRef) : Lookup.t :=
  default Lookup.empty (lookups σ !! l).

(** In-place change of the [Lookup] object at [l]. *)
Definition writeLookup (l : LookupRef) (map : Lookup.t) : M Store unit :=
  modify (λ σ, mkStore (<[l := map]> (lookups σ)) (bindingObjects σ) (nextId σ)).

(** Allocation of a [Binding] object. *)
Definition newBinding (b : Binding.t) : M Store BindingRef :=
  λ σ, (Ok (length (bindingObjects σ)),
        mkStore (lookups σ) (bindingObjects σ ++ [b]) (nextId σ)).

(** Assignment to the fields of a [Binding] object. *)
Definition updateBinding (r : BindingRef) (f : Binding.t → Binding.t) : M Store unit :=
  modify (λ σ, mkStore (lookups σ) (alter f r (bindingObjects σ)) (nextId σ)).

(** Modelled from the spec: [Lookup.clone] is not among the sources.
    "clone() deep-copies keys and clones each Binding (new identity, same
    configuration) so mutations to the clone never affect the original".
    First the bindings of one key: a new binding object for each. *)
Fixpoint cloneBindings (refs : list BindingRef) : M Store (list BindingRef) :=
  match refs with
  | [] => ret []
  | r :: rest =>
      λ σ, match bindingObjects σ !! r with
           | Some b =>
               (copy <- newBinding (Binding.clone b) ;;
                copies <- cloneBindings rest ;;
                ret (copy :: copies)) σ
           | None => cloneBindings rest σ
           end
  end.

(** Modelled from the spec: [Lookup.clone], continued.  The keys stay the
    same, in the same order, each with the clones of its bindings. *)
Fixpoint cloneEntries (map : Lookup.t) : M Store Lookup.t :=
  match map with
  | [] => ret []
  | (k, refs) :: rest =>
      copies <- cloneBindings refs ;;
      others <- cloneEntries rest ;;
      ret ((k, copies) :: others)
  end.

(** Modelled from the spec: [Lookup.clone], concluded.  The copy is a new
    [Lookup] object. *)
Definition cloneLookup (l : LookupRef) : M Store LookupRef :=
  λ σ, (copy <- cloneEntries (readLookup σ l) ;; newLookup copy) σ.

(** ** Resolution arguments and middleware *)

(** [interfaces.TargetType].  [constants/literal_types] is not among the
    sources; [TargetTypeEnum.Variable] is the member the container passes. *)
Inductive TargetType :=
| TargetTypeEnum_Variable.

(** [src/planning/context.ts].  [container] is the [id] of the container the
    context was created for; [plan] is the root request of the plan. *)
Module Context.
Record t := make {
  id : nat;
  container : nat;
  plan : option Request.t;
  currentRequest : option Request.t
}.

Definition new (container : nat) : M Store t :=
  i <- id_ ;;
  ret {| id := i; container := container; plan := None; currentRequest := None |}.

Definition addPlan (context : t) (plan : Request.t) : t :=
  {| id := id context; container := container context;
     plan := Some plan; currentRequest := currentRequest context |}.

Definition setCurrentRequest (context : t) (currentRequest : Request.t) : t :=
  {| id := id context; container := container context;
     plan := plan context; currentRequest := Some currentRequest |}.
End Context.

(** [interfaces.NextArgs] *)
Module NextArgs.
Record t := make {
  avoidConstraints : bool;
  contextInterceptor : Context.t → Context.t;
  isMultiInject : bool;
  key : JsValue;
  serviceIdentifier : ServiceIdentifier;
  targetType : TargetType;
  value : JsValue
}.
End NextArgs.

(** [interfaces.Next]: a resolution entry point. *)
Definition Next := NextArgs.t → Res JsValue.

(** [interfaces.Middleware]: an interceptor, from the next entry point to an
    entry point. *)
Definition Middleware := Next → Next.

(** The chain held in [_middleware].  Its innermost entry point is the closure
    [this._planAndResolve()], which reads the container when it is called, not
    when the chain is built: the chain takes that entry point as an argument
    and the caller supplies the one of the container as it is at the call. *)
Definition Chain := Next → Next.

(** ** Containers *)

(** [interfaces.ContainerOptions], once the constructor has filled in and
    checked every field. *)
Record ContainerOptions := mkOptions {
  autoBindInjectable : bool;
  defaultScope : BindingScope;
  skipBaseClassChecks : bool
}.

Module ContainerSnapshot.

(** Modelled from the spec: [container/container_snapshot] is not among the
    sources.  "Snapshot: {bindings: deep-cloned Lookup, middleware:
    reference}"; [of_] is [ContainerSnapshot.of]. *)
Record t := of_ {
  bindings : LookupRef;
  middleware : option Chain
}.
End ContainerSnapshot.

(** The fields of [ContainerBase] and the [parent] of [Container].  The
    dictionary is a reference into the store; the parent chain is held by
    value and ends at the root. *)
Inductive Container := mkContainer {
  id : nat;
  options : ContainerOptions;
  _middleware : option Chain;
  _bindingDictionary : LookupRef;
  _snapshots : list ContainerSnapshot.t;
  parent : option Container
}.

(** A container under operation: [this] and the store. *)
Record State := mkState {
  this : Container;
  store : Store
}.

(** A computation on the store, within a method of the container. *)
Definition onStore {A : Type} (m : M Store A) : M State A :=
  λ s, let '(r, σ) := m (store s) in (r, mkState (this s) σ).

(** Assignment to the fields of [this]. *)
Definition setThis (c : Container) : M State unit :=
  modify (λ s, mkState c (store s)).

(** The dictionary [this._bindingDictionary] refers to. *)
Definition dictionary (s : State) : Lookup.t :=
  readLookup (store s) (_bindingDictionary (this s)).

(** [this._middleware = middleware], and the like for the other fields the
    methods assign to. *)
Definition withMiddleware (c : Container) (middleware : option Chain) : Container :=
  mkContainer (id c) (options c) middleware (_bindingDictionary c) (_snapshots c) (parent c).

Definition withBindingDictionary (c : Container) (l : LookupRef) : Container :=
  mkContainer (id c) (options c) (_middleware c) l (_snapshots c) (parent c).

Definition withSnapshots (c : Container) (snapshots : list ContainerSnapshot.t) : Container :=
  mkContainer (id c) (options c) (_middleware c) (_bindingDictionary c) snapshots (parent c).

Definition withParent (c : Container) (p : option Container) : Container :=
  mkContainer (id c) (options c) (_middleware c) (_bindingDictionary c) (_snapshots c) p.

(** [array.pop()]: the last element and the rest, nothing for []. *)
Fixpoint pop {A : Type} (l : list A) : option (A * list A) :=
  match l with
  | [] => None
  | x :: rest =>
      match pop rest with
      | None => Some (x, [])
      | Some (y, rest') => Some (y, x :: rest')
      end
  end.

(** Modelled from the spec: [planning/planner] is not among the sources.
    [createMockRequest] builds the "mock request with that tag" that
    [isBoundTagged] shows to the constraints: a root request for the
    identifier, in a context of the container, whose target carries the one
    tag [key = value]. *)
Definition createMockRequest (container : Container) (serviceIdentifier : ServiceIdentifier)
    (key value : JsValue) : Request.t :=
  {| Request.serviceIdentifier := serviceIdentifier;
     Request.container := id container;
     Request.tags := [(key, value)];
     Request.parentRequest := None;
     Request.isMultiInject := false |}.

(** [bindings.some((b) => b.constraint(request))] over binding objects. *)
Definition someConstraint (σ : Store) (request : Request.t) (bindings : list BindingRef) : bool :=
  existsb (λ r, match bindingObjects σ !! r with
                | Some b => Binding.constraint b request
                | None => false
                end) bindings.

(** Modelled from the spec: [syntax/binding_to_syntax] is not among the
    sources.  The calls of "the fluent syntax (to, toConstantValue,
    inSingletonScope, whenTargetNamed, ...)" that the container tests use. *)
Inductive Fluent :=
| to (constructor : JsValue)
| toConstantValue (value : JsValue)
| inSingletonScope
| inTransientScope
| inRequestScope
| whenTargetNamed (name : JsValue)
| whenTargetTagged (tag value : JsValue)
| when (constraint : Request.t → bool).

(** Modelled from the spec: the registry of a module is not among the
    sources.  "A registration callback": the script of its calls to the four
    helpers it is handed, each [bind] and [rebind] followed by the fluent
    calls made on the syntax object it returns, each [isBound] followed by
    what the callback does with the answer. *)
Inductive Registry :=
| registryReturn
| registryBind (serviceIdentifier : ServiceIdentifier) (syntax : list Fluent) (next : Registry)
| registryUnbind (serviceIdentifier : ServiceIdentifier) (next : Registry)
| registryIsBound (serviceIdentifier : ServiceIdentifier) (next : bool → Registry)
| registryRebind (serviceIdentifier : ServiceIdentifier) (syntax : list Fluent) (next : Registry).

Module ContainerModule.

(** Modelled from the spec: [container/container_module] is not among the
    sources.  "A module is a registration callback stamped with a module
    id". *)
Record t := make {
  id : nat;
  registry : Registry
}.
End ContainerModule.

(** Modelled from the spec: the methods of [syntax/binding_to_syntax] are not
    among the sources.  The fluent calls assign to the binding they wrap:
    [to] and [toConstantValue] choose the production strategy, the scope calls
    the scope, and "whenTargetNamed(name) restricts to requests whose target
    tag registry contains the canonical named tag equal to name;
    whenTargetTagged(key, value) restricts to requests carrying tag key with
    value equal by strict comparison". *)
Definition fluent (f : Fluent) (b : Binding.t) : Binding.t :=
  let 'Binding.make sid scope impl cache constraint moduleId := b in
  match f with
  | to constructor => Binding.make sid scope (Some constructor) None constraint moduleId
  | toConstantValue value => Binding.make sid scope None (Some value) constraint moduleId
  | inSingletonScope => Binding.make sid Singleton impl cache constraint moduleId
  | inTransientScope => Binding.make sid Transient impl cache constraint moduleId
  | inRequestScope => Binding.make sid Request impl cache constraint moduleId
  | whenTargetNamed name =>
      Binding.make sid scope impl cache (λ request, Request.matchesTag request NAMED_TAG name) moduleId
  | whenTargetTagged tag value =>
      Binding.make sid scope impl cache (λ request, Request.matchesTag request tag value) moduleId
  | when constraint' => Binding.make sid scope impl cache constraint' moduleId
  end.

(** The fluent calls [syntax], in order, on the binding at [binding]. *)
Definition configure (binding : BindingRef) (syntax : list Fluent) : M State unit :=
  onStore (updateBinding binding (λ b, fold_left (λ b f, fluent f b) syntax b)).

(** The four helpers a module's registry is called with. *)
Record ContainerModuleHelpers := mkHelpers {
  bindFunction : ServiceIdentifier → M State BindingRef;
  unbindFunction : ServiceIdentifier → M State unit;
  isboundFunction : ServiceIdentifier → M State bool;
  rebindFunction : ServiceIdentifier → M State BindingRef
}.

(** [currentModule.registry(bind, unbind, isBound, rebind)] *)
Fixpoint callRegistry (helpers : ContainerModuleHelpers) (registry : Registry) : M State unit :=
  match registry with
  | registryReturn => ret tt
  | registryBind serviceIdentifier syntax next =>
      bindingToSyntax <- bindFunction helpers serviceIdentifier ;;
      configure bindingToSyntax syntax ;;;
      callRegistry helpers next
  | registryUnbind serviceIdentifier next =>
      unbindFunction helpers serviceIdentifier ;;;
      callRegistry helpers next
  | registryIsBound serviceIdentifier next =>
      bound <- isboundFunction helpers serviceIdentifier ;;
      callRegistry helpers (next bound)
  | registryRebind serviceIdentifier syntax next =>
      bindingToSyntax <- rebindFunction helpers serviceIdentifier ;;
      configure bindingToSyntax syntax ;;;
      callRegistry helpers next
  end.

(** [for (const x of xs) { body(x) }] *)
Fixpoint forEach {S A : Type} (xs : list A) (body : A → M S unit) : M S unit :=
  match xs with
  | [] => ret tt
  | x :: rest => body x ;;; forEach rest body
  end.

(** Modelled from the spec: [Lookup.traverse] is not among the sources.
    "traverse(visitor) iterates all (key, bindings) pairs in insertion
    order". *)
Definition traverse {S : Type} (map : Lookup.t)
    (func : ServiceIdentifier → list BindingRef → M S unit) : M S unit :=
  forEach map (λ e, func e.1 e.2).

(** ** [ContainerBase] ([src/container/container_base.ts]) *)

Module ContainerBase.

(** The scope a validated [defaultScope] names. *)
Definition scopeOf (v : JsValue) : BindingScope :=
  if strict_equals v (BindingScopeEnum Singleton) then Singleton
  else if strict_equals v (BindingScopeEnum Request) then Request
  else Transient.

(** The boolean a validated flag holds. *)
Definition booleanOf (v : JsValue) : bool :=
  match v with
  | JsBoolean b => b
  | _ => false
  end.

(** [constructor(containerOptions?)]; an omitted argument is [undefined].
    The defaults the source writes into the caller's object are kept in
    locals. *)
Definition constructor (containerOptions : JsValue) : M Store Container :=
  let options := if truthy containerOptions then containerOptions else JsObject 0 [] in
  if negb (String.eqb (typeof options) "object")
  then throw [Const CONTAINER_OPTIONS_MUST_BE_AN_OBJECT]
  else
    defaultScope <-
      (let v := get_prop options "defaultScope" in
       if strict_equals v JsUndefined then ret (BindingScopeEnum Transient)
       else if negb (strict_equals v (BindingScopeEnum Singleton))
               && negb (strict_equals v (BindingScopeEnum Transient))
               && negb (strict_equals v (BindingScopeEnum Request))
       then throw [Const CONTAINER_OPTIONS_INVALID_DEFAULT_SCOPE]
       else ret v) ;;
    autoBindInjectable <-
      (let v := get_prop options "autoBindInjectable" in
       if strict_equals v JsUndefined then ret (JsBoolean false)
       else if negb (String.eqb (typeof v) "boolean")
       then throw [Const CONTAINER_OPTIONS_INVALID_AUTO_BIND_INJECTABLE]
       else ret v) ;;
    skipBaseClassChecks <-
      (let v := get_prop options "skipBaseClassChecks" in
       if strict_equals v JsUndefined then ret (JsBoolean false)
       else if negb (String.eqb (typeof v) "boolean")
       then throw [Const CONTAINER_OPTIONS_INVALID_SKIP_BASE_CHECK]
       else ret v) ;;
    i <- id_ ;;
    bindingDictionary <- newLookup Lookup.empty ;;
    ret {| id := i;
           options := {| autoBindInjectable := booleanOf autoBindInjectable;
                         defaultScope := scopeOf defaultScope;
                         skipBaseClassChecks := booleanOf skipBaseClassChecks |};
           _middleware := None;
           _bindingDictionary := bindingDictionary;
           _snapshots := [];
           parent := None |}.

(** [load(...modules)]; the abstract [_getContainerModuleHelpersFactory] is
    what the subclass passes for [getHelpers]. *)
Definition load (getHelpers : nat → ContainerModuleHelpers)
    (modules : list ContainerModule.t) : M State unit :=
  forEach modules (λ currentModule,
    let containerModuleHelpers := getHelpers (ContainerModule.id currentModule) in
    callRegistry containerModuleHelpers (ContainerModule.registry currentModule)).

(** [item.moduleId === expected] *)
Definition conditionFactory (expected : nat) (item : Binding.t) : bool :=
  bool_decide (Binding.moduleId item = Some expected).

(** [this._bindingDictionary.removeByCondition(condition)] *)
Definition removeByCondition (condition : Binding.t → bool) : M State unit :=
  λ s,
    let l := _bindingDictionary (this s) in
    onStore (writeLookup l
      (Lookup.removeByCondition (dictionary s)
         (λ r, match bindingObjects (store s) !! r with
               | Some item => condition item
               | None => false
               end))) s.

Definition unload (modules : list ContainerModule.t) : M State unit :=
  forEach modules (λ module,
    let condition := conditionFactory (ContainerModule.id module) in
    removeByCondition condition).

(** [this._bindingDictionary.remove(serviceIdentifier)] *)
Definition remove (serviceIdentifier : ServiceIdentifier) : M State unit :=
  λ s, (map <- liftRes (Lookup.remove (dictionary s) serviceIdentifier) ;;
        onStore (writeLookup (_bindingDictionary (this s)) map)) s.

Definition unbind (serviceIdentifier : ServiceIdentifier) : M State unit :=
  tryCatch (remove serviceIdentifier)
    (λ e, throw [Const CANNOT_UNBIND; Text " ";
                 Text (getServiceIdentifierAsString serviceIdentifier)]).

Definition unbindAll : M State unit :=
  bindingDictionary <- onStore (newLookup Lookup.empty) ;;
  c <- gets this ;;
  setThis (withBindingDictionary c bindingDictionary).

Definition isBound (s : State) (serviceIdentifier : ServiceIdentifier) : bool :=
  Lookup.hasKey (dictionary s) serviceIdentifier.

Definition isBoundTagged (s : State) (serviceIdentifier : ServiceIdentifier)
    (key value : JsValue) : Res bool :=
  let bound := false in
  if Lookup.hasKey (dictionary s) serviceIdentifier
  then
    match Lookup.get (dictionary s) serviceIdentifier with
    | Ok bindings =>
        let request := createMockRequest (this s) serviceIdentifier key value in
        Ok (someConstraint (store s) request bindings)
    | Throw e => Throw e
    end
  else Ok bound.

Definition isBoundNamed (s : State) (serviceIdentifier : ServiceIdentifier)
    (named : JsValue) : Res bool :=
  isBoundTagged s serviceIdentifier NAMED_TAG named.

Definition snapshot : M State unit :=
  c <- gets this ;;
  copy <- onStore (cloneLookup (_bindingDictionary c)) ;;
  setThis (withSnapshots c (_snapshots c ++ [ContainerSnapshot.of_ copy (_middleware c)])).

Definition restore : M State unit :=
  c <- gets this ;;
  match pop (_snapshots c) with
  | None => throw [Const NO_MORE_SNAPSHOTS_AVAILABLE]
  | Some (snapshot, rest) =>
      setThis (mkContainer (id c) (options c) (ContainerSnapshot.middleware snapshot)
                 (ContainerSnapshot.bindings snapshot) rest (parent c))
  end.

End ContainerBase.

(** ** [Container] ([src/container/container.ts]) *)

Module Container.

Definition constructor (containerOptions : JsValue) : M Store Container :=
  c <- ContainerBase.constructor containerOptions ;;
  ret (withParent c None).

(** [bind(serviceIdentifier)]; the result stands for the [BindingToSyntax]
    that wraps the new binding.  A scope name is never falsy, so the
    [|| BindingScopeEnum.Transient] of the source never applies. *)
Definition bind (serviceIdentifier : ServiceIdentifier) : M State BindingRef :=
  c <- gets this ;;
  let scope := defaultScope (options c) in
  binding <- onStore (newBinding (Binding.new serviceIdentifier scope)) ;;
  (λ s, onStore (writeLookup (_bindingDictionary c)
                   (Lookup.add (dictionary s) serviceIdentifier binding)) s) ;;;
  ret binding.

Definition rebind (serviceIdentifier : ServiceIdentifier) : M State BindingRef :=
  ContainerBase.unbind serviceIdentifier ;;;
  bind serviceIdentifier.

Fixpoint isBound (c : Container) (σ : Store) (serviceIdentifier : ServiceIdentifier) : bool :=
  let bound := ContainerBase.isBound (mkState c σ) serviceIdentifier in
  match negb bound, parent c with
  | true, Some parent => isBound parent σ serviceIdentifier
  | _, _ => bound
  end.

Fixpoint isBoundTagged (c : Container) (σ : Store) (serviceIdentifier : ServiceIdentifier)
    (key value : JsValue) : Res bool :=
  match ContainerBase.isBoundTagged (mkState c σ) serviceIdentifier key value with
  | Ok bound =>
      match negb bound, parent c with
      | true, Some parent => isBoundTagged parent σ serviceIdentifier key value
      | _, _ => Ok bound
      end
  | Throw e => Throw e
  end.

Definition isBoundNamed (c : Container) (σ : Store) (serviceIdentifier : ServiceIdentifier)
    (named : JsValue) : Res bool :=
  isBoundTagged c σ serviceIdentifier NAMED_TAG named.

Definition snapshot : M State unit :=
  c <- gets this ;;
  copy <- onStore (cloneLookup (_bindingDictionary c)) ;;
  setThis (withSnapshots c (_snapshots c ++ [ContainerSnapshot.of_ copy (_middleware c)])).

Definition restore : M State unit :=
  c <- gets this ;;
  match pop (_snapshots c) with
  | None => throw [Const NO_MORE_SNAPSHOTS_AVAILABLE]
  | Some (snapshot, rest) =>
      setThis (mkContainer (id c) (options c) (ContainerSnapshot.middleware snapshot)
                 (ContainerSnapshot.bindings snapshot) rest (parent c))
  end.

(** [this.options] as the argument of a constructor. *)
Definition optionsObject (o : ContainerOptions) : JsValue :=
  JsObject 0 [("autoBindInjectable", JsBoolean (autoBindInjectable o));
              ("defaultScope", BindingScopeEnum (defaultScope o));
              ("skipBaseClassChecks", JsBoolean (skipBaseClassChecks o))].

Definition createChild (containerOptions : JsValue) : M State Container :=
  c <- gets this ;;
  child <- onStore (constructor (if truthy containerOptions then containerOptions
                                 else optionsObject (options c))) ;;
  ret (withParent child (Some c)).

(** [applyMiddleware(...middlewares)].  [this._planAndResolve()] is the chain
    that hands over to the entry point it is given. *)
Definition applyMiddleware (middlewares : list Middleware) : M State unit :=
  c <- gets this ;;
  let initial : Chain :=
    match _middleware c with
    | Some middleware => middleware
    | None => λ planAndResolve, planAndResolve
    end in
  setThis (withMiddleware c
    (Some (fold_left (λ (prev : Chain) (curr : Middleware), λ planAndResolve, curr (prev planAndResolve))
             middlewares initial))).

(** [bindingToSyntax._binding.moduleId = moduleId] *)
Definition setModuleId (bindingToSyntax : BindingRef) (moduleId : nat) : M State unit :=
  onStore (updateBinding bindingToSyntax (λ b,
    Binding.make (Binding.serviceIdentifier b) (Binding.scope b) (Binding.implementationType b)
      (Binding.cache b) (Binding.constraint b) (Some moduleId))).

Definition getBindFunction (moduleId : nat) (serviceIdentifier : ServiceIdentifier)
    : M State BindingRef :=
  bindingToSyntax <- bind serviceIdentifier ;;
  setModuleId bindingToSyntax moduleId ;;;
  ret bindingToSyntax.

Definition getUnbindFunction (moduleId : nat) (serviceIdentifier : ServiceIdentifier)
    : M State unit :=
  ContainerBase.unbind serviceIdentifier.

Definition getIsboundFunction (moduleId : nat) (serviceIdentifier : ServiceIdentifier)
    : M State bool :=
  gets (λ s, isBound (this s) (store s) serviceIdentifier).

Definition getRebindFunction (moduleId : nat) (serviceIdentifier : ServiceIdentifier)
    : M State BindingRef :=
  bindingToSyntax <- rebind serviceIdentifier ;;
  setModuleId bindingToSyntax moduleId ;;;
  ret bindingToSyntax.

Definition _getContainerModuleHelpersFactory (mId : nat) : ContainerModuleHelpers :=
  {| bindFunction := getBindFunction mId;
     isboundFunction := getIsboundFunction mId;
     rebindFunction := getRebindFunction mId;
     unbindFunction := getUnbindFunction mId |}.

(** The inherited [load] and [unload]. *)
Definition load (modules : list ContainerModule.t) : M State unit :=
  ContainerBase.load _getContainerModuleHelpersFactory modules.

Definition unload (modules : list ContainerModule.t) : M State unit :=
  ContainerBase.unload modules.

Definition unbind (serviceIdentifier : ServiceIdentifier) : M State unit :=
  ContainerBase.unbind serviceIdentifier.

Definition unbindAll : M State unit := ContainerBase.unbindAll.

(** Modelled from the spec: [getBindingDictionary] of [planning/planner] is
    not among the sources.  The container tests read the dictionary of a
    container through it: it hands out [_bindingDictionary]. *)
Definition getBindingDictionary (container : Container) : LookupRef :=
  _bindingDictionary container.

(** [copyDictionary(origin, destination)], the local function of [merge]:
    every binding of [origin], in traversal order, is cloned and added to
    [destination] under the [serviceIdentifier] of the binding. *)
Definition copyDictionary (origin destination : LookupRef) : M Store unit :=
  λ σ, traverse (readLookup σ origin) (λ key value,
         forEach value (λ binding,
           λ σ, match bindingObjects σ !! binding with
                | Some b =>
                    (copy <- newBinding (Binding.clone b) ;;
                     λ σ, writeLookup destination
                            (Lookup.add (readLookup σ destination)
                               (Binding.serviceIdentifier b) copy) σ) σ
                | None => ret tt σ
                end)) σ.

(** [static merge(container1, container2)] *)
Definition merge (container1 container2 : Container) : M Store Container :=
  container <- constructor JsUndefined ;;
  let bindingDictionary := getBindingDictionary container in
  let bindingDictionary1 := getBindingDictionary container1 in
  let bindingDictionary2 := getBindingDictionary container2 in
  copyDictionary bindingDictionary1 bindingDictionary ;;;
  copyDictionary bindingDictionary2 bindingDictionary ;;;
  ret container.

(** A method called on another container object than [this], which it may
    assign to: the result comes with the object as the call left it. *)
Definition on {A : Type} (c : Container) (m : M State A) : M State (A * Container) :=
  λ s, let '(r, t) := m (mkState c (store s)) in
       (match r with
        | Ok a => Ok (a, this t)
        | Throw e => Throw e
        end, mkState (this s) (store t)).

(** *** Resolution

    [plan] ([planning/planner]) and [resolve] ([resolution/resolver]) are not
    among the sources and are taken as given; they see the container and the
    store as they are at the call. *)
Section Resolution.

Variable plan : State → bool → TargetType → ServiceIdentifier → JsValue → JsValue → bool
                → Res Context.t.
Variable resolve : State → Context.t → Res JsValue.

Definition _planAndResolve (s : State) : Next :=
  λ args,
    match plan s (NextArgs.isMultiInject args) (NextArgs.targetType args)
            (NextArgs.serviceIdentifier args) (NextArgs.key args) (NextArgs.value args)
            (NextArgs.avoidConstraints args) with
    | Ok context =>
        let context := NextArgs.contextInterceptor args context in
        let result := resolve s context in
        result
    | Throw e => Throw e
    end.

Definition defaultArgs (avoidConstraints isMultiInject : bool) (targetType : TargetType)
    (serviceIdentifier : ServiceIdentifier) (key value : JsValue) : NextArgs.t :=
  {| NextArgs.avoidConstraints := avoidConstraints;
     NextArgs.contextInterceptor := λ context, context;
     NextArgs.isMultiInject := isMultiInject;
     NextArgs.key := key;
     NextArgs.serviceIdentifier := serviceIdentifier;
     NextArgs.targetType := targetType;
     NextArgs.value := value |}.

(** [_get]; an omitted [key] or [value] is [undefined]. *)
Definition _get (avoidConstraints isMultiInject : bool) (targetType : TargetType)
    (serviceIdentifier : ServiceIdentifier) (key value : JsValue) (s : State) : Res JsValue :=
  let defaultArgs :=
    defaultArgs avoidConstraints isMultiInject targetType serviceIdentifier key value in
  match _middleware (this s) with
  | Some middleware =>
      match middleware (_planAndResolve s) defaultArgs with
      | Ok result =>
          if strict_equals result JsUndefined || strict_equals result JsNull
          then Throw [Const INVALID_MIDDLEWARE_RETURN]
          else Ok result
      | Throw e => Throw e
      end
  | None => _planAndResolve s defaultArgs
  end.

Definition get (serviceIdentifier : ServiceIdentifier) (s : State) : Res JsValue :=
  _get false false TargetTypeEnum_Variable serviceIdentifier JsUndefined JsUndefined s.

Definition getTagged (serviceIdentifier : ServiceIdentifier) (key value : JsValue)
    (s : State) : Res JsValue :=
  _get false false TargetTypeEnum_Variable serviceIdentifier key value s.

Definition getNamed (serviceIdentifier : ServiceIdentifier) (named : JsValue)
    (s : State) : Res JsValue :=
  getTagged serviceIdentifier NAMED_TAG named s.

Definition getAll (serviceIdentifier : ServiceIdentifier) (s : State) : Res JsValue :=
  _get true true TargetTypeEnum_Variable serviceIdentifier JsUndefined JsUndefined s.

Definition getAllTagged (serviceIdentifier : ServiceIdentifier) (key value : JsValue)
    (s : State) : Res JsValue :=
  _get false true TargetTypeEnum_Variable serviceIdentifier key value s.

Definition getAllNamed (serviceIdentifier : ServiceIdentifier) (named : JsValue)
    (s : State) : Res JsValue :=
  getAllTagged serviceIdentifier NAMED_TAG named s.

End Resolution.

(** *** [resolve(constructorFunction)]

    The constructor is the class of identity [oid] and name [name];
    [toSelf()] is [to] of the class itself.  [resolver] is the [resolve] of
    [resolution/resolver]. *)
Section Resolve.

Variable plan : State → bool → TargetType → ServiceIdentifier → JsValue → JsValue → bool
                → Res Context.t.
Variable resolver : State → Context.t → Res JsValue.

Definition resolve (oid : nat) (name : string) : M State JsValue :=
  let constructorFunction := NewableId oid name in
  tempContainer <- createChild JsUndefined ;;
  bound <- on tempContainer (bind constructorFunction) ;;
  configure bound.1 [to (JsFunction oid name)] ;;;
  (λ s, (get plan resolver constructorFunction (mkState bound.2 (store s)), s)).

End Resolve.

End Container.

(** ** Running a method *)

(** The state a call leaves behind, whether it returned or threw. *)
Definition exec {A : Type} (m : M State A) (s : State) : State := (m s).2.

(** What the call returned or threw. *)
Definition outcome {A : Type} (m : M State A) (s : State) : Res A := (m s).1.

(** The bindings of the dictionary in dictionary order, each under its key. *)
Definition pairs (map : Lookup.t) : list (ServiceIdentifier * BindingRef) :=
  flat_map (λ e, List.map (pair e.1) e.2) map.

(** The binding objects a list of references yields in a store. *)
Definition deref (σ : Store) (refs : list BindingRef) : list Binding.t :=
  omap (λ r, bindingObjects σ !! r) refs.

(** What a dictionary holds: its keys in order, each with the configurations
    of its bindings in order. *)
Definition contentsOf (σ : Store) (map : Lookup.t) : list (ServiceIdentifier * list Binding.t) :=
  List.map (λ e, (e.1, deref σ e.2)) map.

Definition contents (s : State) : list (ServiceIdentifier * list Binding.t) :=
  contentsOf (store s) (dictionary s).

(** Some binding of the container itself, under the identifier, accepts the
    mock request for the tag. *)
Definition locallyTagged (s : State) (serviceIdentifier : ServiceIdentifier)
    (key value : JsValue) : Prop :=
  ∃ r b, r ∈ Lookup.entries (dictionary s) serviceIdentifier
         ∧ bindingObjects (store s) !! r = Some b
         ∧ Binding.constraint b (createMockRequest (this s) serviceIdentifier key value) = true.

(** The container followed by its ancestors, nearest first. *)
Fixpoint chain (c : Container) : list Container :=
  c :: match parent c with
       | Some p => chain p
       | None => []
       end.

(** *** Mutations, for the snapshot round trip *)

Inductive Mutation :=
| doBind (serviceIdentifier : ServiceIdentifier) (syntax : list Fluent)
| doRebind (serviceIdentifier : ServiceIdentifier) (syntax : list Fluent)
| doUnbind (serviceIdentifier : ServiceIdentifier)
| doUnbindAll
| doLoad (modules : list ContainerModule.t)
| doUnload (modules : list ContainerModule.t)
| doApplyMiddleware (middlewares : list Middleware).

Definition mutate (m : Mutation) : M State unit :=
  match m with
  | doBind serviceIdentifier syntax =>
      bindingToSyntax <- Container.bind serviceIdentifier ;;
      configure bindingToSyntax syntax
  | doRebind serviceIdentifier syntax =>
      bindingToSyntax <- Container.rebind serviceIdentifier ;;
      configure bindingToSyntax syntax
  | doUnbind serviceIdentifier => Container.unbind serviceIdentifier
  | doUnbindAll => Container.unbindAll
  | doLoad modules => Container.load modules
  | doUnload modules => Container.unload modules
  | doApplyMiddleware middlewares => Container.applyMiddleware middlewares
  end.

(** The mutations in order; a caller that catches a failure goes on with the
    next one. *)
Definition mutateAll (ms : list Mutation) (s : State) : State :=
  fold_left (λ s m, exec (mutate m) s) ms s.

(** A use of the container: a mutation, [snapshot()] or [restore()]. *)
Inductive Step :=
| stepMutation (m : Mutation)
| stepSnapshot
| stepRestore.

Definition step (st : Step) : M State unit :=
  match st with
  | stepMutation m => mutate m
  | stepSnapshot => Container.snapshot
  | stepRestore => Container.restore
  end.

Definition stepAll (steps : list Step) (s : State) : State :=
  fold_left (λ s st, exec (step st) s) steps s.

(** The snapshots taken and not yet restored: a [restore()] with none to
    restore takes none away. *)
Definition depth (steps : list Step) : nat :=
  fold_left (λ d st, match st with
                     | stepMutation _ => d
                     | stepSnapshot => S d
                     | stepRestore => pred d
                     end) steps 0.

(** *** Well-formed states *)

(** The references of a dictionary are below [n]. *)
Definition lookupValid (n : nat) (map : Lookup.t) : Prop :=
  Forall (λ e : ServiceIdentifier * list BindingRef, Forall (λ r, r < n) e.2) map.

(** Every dictionary of the store refers to binding objects of the store. *)
Definition storeWf (σ : Store) : Prop :=
  Forall (lookupValid (length (bindingObjects σ))) (lookups σ).

(** The dictionary of the container and the dictionaries of its snapshots are
    objects of the store, each its own. *)
Definition stateWf (s : State) : Prop :=
  _bindingDictionary (this s) < length (lookups (store s))
  ∧ Forall (λ sn, ContainerSnapshot.bindings sn < length (lookups (store s)))
           (_snapshots (this s))
  ∧ NoDup (_bindingDictionary (this s)
             :: List.map ContainerSnapshot.bindings (_snapshots (this s)))
  ∧ storeWf (store s).

#[global] Instance lookupValid_dec n map : Decision (lookupValid n map).
Proof. unfold lookupValid. apply _. Defined.

#[global] Instance storeWf_dec σ : Decision (storeWf σ).
Proof. unfold storeWf. apply _. Defined.

#[global] Instance stateWf_dec s : Decision (stateWf s).
Proof. unfold stateWf. apply _. Defined.

(** *** The calls of the get family *)

Inductive GetCall :=
| callGet (serviceIdentifier : ServiceIdentifier)
| callGetTagged (serviceIdentifier : ServiceIdentifier) (key value : JsValue)
| callGetNamed (serviceIdentifier : ServiceIdentifier) (named : JsValue)
| callGetAll (serviceIdentifier : ServiceIdentifier)
| callGetAllTagged (serviceIdentifier : ServiceIdentifier) (key value : JsValue)
| callGetAllNamed (serviceIdentifier : ServiceIdentifier) (named : JsValue).

Section Calls.

Variable plan : State → bool → TargetType → ServiceIdentifier → JsValue → JsValue → bool
                → Res Context.t.
Variable resolve : State → Context.t → Res JsValue.

Definition call (g : GetCall) (s : State) : Res JsValue :=
  match g with
  | callGet sid => Container.get plan resolve sid s
  | callGetTagged sid key value => Container.getTagged plan resolve sid key value s
  | callGetNamed sid named => Container.getNamed plan resolve sid named s
  | callGetAll sid => Container.getAll plan resolve sid s
  | callGetAllTagged sid key value => Container.getAllTagged plan resolve sid key value s
  | callGetAllNamed sid named => Container.getAllNamed plan resolve sid named s
  end.

End Calls.

(** The resolution arguments a call of the get family hands to the chain. *)
Definition argsOf (g : GetCall) : NextArgs.t :=
  match g with
  | callGet sid =>
      Container.defaultArgs false false TargetTypeEnum_Variable sid JsUndefined JsUndefined
  | callGetTagged sid key value =>
      Container.defaultArgs false false TargetTypeEnum_Variable sid key value
  | callGetNamed sid named =>
      Container.defaultArgs false false TargetTypeEnum_Variable sid NAMED_TAG named
  | callGetAll sid =>
      Container.defaultArgs true true TargetTypeEnum_Variable sid JsUndefined JsUndefined
  | callGetAllTagged sid key value =>
      Container.defaultArgs false true TargetTypeEnum_Variable sid key value
  | callGetAllNamed sid named =>
      Container.defaultArgs false true TargetTypeEnum_Variable sid NAMED_TAG named
  end.

(** The null check [_get] makes on what the chain returned. *)
Definition checked (r : Res JsValue) : Res JsValue :=
  match r with
  | Ok result =>
      if is_nullish result then Throw [Const INVALID_MIDDLEWARE_RETURN] else Ok result
  | Throw e => Throw e
  end.

(** *** Sample states *)

Definition emptyStore : Store := mkStore [] [] 0.

(** [new Container()] in an empty store. *)
Definition freshState : State :=
  let '(r, σ) := Container.constructor JsUndefined emptyStore in
  match r with
  | Ok c => mkState c σ
  | Throw _ => mkState (mkContainer 0 (mkOptions false Transient false) None 0 [] None) σ
  end.

(** ** Vocabulary of the properties *)

(** From a state in [P], [m] returns [a] in a state in [Q a], or throws in a
    state in [E]. *)
Definition hoare {A : Type} (P : State → Prop) (m : M State A)
    (Q : A → State → Prop) (E : State → Prop) : Prop :=
  ∀ s, P s → match m s with
             | (Ok a, s') => Q a s'
             | (Throw _, s') => E s'
             end.

(** [s] was reached from [s0] without touching the snapshot stack, the
    dictionaries of the snapshots, or any binding object of [s0]. *)
Record evolved (s0 s : State) : Prop := mkEvolved {
  ev_snapshots : _snapshots (this s) = _snapshots (this s0);
  ev_bindings : bindingObjects (store s0) `prefix_of` bindingObjects (store s);
  ev_lookups : ∀ sn, sn ∈ _snapshots (this s0) →
     lookups (store s) !! ContainerSnapshot.bindings sn
     = lookups (store s0) !! ContainerSnapshot.bindings sn;
  ev_wf : stateWf s
}.

(** Each method of the container keeps [evolved s0], whether it returns or
    throws. *)
Definition keeps {A : Type} (s0 : State) (m : M State A) : Prop :=
  hoare (evolved s0) m (λ _, evolved s0) (evolved s0).

(** The snapshot stack is [stack]. *)
Definition stackIs (stack : list ContainerSnapshot.t) (s : State) : Prop :=
  _snapshots (this s) = stack.

(** A method keeps the snapshot stack, whether it returns or throws. *)
Definition keepsStack {A : Type} (stack : list ContainerSnapshot.t) (m : M State A) : Prop :=
  hoare (stackIs stack) m (λ _, stackIs stack) (stackIs stack).

(** The binding at [r] belongs to the module [mId]. *)
Definition ownedBy (σ : Store) (mId : nat) (r : BindingRef) : bool :=
  match bindingObjects σ !! r with
  | Some item => ContainerBase.conditionFactory mId item
  | None => false
  end.

(** Since [s0] the store got new binding objects only, each with the module
    id [mId]. *)
Definition stamped (s0 : State) (mId : nat) (s : State) : Prop :=
  ∃ news, bindingObjects (store s) = bindingObjects (store s0) ++ news
          ∧ Forall (λ b, Binding.moduleId b = Some mId) news.

(** The two modules of the test "Should be able to use modules as
    configuration". *)
Definition warriors : ContainerModule.t :=
  ContainerModule.make 100
    (registryBind (StringId "Ninja") [to (JsFunction 1 "Ninja")] registryReturn).

Definition weapons : ContainerModule.t :=
  ContainerModule.make 101
    (registryBind (StringId "Katana") [to (JsFunction 2 "Katana")]
       (registryBind (StringId "Shuriken") [to (JsFunction 3 "Shuriken")] registryReturn)).

(** A root container with a binding of "Zero" named InvalidDivisor. *)
Definition rootWithZero : State :=
  exec (mutate (doBind (StringId "Zero")
                  [toConstantValue (JsNumber 0); whenTargetNamed (JsString "InvalidDivisor")]))
    freshState.

(** The child of a child of the container, in the same store. *)
Definition grandchildOf (s : State) : State :=
  let '(r1, s1) := Container.createChild JsUndefined s in
  match r1 with
  | Ok child =>
      let '(r2, s2) := Container.createChild JsUndefined (mkState child (store s1)) in
      match r2 with
      | Ok grandchild => mkState grandchild (store s2)
      | Throw _ => s
      end
  | Throw _ => s
  end.

(** The options the constructor goes by: an argument that is not truthy
    counts as left out. *)
Definition effectiveOptions (containerOptions : JsValue) : JsValue :=
  if truthy containerOptions then containerOptions else JsObject 0 [].

(** [defaultScope] is left out or one of the three scopes. *)
Definition scopeAccepted (v : JsValue) : bool :=
  strict_equals v JsUndefined
  || existsb (λ scope, strict_equals v (BindingScopeEnum scope)) [Singleton; Transient; Request].

(** A flag is left out or a boolean. *)
Definition flagAccepted (v : JsValue) : bool :=
  strict_equals v JsUndefined || String.eqb (typeof v) "boolean".

(** A middleware that answers [null] for the identifier "Ninja" and passes
    every other request on. *)
Definition nullForNinja : Middleware :=
  λ next args,
    if bool_decide (NextArgs.serviceIdentifier args = StringId "Ninja")
    then Ok JsNull
    else next args.

(** A new container with that middleware installed. *)
Definition stateWithNullForNinja : State :=
  exec (Container.applyMiddleware [nullForNinja]) freshState.

(** A middleware that applies [f] to the number its [next] answers. *)
Definition mapResult (f : Z → Z) : Middleware :=
  λ next args,
    match next args with
    | Ok (JsNumber n) => Ok (JsNumber (f n))
    | r => r
    end.

(** The dictionaries of [c] and of its ancestors are objects of the store of
    [s], none of them the dictionary of the container of [s]. *)
Definition apart (s : State) (c : Container) : Prop :=
  Forall (λ a, _bindingDictionary a < length (lookups (store s))
               ∧ _bindingDictionary a ≠ _bindingDictionary (this s))
         (chain c).

(** Since [s0] the dictionaries of [c] and of its ancestors are as they
    were, and still apart from the dictionary of the container. *)
Definition keptFor (c : Container) (s0 s : State) : Prop :=
  Forall (λ a, lookups (store s) !! _bindingDictionary a
               = lookups (store s0) !! _bindingDictionary a) (chain c)
  ∧ apart s c.

#[global] Instance apart_dec s c : Decision (apart s c).
Proof. unfold apart. apply _. Defined.

(** The steps never restore more snapshots than they took after the [d] that
    are there, and leave [d'] of both on the stack. *)
Fixpoint nested (d : nat) (steps : list Step) (d' : nat) : Prop :=
  match steps with
  | [] => d = d'
  | stepMutation _ :: rest => nested d rest d'
  | stepSnapshot :: rest => nested (S d) rest d'
  | stepRestore :: rest =>
      match d with
      | 0 => False
      | S d0 => nested d0 rest d'
      end
  end.

(** Since [s0] the stack got the snapshots [extra] on top; the snapshots of
    [s0], their dictionaries and the binding objects of [s0] are as they
    were. *)
Record evolvedOver (s0 : State) (extra : list ContainerSnapshot.t) (s : State) : Prop :=
  mkEvolvedOver {
  eo_snapshots : _snapshots (this s) = _snapshots (this s0) ++ extra;
  eo_bindings : bindingObjects (store s0) `prefix_of` bindingObjects (store s);
  eo_lookups : ∀ sn, sn ∈ _snapshots (this s0) →
     lookups (store s) !! ContainerSnapshot.bindings sn
     = lookups (store s0) !! ContainerSnapshot.bindings sn;
  eo_wf : stateWf s
}.

(** The registry only binds and asks [isBound]; it neither unbinds nor
    rebinds. *)
Fixpoint bindsOnly (registry : Registry) : Prop :=
  match registry with
  | registryReturn => True
  | registryBind _ _ next => bindsOnly next
  | registryIsBound _ next => ∀ bound, bindsOnly (next bound)
  | registryUnbind _ _ | registryRebind _ _ _ => False
  end.

(** Without the bindings of the module [mId], the dictionary of [s] is the
    dictionary of [s0] without them; the container is the same object with
    the same fields, and its dictionary is well formed. *)
Definition unloadsTo (s0 : State) (mId : nat) (s : State) : Prop :=
  this s = this s0
  ∧ _bindingDictionary (this s) < length (lookups (store s))
  ∧ lookupValid (length (bindingObjects (store s))) (dictionary s)
  ∧ Lookup.removeByCondition (dictionary s) (ownedBy (store s) mId)
    = Lookup.removeByCondition (dictionary s0) (ownedBy (store s0) mId).

(** No binding of the dictionary belongs to the module [mId], and every key
    has a binding. *)
Definition freeOf (mId : nat) (s : State) : Prop :=
  Forall (λ e : ServiceIdentifier * list BindingRef,
            e.2 ≠ [] ∧ Forall (λ r, ownedBy (store s) mId r = false) e.2)
         (dictionary s).

#[global] Instance freeOf_dec mId s : Decision (freeOf mId s).
Proof. unfold freeOf. apply _. Defined.

(** Every reference of every key of a dictionary, in traversal order. *)
Definition references (map : Lookup.t) : list BindingRef := flat_map snd map.

(** The bindings among [bs] whose own [serviceIdentifier] is
    [serviceIdentifier]. *)
Definition filedUnder (serviceIdentifier : ServiceIdentifier) (bs : list Binding.t)
    : list Binding.t :=
  List.filter (λ b, bool_decide (Binding.serviceIdentifier b = serviceIdentifier)) bs.

(** What a store holds under a key of the dictionary at [l]. *)
Definition entriesAt (σ : Store) (l : LookupRef) (serviceIdentifier : ServiceIdentifier)
    : list Binding.t :=
  deref σ (Lookup.entries (readLookup σ l) serviceIdentifier).

(** The references of a dictionary are from [lo] on and below [hi]. *)
Definition lookupWithin (lo hi : nat) (map : Lookup.t) : Prop :=
  Forall (λ e : ServiceIdentifier * list BindingRef, Forall (λ r, lo ≤ r < hi) e.2) map.

(** * Properties *)

(** ** Lookup *)

Lemma hasKey_false_get map k :
  Lookup.hasKey map k = false → Lookup.get map k = Throw [Const KEY_NOT_FOUND].
Proof.
  induction map as [|[k' es] rest IH]; simpl; [done|].
  case_bool_decide; simpl; [done|]. exact IH.
Qed.

Lemma hasKey_true_get map k :
  Lookup.hasKey map k = true → ∃ es, Lookup.get map k = Ok es.
Proof.
  induction map as [|[k' es] rest IH]; simpl; [done|].
  case_bool_decide; simpl; eauto.
Qed.

Lemma hasKey_remove map k :
  Lookup.hasKey (List.filter (λ e, negb (bool_decide (e.1 = k))) map) k = false.
Proof.
  induction map as [|[k' es] rest IH]; simpl; [done|].
  case_bool_decide; simpl; [done|].
  case_bool_decide; simpl; [done|]. exact IH.
Qed.

Lemma get_remove_ne map k k' :
  k' ≠ k →
  Lookup.get (List.filter (λ e, negb (bool_decide (e.1 = k))) map) k' = Lookup.get map k'.
Proof.
  intros Hne. induction map as [|[k0 es] rest IH]; simpl; [done|].
  case_bool_decide; simpl.
  - subst k0. case_bool_decide; [congruence|]. exact IH.
  - case_bool_decide; [done|]. exact IH.
Qed.

Lemma get_add_eq map k v :
  Lookup.get (Lookup.add map k v) k = Ok (Lookup.entries map k ++ [v]).
Proof.
  unfold Lookup.entries.
  induction map as [|[k' es] rest IH]; simpl.
  - by rewrite bool_decide_eq_true_2.
  - case_bool_decide; simpl.
    + by rewrite bool_decide_eq_true_2.
    + rewrite bool_decide_eq_false_2 by done. exact IH.
Qed.

Lemma get_add_ne map k k' v :
  k' ≠ k → Lookup.get (Lookup.add map k v) k' = Lookup.get map k'.
Proof.
  intros Hne. induction map as [|[k0 es] rest IH]; simpl.
  - by rewrite bool_decide_eq_false_2.
  - case_bool_decide; simpl.
    + subst k0. by rewrite !bool_decide_eq_false_2 by done.
    + case_bool_decide; [done|]. exact IH.
Qed.

Lemma hasKey_add map k v : Lookup.hasKey (Lookup.add map k v) k = true.
Proof.
  induction map as [|[k' es] rest IH]; simpl.
  - by rewrite bool_decide_eq_true_2.
  - case_bool_decide; simpl.
    + by rewrite bool_decide_eq_true_2.
    + rewrite bool_decide_eq_false_2 by done. exact IH.
Qed.

Lemma entries_absent map k : Lookup.hasKey map k = false → Lookup.entries map k = [].
Proof. intros H. unfold Lookup.entries. by rewrite hasKey_false_get. Qed.

(** ** The store *)

Lemma state_eta s : mkState (this s) (store s) = s.
Proof. by destruct s. Qed.

Lemma store_eta σ : mkStore (lookups σ) (bindingObjects σ) (nextId σ) = σ.
Proof. by destruct σ. Qed.

Lemma hasKey_dictionary_valid s k :
  Lookup.hasKey (dictionary s) k = true →
  _bindingDictionary (this s) < length (lookups (store s)).
Proof.
  unfold dictionary, readLookup. intros H.
  destruct (lookups (store s) !! _bindingDictionary (this s)) eqn:E.
  - by eapply lookup_lt_Some.
  - done.
Qed.

Lemma readLookup_write σ l map :
  l < length (lookups σ) →
  readLookup (mkStore (<[l := map]> (lookups σ)) (bindingObjects σ) (nextId σ)) l = map.
Proof.
  intros H. unfold readLookup. simpl. by rewrite list_lookup_insert_eq.
Qed.

Lemma string_app_nil_r (x : string) : x +:+ "" = x.
Proof. induction x as [|a x IH]; [done|]. change (String a (x +:+ "") = String a x). by f_equal. Qed.

(** ** unbind *)

Lemma unbind_absent s k :
  Lookup.hasKey (dictionary s) k = false →
  ContainerBase.unbind k s
  = (Throw [Const CANNOT_UNBIND; Text " "; Text (getServiceIdentifierAsString k)], s).
Proof.
  intros H. unfold ContainerBase.unbind, tryCatch, ContainerBase.remove, andThen, liftRes.
  unfold Lookup.remove. rewrite H. done.
Qed.

Lemma unbind_present s k :
  Lookup.hasKey (dictionary s) k = true →
  ContainerBase.unbind k s
  = (Ok tt,
     mkState (this s)
       (mkStore (<[_bindingDictionary (this s) :=
                     List.filter (λ e, negb (bool_decide (e.1 = k))) (dictionary s)]>
                   (lookups (store s)))
          (bindingObjects (store s)) (nextId (store s)))).
Proof.
  intros H. unfold ContainerBase.unbind, tryCatch, ContainerBase.remove, andThen, liftRes.
  unfold Lookup.remove. rewrite H. done.
Qed.

(** ** rebind *)

Lemma bind_run s k :
  Container.bind k s
  = (Ok (length (bindingObjects (store s))),
     mkState (this s)
       (mkStore
          (<[_bindingDictionary (this s) :=
               Lookup.add (dictionary s) k (length (bindingObjects (store s)))]>
             (lookups (store s)))
          (bindingObjects (store s)
             ++ [Binding.new k (defaultScope (options (this s)))])
          (nextId (store s)))).
Proof. done. Qed.

Lemma dictionary_write s map b n :
  _bindingDictionary (this s) < length (lookups (store s)) →
  dictionary (mkState (this s)
                (mkStore (<[_bindingDictionary (this s) := map]> (lookups (store s))) b n))
  = map.
Proof.
  intros H. unfold dictionary, readLookup. simpl. by rewrite list_lookup_insert_eq.
Qed.

Lemma getServiceIdentifierAsString_rendered texts k :
  render texts [Const CANNOT_UNBIND; Text " "; Text (getServiceIdentifierAsString k)]
  = texts CANNOT_UNBIND +:+ " " +:+ getServiceIdentifierAsString k.
Proof. simpl. by rewrite string_app_nil_r. Qed.

(** C4.  [unbind] of an identifier without bindings throws CANNOT_UNBIND
    followed by the identifier as a string, whatever the texts of the message
    constants, and leaves the container and the store as they were; [unbind]
    of a registered identifier returns, and afterwards the identifier has no
    bindings left while every other identifier keeps its own. *)
Theorem unbind_absent_or_present (s : State) (serviceIdentifier : ServiceIdentifier) :
  (Lookup.hasKey (dictionary s) serviceIdentifier = false →
     ∃ e, ContainerBase.unbind serviceIdentifier s = (Throw e, s)
          ∧ e = [Const CANNOT_UNBIND; Text " ";
                 Text (getServiceIdentifierAsString serviceIdentifier)]
          ∧ ∀ texts, render texts e
                     = texts CANNOT_UNBIND +:+ " "
                       +:+ getServiceIdentifierAsString serviceIdentifier)
  ∧ (Lookup.hasKey (dictionary s) serviceIdentifier = true →
       ∃ s', ContainerBase.unbind serviceIdentifier s = (Ok tt, s')
             ∧ this s' = this s
             ∧ bindingObjects (store s') = bindingObjects (store s)
             ∧ Lookup.hasKey (dictionary s') serviceIdentifier = false
             ∧ Lookup.entries (dictionary s') serviceIdentifier = []
             ∧ ∀ k, k ≠ serviceIdentifier →
                    Lookup.get (dictionary s') k = Lookup.get (dictionary s) k).
Proof.
  split; intros H.
  - eexists. split; [by apply unbind_absent|]. split; [done|].
    intros texts. apply getServiceIdentifierAsString_rendered.
  - eexists. split; [by apply unbind_present|].
    pose proof (hasKey_dictionary_valid _ _ H) as Hv.
    rewrite dictionary_write by done.
    split_and!; try done.
    + apply hasKey_remove.
    + apply entries_absent, hasKey_remove.
    + intros k Hk. by apply get_remove_ne.
Qed.

(** The test "Should throw when cannot unbind", and an [unbind] that
    succeeds. *)
Lemma unbind_absent_or_present_witness :
  ContainerBase.unbind (StringId "Ninja") freshState
  = (Throw [Const CANNOT_UNBIND; Text " "; Text "Ninja"], freshState)
  ∧ ∃ s', ContainerBase.unbind (StringId "Ninja")
            (exec (Container.bind (StringId "Ninja")) freshState) = (Ok tt, s')
          ∧ Lookup.hasKey (dictionary s') (StringId "Ninja") = false.
Proof.
  split.
  - destruct (proj1 (unbind_absent_or_present freshState (StringId "Ninja")) eq_refl)
      as (e & Hrun & He & _).
    rewrite Hrun, He. reflexivity.
  - destruct (proj2 (unbind_absent_or_present
                       (exec (Container.bind (StringId "Ninja")) freshState)
                       (StringId "Ninja")) eq_refl)
      as (s' & Hrun & _ & _ & Hkey & _).
    exists s'. split; assumption.
Defined.

Lemma rebind_present s k :
  Lookup.hasKey (dictionary s) k = true →
  Container.rebind k s
  = (Ok (length (bindingObjects (store s))),
     mkState (this s)
       (mkStore
          (<[_bindingDictionary (this s) :=
               Lookup.add (List.filter (λ e, negb (bool_decide (e.1 = k))) (dictionary s))
                 k (length (bindingObjects (store s)))]>
             (lookups (store s)))
          (bindingObjects (store s) ++ [Binding.new k (defaultScope (options (this s)))])
          (nextId (store s)))).
Proof.
  intros H. pose proof (hasKey_dictionary_valid _ _ H) as Hv.
  unfold Container.rebind, andThen. rewrite unbind_present by done.
  rewrite bind_run. rewrite dictionary_write by done. simpl.
  by rewrite list_insert_insert_eq.
Qed.

(** C1, as the code has it.  [rebind] is [unbind] followed by [bind].  On an
    identifier without bindings it throws CANNOT_UNBIND and leaves the
    container and the store as they were; on a registered identifier it
    returns the binding it created, which afterwards is the only binding of
    the identifier, a new object with the default scope of the container, and
    every other identifier keeps its bindings. *)
Theorem rebind_unbind_then_bind (s : State) (serviceIdentifier : ServiceIdentifier) :
  Container.rebind serviceIdentifier s
  = (ContainerBase.unbind serviceIdentifier ;;; Container.bind serviceIdentifier) s
  ∧ (Lookup.hasKey (dictionary s) serviceIdentifier = false →
       Container.rebind serviceIdentifier s
       = (Throw [Const CANNOT_UNBIND; Text " ";
                 Text (getServiceIdentifierAsString serviceIdentifier)], s))
  ∧ (Lookup.hasKey (dictionary s) serviceIdentifier = true →
       ∃ binding s',
         Container.rebind serviceIdentifier s = (Ok binding, s')
         ∧ this s' = this s
         ∧ binding = length (bindingObjects (store s))
         ∧ bindingObjects (store s')
           = bindingObjects (store s)
             ++ [Binding.new serviceIdentifier (defaultScope (options (this s)))]
         ∧ Lookup.get (dictionary s') serviceIdentifier = Ok [binding]
         ∧ ∀ k, k ≠ serviceIdentifier →
                Lookup.get (dictionary s') k = Lookup.get (dictionary s) k).
Proof.
  split; [done|]. split; intros H.
  - unfold Container.rebind, andThen. by rewrite unbind_absent.
  - pose proof (hasKey_dictionary_valid _ _ H) as Hv.
    rewrite rebind_present by done.
    do 2 eexists. split; [reflexivity|].
    rewrite dictionary_write by done. simpl.
    split_and!; try done.
    + rewrite get_add_eq, entries_absent; [done|apply hasKey_remove].
    + intros k Hk. rewrite get_add_ne by done. by apply get_remove_ne.
Qed.

(** The test "Should be able to override a binding using rebind": two
    bindings, then [rebind] leaves one; and [rebind] in a new container. *)
Lemma rebind_unbind_then_bind_witness :
  let s := exec (Container.bind (StringId "someType"))
             (exec (Container.bind (StringId "someType")) freshState) in
  (∃ s', Container.rebind (StringId "someType") s = (Ok 2, s')
         ∧ Lookup.get (dictionary s') (StringId "someType") = Ok [2])
  ∧ Container.rebind (StringId "someType") freshState
    = (Throw [Const CANNOT_UNBIND; Text " "; Text "someType"], freshState).
Proof.
  intros s. split.
  - destruct (proj2 (proj2 (rebind_unbind_then_bind s (StringId "someType"))) eq_refl)
      as (binding & s' & Hrun & _ & Hb & _ & Hget & _).
    exists s'. rewrite Hrun, Hget, Hb. split; reflexivity.
  - exact (proj1 (proj2 (rebind_unbind_then_bind freshState (StringId "someType"))) eq_refl).
Defined.

(** C1 as stated fails: in a new container, where "Ninja" has no bindings,
    [rebind] throws and creates no binding. *)
Lemma rebind_absent_fails :
  Lookup.hasKey (dictionary freshState) (StringId "Ninja") = false
  ∧ outcome (Container.rebind (StringId "Ninja")) freshState
    = Throw [Const CANNOT_UNBIND; Text " "; Text "Ninja"]
  ∧ Lookup.entries (dictionary (exec (Container.rebind (StringId "Ninja")) freshState))
      (StringId "Ninja") = [].
Proof. split_and!; reflexivity. Qed.

(** ** Triples over the state-and-exception monad *)

Lemma hoare_ret {A} (P : State → Prop) (a : A) Q E :
  (∀ s, P s → Q a s) → hoare P (ret a) Q E.
Proof. intros H s Hs. by apply H. Qed.

Lemma hoare_throw {A} (P : State → Prop) e (Q : A → State → Prop) (E : State → Prop) :
  (∀ s, P s → E s) → hoare P (throw e) Q E.
Proof. intros H s Hs. by apply H. Qed.

Lemma hoare_andThen {A B} P (m : M State A) (k : A → M State B) Q' Q E :
  hoare P m Q' E → (∀ a, hoare (Q' a) (k a) Q E) → hoare P (andThen m k) Q E.
Proof.
  intros Hm Hk s Hs. unfold andThen. specialize (Hm s Hs).
  destruct (m s) as [[a|e] s']; [by apply Hk|done].
Qed.

Lemma hoare_tryCatch {A} P (m : M State A) handler Q E E' :
  hoare P m Q E' → (∀ e, hoare E' (handler e) Q E) → hoare P (tryCatch m handler) Q E.
Proof.
  intros Hm Hh s Hs. unfold tryCatch. specialize (Hm s Hs).
  destruct (m s) as [[a|e] s']; [done|by apply Hh].
Qed.

Lemma hoare_gets {A} (P : State → Prop) (f : State → A) Q E :
  (∀ s, P s → Q (f s) s) → hoare P (gets f) Q E.
Proof. intros H s Hs. by apply H. Qed.

Lemma hoare_weaken {A} (P P' : State → Prop) (m : M State A)
    (Q Q' : A → State → Prop) (E E' : State → Prop) :
  hoare P' m Q' E' → (∀ s, P s → P' s) → (∀ a s, Q' a s → Q a s) → (∀ s, E' s → E s) →
  hoare P m Q E.
Proof.
  intros Hm HP HQ HE s Hs. specialize (Hm s (HP s Hs)).
  destruct (m s) as [[a|e] s']; auto.
Qed.

(** A method that first reads the state it starts from. *)
Lemma hoare_reading {A} (P : State → Prop) (f : State → M State A) Q E :
  (∀ s0, P s0 → hoare (λ s, s = s0) (f s0) Q E) → hoare P (λ s, f s s) Q E.
Proof. intros H s Hs. by apply (H s Hs s). Qed.

Lemma hoare_forEach {X} (I : State → Prop) (xs : list X) (body : X → M State unit) :
  (∀ x, hoare I (body x) (λ _, I) I) → hoare I (forEach xs body) (λ _, I) I.
Proof.
  intros Hbody. induction xs as [|x xs IH]; simpl.
  - by apply hoare_ret.
  - eapply hoare_andThen; [apply Hbody|]. intros a. exact IH.
Qed.

(** What holds after a call whatever its outcome. *)
Lemma hoare_exec {A} (P I : State → Prop) (m : M State A) s :
  hoare P m (λ _, I) I → P s → I (exec m s).
Proof.
  intros H Hs. specialize (H s Hs). unfold exec.
  by destruct (m s) as [[a|e] s'].
Qed.

(** ** Well-formed dictionaries *)

Lemma lookupValid_mono (n n' : nat) map : n ≤ n' → lookupValid n map → lookupValid n' map.
Proof.
  intros Hn Hmap. unfold lookupValid in *.
  eapply Forall_impl; [exact Hmap|]. intros e He. simpl in *.
  eapply Forall_impl; [exact He|]. intros r. simpl. lia.
Qed.

Lemma lookupValid_add n map k r :
  lookupValid n map → r < n → lookupValid n (Lookup.add map k r).
Proof.
  unfold lookupValid. intros Hmap Hr.
  induction map as [|[k' es] rest IH]; simpl.
  - repeat constructor. done.
  - inversion_clear Hmap as [|? ? Hes Hrest]. case_bool_decide.
    + constructor; [|done]. simpl in *. apply Forall_app. split; [done|by constructor].
    + constructor; [done|]. by apply IH.
Qed.

Lemma lookupValid_filter n map (f : ServiceIdentifier * list BindingRef → bool) :
  lookupValid n map → lookupValid n (List.filter f map).
Proof.
  unfold lookupValid. rewrite !Forall_forall. intros H e He.
  apply H. apply list_elem_of_In in He. apply list_elem_of_In.
  apply filter_In in He. tauto.
Qed.

Lemma lookupValid_removeByCondition n map condition :
  lookupValid n map → lookupValid n (Lookup.removeByCondition map condition).
Proof.
  unfold lookupValid. intros Hmap.
  induction map as [|[k es] rest IH]; simpl; [done|].
  inversion_clear Hmap as [|? ? Hes Hrest].
  destruct (0 <? _)%nat; [|by apply IH].
  constructor; [|by apply IH]. simpl in *.
  rewrite Forall_forall in Hes. rewrite Forall_forall. intros r Hr.
  apply Hes. apply list_elem_of_In in Hr. apply list_elem_of_In.
  apply filter_In in Hr. tauto.
Qed.

Lemma readLookup_valid σ l : storeWf σ → lookupValid (length (bindingObjects σ)) (readLookup σ l).
Proof.
  intros Hwf. unfold readLookup.
  destruct (lookups σ !! l) as [map|] eqn:E; simpl.
  - unfold storeWf in Hwf. rewrite Forall_lookup in Hwf. by eapply Hwf.
  - constructor.
Qed.

Lemma dictionary_valid s :
  stateWf s → lookupValid (length (bindingObjects (store s))) (dictionary s).
Proof. intros (_ & _ & _ & Hwf). by apply readLookup_valid. Qed.

(** ** What the mutations keep *)

Lemma evolved_refl s : stateWf s → evolved s s.
Proof. by constructor. Qed.

Lemma snapshot_not_live s sn :
  stateWf s → sn ∈ _snapshots (this s) →
  ContainerSnapshot.bindings sn ≠ _bindingDictionary (this s)
  ∧ ContainerSnapshot.bindings sn < length (lookups (store s)).
Proof.
  intros (_ & Hlt & Hnd & _) Hin. split.
  - apply NoDup_cons in Hnd as [Hnotin _]. intros Heq. apply Hnotin.
    rewrite <- Heq. apply list_elem_of_In, in_map, list_elem_of_In, Hin.
  - rewrite Forall_forall in Hlt. by apply Hlt.
Qed.

(** Assignment of a well-formed dictionary to the container's own. *)
Lemma evolved_write s0 s map :
  evolved s0 s →
  lookupValid (length (bindingObjects (store s))) map →
  evolved s0 (mkState (this s)
                (mkStore (<[_bindingDictionary (this s) := map]> (lookups (store s)))
                   (bindingObjects (store s)) (nextId (store s)))).
Proof.
  intros [Hsn Hb Hl Hwf] Hmap. constructor; simpl; try done.
  - intros sn Hin. rewrite <- Hl by done.
    apply list_lookup_insert_ne. rewrite <- Hsn in Hin.
    destruct (snapshot_not_live s sn Hwf Hin) as [Hne _]. congruence.
  - destruct Hwf as (H1 & H2 & H3 & H4). unfold stateWf. simpl.
    rewrite length_insert. split_and!; try done.
    unfold storeWf in *. simpl. by apply Forall_insert.
Qed.

(** Allocation of a binding object. *)
Lemma evolved_newBinding s0 s b :
  evolved s0 s →
  evolved s0 (mkState (this s)
                (mkStore (lookups (store s)) (bindingObjects (store s) ++ [b])
                   (nextId (store s)))).
Proof.
  intros [Hsn Hb Hl Hwf]. constructor; simpl; try done.
  - etrans; [exact Hb|]. by apply prefix_app_r.
  - destruct Hwf as (H1 & H2 & H3 & H4). unfold stateWf. simpl.
    split_and!; try done.
    unfold storeWf in *. simpl. eapply Forall_impl; [exact H4|]. intros map.
    apply lookupValid_mono. rewrite length_app. lia.
Qed.

(** Assignment to a binding object that [s0] does not have. *)
Lemma evolved_updateBinding s0 s r f :
  evolved s0 s → length (bindingObjects (store s0)) ≤ r →
  evolved s0 (mkState (this s)
                (mkStore (lookups (store s)) (alter f r (bindingObjects (store s)))
                   (nextId (store s)))).
Proof.
  intros [Hsn Hb Hl Hwf] Hr. constructor; simpl; try done.
  - destruct Hb as [k Hk]. rewrite Hk. rewrite alter_app_r_alt by done.
    by apply prefix_app_r.
  - destruct Hwf as (H1 & H2 & H3 & H4). unfold stateWf. simpl.
    split_and!; try done.
    unfold storeWf in *. simpl. by rewrite length_alter.
Qed.

(** A new, empty dictionary becomes the container's own. *)
Lemma evolved_newDictionary s0 s :
  evolved s0 s →
  evolved s0 (mkState (withBindingDictionary (this s) (length (lookups (store s))))
                (mkStore (lookups (store s) ++ [Lookup.empty])
                   (bindingObjects (store s)) (nextId (store s)))).
Proof.
  intros [Hsn Hb Hl Hwf]. constructor; simpl; try done.
  - intros sn Hin. rewrite <- Hl by done. apply lookup_app_l.
    rewrite <- Hsn in Hin. by destruct (snapshot_not_live s sn Hwf Hin).
  - destruct Hwf as (H1 & H2 & H3 & H4). unfold stateWf. simpl.
    rewrite length_app. simpl. split_and!.
    + lia.
    + eapply Forall_impl; [exact H2|]. intros sn. simpl. lia.
    + apply NoDup_cons in H3 as [_ H3]. apply NoDup_cons. split; [|done].
      intros Hin. apply list_elem_of_In, in_map_iff in Hin as (sn & Heq & Hin).
      rewrite Forall_forall in H2. apply list_elem_of_In in Hin.
      specialize (H2 sn Hin). lia.
    + unfold storeWf in *. simpl. apply Forall_app. split; [done|].
      repeat constructor.
Qed.

(** Assignment to [_middleware]. *)
Lemma evolved_middleware s0 s middleware :
  evolved s0 s → evolved s0 (mkState (withMiddleware (this s) middleware) (store s)).
Proof. intros [Hsn Hb Hl Hwf]. by constructor. Qed.

Lemma bind_evolved s0 k :
  hoare (evolved s0) (Container.bind k)
    (λ r s, evolved s0 s ∧ length (bindingObjects (store s0)) ≤ r)
    (evolved s0).
Proof.
  intros s Hs. rewrite bind_run. split.
  - apply (evolved_write s0
             (mkState (this s)
                (mkStore (lookups (store s))
                   (bindingObjects (store s)
                      ++ [Binding.new k (defaultScope (options (this s)))])
                   (nextId (store s))))).
    + by apply evolved_newBinding.
    + simpl. rewrite length_app. simpl. apply lookupValid_add; [|lia].
      eapply lookupValid_mono; [|apply dictionary_valid, Hs]. lia.
  - destruct Hs as [_ Hb _ _]. by apply prefix_length.
Qed.

Lemma unbind_evolved s0 k : keeps s0 (ContainerBase.unbind k).
Proof.
  intros s Hs. destruct (Lookup.hasKey (dictionary s) k) eqn:E.
  - rewrite unbind_present by done. apply evolved_write; [done|].
    apply lookupValid_filter, dictionary_valid, Hs.
  - by rewrite unbind_absent.
Qed.

Lemma rebind_evolved s0 k :
  hoare (evolved s0) (Container.rebind k)
    (λ r s, evolved s0 s ∧ length (bindingObjects (store s0)) ≤ r)
    (evolved s0).
Proof.
  unfold Container.rebind. eapply hoare_andThen; [apply unbind_evolved|].
  intros ?. apply bind_evolved.
Qed.

Lemma configure_evolved s0 r syntax :
  hoare (λ s, evolved s0 s ∧ length (bindingObjects (store s0)) ≤ r)
    (configure r syntax) (λ _, evolved s0) (evolved s0).
Proof.
  intros s [Hs Hr]. cbv [configure onStore updateBinding modify]. simpl.
  by apply evolved_updateBinding.
Qed.

Lemma setModuleId_evolved s0 r moduleId :
  hoare (λ s, evolved s0 s ∧ length (bindingObjects (store s0)) ≤ r)
    (Container.setModuleId r moduleId)
    (λ _ s, evolved s0 s ∧ length (bindingObjects (store s0)) ≤ r) (evolved s0).
Proof.
  intros s [Hs Hr]. cbv [Container.setModuleId onStore updateBinding modify]. simpl.
  split; [|done]. by apply evolved_updateBinding.
Qed.

Lemma unbindAll_evolved s0 : keeps s0 ContainerBase.unbindAll.
Proof. intros s Hs. cbv [ContainerBase.unbindAll andThen onStore newLookup gets setThis modify]. simpl. by apply evolved_newDictionary. Qed.

Lemma applyMiddleware_evolved s0 middlewares : keeps s0 (Container.applyMiddleware middlewares).
Proof. intros s Hs. cbv [Container.applyMiddleware andThen gets setThis modify]. simpl. by apply evolved_middleware. Qed.

Lemma removeByCondition_evolved s0 condition : keeps s0 (ContainerBase.removeByCondition condition).
Proof.
  intros s Hs. cbv [ContainerBase.removeByCondition onStore writeLookup modify]. simpl.
  apply evolved_write; [done|].
  apply lookupValid_removeByCondition, dictionary_valid, Hs.
Qed.

Lemma unload_evolved s0 modules : keeps s0 (ContainerBase.unload modules).
Proof.
  unfold ContainerBase.unload. apply hoare_forEach.
  intros m. apply removeByCondition_evolved.
Qed.

Lemma getBindFunction_evolved s0 mId k :
  hoare (evolved s0) (Container.getBindFunction mId k)
    (λ r s, evolved s0 s ∧ length (bindingObjects (store s0)) ≤ r)
    (evolved s0).
Proof.
  unfold Container.getBindFunction.
  eapply hoare_andThen; [apply bind_evolved|]. intros r. simpl.
  eapply hoare_andThen; [apply setModuleId_evolved|]. intros ?. simpl.
  by apply hoare_ret.
Qed.

Lemma getRebindFunction_evolved s0 mId k :
  hoare (evolved s0) (Container.getRebindFunction mId k)
    (λ r s, evolved s0 s ∧ length (bindingObjects (store s0)) ≤ r)
    (evolved s0).
Proof.
  unfold Container.getRebindFunction.
  eapply hoare_andThen; [apply rebind_evolved|]. intros r. simpl.
  eapply hoare_andThen; [apply setModuleId_evolved|]. intros ?. simpl.
  by apply hoare_ret.
Qed.

Lemma callRegistry_evolved s0 mId registry :
  keeps s0 (callRegistry (Container._getContainerModuleHelpersFactory mId) registry).
Proof.
  induction registry as [|k syntax next IH|k next IH|k next IH|k syntax next IH]; simpl.
  - by apply hoare_ret.
  - eapply hoare_andThen; [apply getBindFunction_evolved|]. intros r. simpl.
    eapply hoare_andThen; [apply configure_evolved|]. intros ?. exact IH.
  - eapply hoare_andThen; [apply unbind_evolved|]. intros ?. exact IH.
  - apply (hoare_andThen _ _ _ (λ _, evolved s0)); [by apply hoare_gets|].
    intros b. apply IH.
  - eapply hoare_andThen; [apply getRebindFunction_evolved|]. intros r. simpl.
    eapply hoare_andThen; [apply configure_evolved|]. intros ?. exact IH.
Qed.

Lemma load_evolved s0 modules : keeps s0 (Container.load modules).
Proof.
  unfold Container.load, ContainerBase.load. apply hoare_forEach.
  intros m. apply callRegistry_evolved.
Qed.

Lemma mutate_evolved s0 m : keeps s0 (mutate m).
Proof.
  destruct m; simpl.
  - eapply hoare_andThen; [apply bind_evolved|]. intros r. apply configure_evolved.
  - eapply hoare_andThen; [apply rebind_evolved|]. intros r. apply configure_evolved.
  - apply unbind_evolved.
  - apply unbindAll_evolved.
  - apply load_evolved.
  - apply unload_evolved.
  - apply applyMiddleware_evolved.
Qed.

Lemma mutateAll_evolved s0 ms s : evolved s0 s → evolved s0 (mutateAll ms s).
Proof.
  revert s. induction ms as [|m ms IH]; intros s Hs; simpl; [done|].
  apply IH. eapply hoare_exec; [apply mutate_evolved|done].
Qed.

(** ** snapshot and restore *)

Lemma pop_snoc {A} (l : list A) x : pop (l ++ [x]) = Some (x, l).
Proof. induction l as [|y l IH]; simpl; [done|]. by rewrite IH. Qed.

Lemma pop_nil_inv {A} (l : list A) : pop l = None → l = [].
Proof.
  destruct l as [|y l]; simpl; [done|].
  by destruct (pop l) as [[? ?]|].
Qed.

Lemma pop_Some_inv {A} (l rest : list A) x : pop l = Some (x, rest) → l = rest ++ [x].
Proof.
  revert rest. induction l as [|y l IH]; intros rest; simpl; [done|].
  destruct (pop l) as [[z rest']|] eqn:E.
  - intros [= <- <-]. simpl. f_equal. by apply IH.
  - intros [= <- <-]. apply pop_nil_inv in E. by subst l.
Qed.

Lemma clone_same b : Binding.clone b = b.
Proof. by destruct b. Qed.

Lemma omap_cons_Some {A B} (f : A → option B) x l y :
  f x = Some y → omap f (x :: l) = y :: omap f l.
Proof. intros H. simpl. by rewrite H. Qed.

Lemma deref_prefix σ σ' refs :
  bindingObjects σ `prefix_of` bindingObjects σ' →
  Forall (λ r, r < length (bindingObjects σ)) refs →
  deref σ' refs = deref σ refs.
Proof.
  intros [k Hk] Hrefs. unfold deref. induction Hrefs as [|r refs Hr _ IH]; [done|].
  destruct (lookup_lt_is_Some_2 _ _ Hr) as [b Hb].
  rewrite (omap_cons_Some _ r refs b) by (rewrite Hk; by rewrite lookup_app_l).
  rewrite (omap_cons_Some _ r refs b) by done.
  by rewrite IH.
Qed.

Lemma contentsOf_prefix σ σ' map :
  bindingObjects σ `prefix_of` bindingObjects σ' →
  lookupValid (length (bindingObjects σ)) map →
  contentsOf σ' map = contentsOf σ map.
Proof.
  intros Hp Hmap. unfold contentsOf. induction Hmap as [|e map He _ IH]; simpl; [done|].
  rewrite IH. f_equal. f_equal. by apply deref_prefix.
Qed.

Lemma cloneBindings_run refs σ :
  Forall (λ r, r < length (bindingObjects σ)) refs →
  ∃ copies news,
    cloneBindings refs σ
    = (Ok copies, mkStore (lookups σ) (bindingObjects σ ++ news) (nextId σ))
    ∧ Forall (λ r, r < length (bindingObjects σ ++ news)) copies
    ∧ omap (λ r, (bindingObjects σ ++ news) !! r) copies = deref σ refs.
Proof.
  intros Hrefs. revert σ Hrefs.
  induction refs as [|r refs IH]; intros σ Hrefs; simpl.
  - exists [], []. rewrite app_nil_r. by rewrite store_eta.
  - inversion_clear Hrefs as [|? ? Hr Hrest].
    destruct (lookup_lt_is_Some_2 _ _ Hr) as [b Hb]. rewrite Hb.
    unfold andThen, newBinding. simpl.
    set (σ1 := mkStore (lookups σ) (bindingObjects σ ++ [Binding.clone b]) (nextId σ)).
    destruct (IH σ1) as (copies & news & Hrun & Hvalid & Hderef).
    { simpl. eapply Forall_impl; [exact Hrest|]. intros x. simpl.
      rewrite length_app. simpl. lia. }
    rewrite Hrun. subst σ1. simpl in Hrun, Hvalid, Hderef. rewrite clone_same in *.
    exists (length (bindingObjects σ) :: copies), ([b] ++ news).
    rewrite !app_assoc. split; [done|]. split.
    + constructor; [|done]. rewrite !length_app. simpl. lia.
    + unfold deref.
      rewrite (omap_cons_Some _ _ copies b).
      2:{ rewrite <- app_assoc. by apply list_lookup_middle. }
      f_equal. rewrite Hderef.
      apply (deref_prefix σ (mkStore (lookups σ) (bindingObjects σ ++ [b]) (nextId σ)));
        [by apply prefix_app_r|done].
Qed.

Lemma cloneEntries_run map σ :
  lookupValid (length (bindingObjects σ)) map →
  ∃ copy news,
    cloneEntries map σ
    = (Ok copy, mkStore (lookups σ) (bindingObjects σ ++ news) (nextId σ))
    ∧ lookupValid (length (bindingObjects σ ++ news)) copy
    ∧ contentsOf (mkStore (lookups σ) (bindingObjects σ ++ news) (nextId σ)) copy
      = contentsOf σ map.
Proof.
  intros Hmap. revert σ Hmap.
  induction map as [|[k refs] map IH]; intros σ Hmap; simpl.
  - exists [], []. rewrite app_nil_r. rewrite store_eta. by repeat split.
  - inversion_clear Hmap as [|? ? Hrefs Hrest]. simpl in Hrefs.
    destruct (cloneBindings_run refs σ Hrefs) as (copies & news1 & Hrun1 & Hvalid1 & Hderef1).
    unfold andThen. rewrite Hrun1.
    set (σ1 := mkStore (lookups σ) (bindingObjects σ ++ news1) (nextId σ)).
    destruct (IH σ1) as (copy & news2 & Hrun2 & Hvalid2 & Hcontents2).
    { simpl. eapply lookupValid_mono; [|exact Hrest]. rewrite length_app. lia. }
    rewrite Hrun2. simpl in *.
    exists ((k, copies) :: copy), (news1 ++ news2).
    rewrite !app_assoc. split; [done|]. split.
    + constructor; [|done]. simpl.
      eapply Forall_impl; [exact Hvalid1|]. intros x. simpl.
      rewrite !length_app. lia.
    + simpl. rewrite Hcontents2. f_equal.
      * f_equal. etrans; [|exact Hderef1].
        apply (deref_prefix σ1
                 (mkStore (lookups σ) ((bindingObjects σ ++ news1) ++ news2) (nextId σ)));
          [by apply prefix_app_r|done].
      * apply (contentsOf_prefix σ σ1); [by apply prefix_app_r|done].
Qed.

Lemma snapshot_run s :
  stateWf s →
  ∃ copy news,
    Container.snapshot s
    = (Ok tt,
       mkState
         (withSnapshots (this s)
            (_snapshots (this s)
               ++ [ContainerSnapshot.of_ (length (lookups (store s))) (_middleware (this s))]))
         (mkStore (lookups (store s) ++ [copy]) (bindingObjects (store s) ++ news)
            (nextId (store s))))
    ∧ lookupValid (length (bindingObjects (store s) ++ news)) copy
    ∧ contentsOf (mkStore (lookups (store s) ++ [copy]) (bindingObjects (store s) ++ news)
                    (nextId (store s))) copy
      = contents s.
Proof.
  intros Hwf.
  destruct (cloneEntries_run (dictionary s) (store s) (dictionary_valid s Hwf))
    as (copy & news & Hrun & Hvalid & Hcontents).
  exists copy, news. split; [|split; [done|exact Hcontents]].
  cbv [Container.snapshot andThen gets onStore cloneLookup newLookup setThis modify].
  simpl. unfold dictionary in Hrun. unfold andThen. rewrite Hrun. done.
Qed.

Lemma snapshot_wf s : stateWf s → stateWf (exec Container.snapshot s).
Proof.
  intros Hwf. destruct (snapshot_run s Hwf) as (copy & news & Hrun & Hvalid & _).
  unfold exec. rewrite Hrun. simpl.
  destruct Hwf as (H1 & H2 & H3 & H4). unfold stateWf. simpl.
  rewrite length_app. simpl. split_and!.
  - lia.
  - apply Forall_app. split.
    + eapply Forall_impl; [exact H2|]. intros sn. simpl. lia.
    + constructor; [simpl; lia|constructor].
  - rewrite map_app. simpl. apply NoDup_cons in H3 as [H3a H3b].
    apply NoDup_cons. split.
    + rewrite elem_of_app. intros [Hin|Hin]; [done|].
      apply list_elem_of_singleton in Hin. lia.
    + apply NoDup_app. split_and!; [done| |apply NoDup_singleton].
      intros x Hx Hx'. apply list_elem_of_singleton in Hx'. subst x.
      apply list_elem_of_In, in_map_iff in Hx as (sn & Heq & Hin).
      rewrite Forall_forall in H2. apply list_elem_of_In in Hin.
      specialize (H2 sn Hin). lia.
  - unfold storeWf in *. simpl. apply Forall_app. split.
    + eapply Forall_impl; [exact H4|]. intros map. apply lookupValid_mono.
      rewrite length_app. lia.
    + by constructor.
Qed.

Lemma restore_empty s :
  _snapshots (this s) = [] →
  Container.restore s = (Throw [Const NO_MORE_SNAPSHOTS_AVAILABLE], s).
Proof.
  intros H. cbv [Container.restore andThen gets]. rewrite H. done.
Qed.

Lemma restore_run s sn rest :
  _snapshots (this s) = rest ++ [sn] →
  Container.restore s
  = (Ok tt,
     mkState (mkContainer (id (this s)) (options (this s)) (ContainerSnapshot.middleware sn)
                (ContainerSnapshot.bindings sn) rest (parent (this s)))
       (store s)).
Proof.
  intros H. cbv [Container.restore andThen gets]. rewrite H, pop_snoc. done.
Qed.

Lemma restore_wf s : stateWf s → stateWf (exec Container.restore s).
Proof.
  intros Hwf. unfold exec.
  destruct (pop (_snapshots (this s))) as [[sn rest]|] eqn:E.
  - apply pop_Some_inv in E. rewrite (restore_run s sn rest E). simpl.
    destruct Hwf as (H1 & H2 & H3 & H4). unfold stateWf. simpl.
    rewrite E in H2, H3. apply Forall_app in H2 as [H2a H2b].
    inversion_clear H2b as [|? ? Hsn _].
    split_and!; try done.
    apply NoDup_cons in H3 as [_ H3]. rewrite map_app in H3. simpl in H3.
    apply NoDup_app in H3 as (H3a & H3b & _).
    apply NoDup_cons. split; [|done].
    intros Hin. apply (H3b _ Hin). by apply list_elem_of_singleton.
  - apply pop_nil_inv in E. by rewrite restore_empty.
Qed.

Lemma mutate_wf m s : stateWf s → stateWf (exec (mutate m) s).
Proof.
  intros Hwf. apply (ev_wf s).
  eapply hoare_exec; [apply mutate_evolved|by apply evolved_refl].
Qed.

(** A new container is well formed, in an empty store and next to whatever a
    well-formed store already holds. *)
Lemma constructor_wf containerOptions σ c σ' :
  storeWf σ → Container.constructor containerOptions σ = (Ok c, σ') →
  stateWf (mkState c σ').
Proof.
  intros Hwf. unfold Container.constructor, ContainerBase.constructor.
  destruct (negb _); [done|].
  cbv [andThen ret throw id_ newLookup].
  repeat (match goal with
          | |- context [if ?b then _ else _] => destruct b
          end; try done); simpl;
  intros [= <- <-]; unfold stateWf; simpl; rewrite length_app; simpl;
  (split_and!;
   [lia|constructor|apply NoDup_singleton|
    unfold storeWf; simpl; apply Forall_app; split; [done|repeat constructor]]).
Qed.

(** Every state a new container can get to is well formed. *)
Lemma stepAll_wf steps s : stateWf s → stateWf (stepAll steps s).
Proof.
  revert s. induction steps as [|st steps IH]; intros s Hwf; simpl; [done|].
  apply IH. destruct st; simpl.
  - by apply mutate_wf.
  - by apply snapshot_wf.
  - by apply restore_wf.
Qed.

Lemma freshState_wf : stateWf freshState.
Proof.
  apply (constructor_wf JsUndefined emptyStore (this freshState) (store freshState)).
  - constructor.
  - reflexivity.
Qed.

(** C2.  In a well-formed state, [snapshot()], then any mutations ([bind]
    and [rebind] with their fluent calls, [unbind], [unbindAll], [load],
    [unload], [applyMiddleware], each returning or throwing), then
    [restore()]: both calls return, and the dictionary holds what it held at
    the snapshot (the same keys in the same order, each with the same
    bindings in the same order), [_middleware] is the reference it was, and the
    snapshot stack is the one it was.  The methods of [Container] are those
    of [ContainerBase]. *)
Theorem snapshot_mutate_restore (s : State) (ms : list Mutation) :
  stateWf s →
  let s1 := exec Container.snapshot s in
  let s2 := mutateAll ms s1 in
  let s3 := exec Container.restore s2 in
  outcome Container.snapshot s = Ok tt
  ∧ outcome Container.restore s2 = Ok tt
  ∧ contents s3 = contents s
  ∧ _middleware (this s3) = _middleware (this s)
  ∧ _snapshots (this s3) = _snapshots (this s)
  ∧ stateWf s3
  ∧ Container.snapshot = ContainerBase.snapshot
  ∧ Container.restore = ContainerBase.restore.
Proof.
  intros Hwf s1 s2 s3.
  destruct (snapshot_run s Hwf) as (copy & news & Hrun & Hvalid & Hcontents).
  pose proof (snapshot_wf s Hwf) as Hwf1. fold s1 in Hwf1.
  assert (Hs1 : s1 = (Container.snapshot s).2) by done.
  rewrite Hrun in Hs1. simpl in Hs1.
  pose proof (mutateAll_evolved s1 ms s1 (evolved_refl s1 Hwf1)) as [Hsn Hb Hl Hwf2].
  fold s2 in Hsn, Hb, Hl, Hwf2.
  set (sn := ContainerSnapshot.of_ (length (lookups (store s))) (_middleware (this s))).
  assert (Hstack : _snapshots (this s2) = _snapshots (this s) ++ [sn]).
  { rewrite Hsn, Hs1. done. }
  pose proof (restore_run s2 sn _ Hstack) as Hrestore.
  assert (Hs3 : s3 = (Container.restore s2).2) by done.
  rewrite Hrestore in Hs3. simpl in Hs3.
  split; [unfold outcome; by rewrite Hrun|].
  split; [unfold outcome; by rewrite Hrestore|].
  split; [|split; [by rewrite Hs3|split; [by rewrite Hs3|split; [|done]]]].
  - assert (Hcopy : lookups (store s2) !! length (lookups (store s)) = Some copy).
    { transitivity (lookups (store s1) !! ContainerSnapshot.bindings sn).
      - apply (Hl sn). rewrite Hs1. simpl. apply elem_of_app. right.
        by apply list_elem_of_singleton.
      - rewrite Hs1. simpl. by apply list_lookup_middle. }
    rewrite <- Hcontents.
    transitivity (contentsOf (store s2) copy).
    + rewrite Hs3. unfold contents, dictionary, readLookup. simpl. by rewrite Hcopy.
    + rewrite (contentsOf_prefix (store s1) (store s2)).
      * by rewrite Hs1.
      * exact Hb.
      * rewrite Hs1. simpl. exact Hvalid.
  - pose proof (restore_wf s2 Hwf2) as Hwf3. exact Hwf3.
Qed.

(** The snapshot test of the container: two bindings, [snapshot()], then
    [unbind], [bind], [unbindAll] and a middleware, then [restore()]. *)
Lemma snapshot_mutate_restore_witness :
  let s := exec (Container.bind (StringId "Samurai"))
             (exec (Container.bind (StringId "Ninja")) freshState) in
  let ms := [doUnbind (StringId "Ninja");
             doBind (StringId "Katana") [toConstantValue (JsNumber 1)];
             doUnbindAll;
             doApplyMiddleware [λ next, next]] in
  let s3 := exec Container.restore (mutateAll ms (exec Container.snapshot s)) in
  contents s3 = contents s ∧ _middleware (this s3) = _middleware (this s).
Proof.
  intros s ms s3.
  assert (Hwf : stateWf s) by (apply (@bool_decide_unpack _ (stateWf_dec s)); vm_compute; exact I).
  destruct (snapshot_mutate_restore s ms Hwf) as (_ & _ & Hc & Hm & _).
  split; assumption.
Defined.

(** ** The snapshot stack under mutations *)

Lemma onStore_keepsStack {A} stack (m : M Store A) : keepsStack stack (onStore m).
Proof.
  intros s Hs. unfold onStore. by destruct (m (store s)) as [[a|e] σ].
Qed.

Lemma bind_keepsStack stack k : keepsStack stack (Container.bind k).
Proof. intros s Hs. by rewrite bind_run. Qed.

Lemma unbind_keepsStack stack k : keepsStack stack (ContainerBase.unbind k).
Proof.
  intros s Hs. destruct (Lookup.hasKey (dictionary s) k) eqn:E.
  - by rewrite unbind_present.
  - by rewrite unbind_absent.
Qed.

Lemma rebind_keepsStack stack k : keepsStack stack (Container.rebind k).
Proof.
  unfold Container.rebind. eapply hoare_andThen; [apply unbind_keepsStack|].
  intros ?. apply bind_keepsStack.
Qed.

Lemma getBindFunction_keepsStack stack mId k :
  keepsStack stack (Container.getBindFunction mId k).
Proof.
  unfold Container.getBindFunction.
  eapply hoare_andThen; [apply bind_keepsStack|]. intros r.
  eapply hoare_andThen; [apply onStore_keepsStack|]. intros ?. by apply hoare_ret.
Qed.

Lemma getRebindFunction_keepsStack stack mId k :
  keepsStack stack (Container.getRebindFunction mId k).
Proof.
  unfold Container.getRebindFunction.
  eapply hoare_andThen; [apply rebind_keepsStack|]. intros r.
  eapply hoare_andThen; [apply onStore_keepsStack|]. intros ?. by apply hoare_ret.
Qed.

Lemma callRegistry_keepsStack stack mId registry :
  keepsStack stack (callRegistry (Container._getContainerModuleHelpersFactory mId) registry).
Proof.
  induction registry as [|k syntax next IH|k next IH|k next IH|k syntax next IH]; simpl.
  - by apply hoare_ret.
  - eapply hoare_andThen; [apply getBindFunction_keepsStack|].
    intros r. eapply hoare_andThen; [apply onStore_keepsStack|]. intros ?. exact IH.
  - eapply hoare_andThen; [apply unbind_keepsStack|]. intros ?. exact IH.
  - apply (hoare_andThen _ _ _ (λ _, stackIs stack)); [by apply hoare_gets|].
    intros b. apply IH.
  - eapply hoare_andThen; [apply getRebindFunction_keepsStack|].
    intros r. eapply hoare_andThen; [apply onStore_keepsStack|]. intros ?. exact IH.
Qed.

Lemma mutate_keepsStack stack m : keepsStack stack (mutate m).
Proof.
  destruct m; simpl.
  - eapply hoare_andThen; [apply bind_keepsStack|]. intros r. apply onStore_keepsStack.
  - eapply hoare_andThen; [apply rebind_keepsStack|]. intros r. apply onStore_keepsStack.
  - apply unbind_keepsStack.
  - by intros s Hs.
  - unfold Container.load, ContainerBase.load. apply hoare_forEach.
    intros m. apply callRegistry_keepsStack.
  - unfold Container.unload, ContainerBase.unload. apply hoare_forEach.
    intros m s Hs. done.
  - by intros s Hs.
Qed.

Lemma mutate_snapshots m s : _snapshots (this (exec (mutate m) s)) = _snapshots (this s).
Proof.
  apply (hoare_exec (stackIs (_snapshots (this s))) (stackIs (_snapshots (this s)))).
  - apply mutate_keepsStack.
  - done.
Qed.

Lemma cloneBindings_returns refs σ : ∃ copies σ', cloneBindings refs σ = (Ok copies, σ').
Proof.
  revert σ. induction refs as [|r refs IH]; intros σ; simpl; [by eexists _, _|].
  destruct (bindingObjects σ !! r) as [b|]; [|apply IH].
  unfold andThen, newBinding. simpl.
  destruct (IH (mkStore (lookups σ) (bindingObjects σ ++ [Binding.clone b]) (nextId σ)))
    as (copies & σ' & ->).
  by eexists _, _.
Qed.

Lemma cloneEntries_returns map σ : ∃ copy σ', cloneEntries map σ = (Ok copy, σ').
Proof.
  revert σ. induction map as [|[k refs] map IH]; intros σ; simpl; [by eexists _, _|].
  unfold andThen. destruct (cloneBindings_returns refs σ) as (copies & σ1 & ->).
  destruct (IH σ1) as (copy & σ2 & ->). by eexists _, _.
Qed.

(** [snapshot()] always returns, with one more snapshot on the stack. *)
Lemma snapshot_pushes s :
  ∃ sn σ, Container.snapshot s
          = (Ok tt, mkState (withSnapshots (this s) (_snapshots (this s) ++ [sn])) σ).
Proof.
  cbv [Container.snapshot andThen gets onStore cloneLookup newLookup setThis modify].
  simpl. destruct (cloneEntries_returns (readLookup (store s) (_bindingDictionary (this s)))
                     (store s)) as (copy & σ & ->).
  simpl. by eexists _, _.
Qed.

Lemma step_depth st s :
  length (_snapshots (this (exec (step st) s)))
  = match st with
    | stepMutation _ => length (_snapshots (this s))
    | stepSnapshot => S (length (_snapshots (this s)))
    | stepRestore => pred (length (_snapshots (this s)))
    end.
Proof.
  destruct st as [m| |]; simpl.
  - by rewrite mutate_snapshots.
  - unfold exec. destruct (snapshot_pushes s) as (sn & σ & ->). simpl.
    rewrite length_app. simpl. lia.
  - unfold exec. destruct (pop (_snapshots (this s))) as [[sn rest]|] eqn:E.
    + apply pop_Some_inv in E. rewrite (restore_run s sn rest E). simpl.
      rewrite E, length_app. simpl. lia.
    + apply pop_nil_inv in E. rewrite restore_empty by done. simpl. by rewrite E.
Qed.

Lemma stepAll_depth steps s d :
  length (_snapshots (this s)) = d →
  length (_snapshots (this (stepAll steps s)))
  = fold_left (λ d st, match st with
                       | stepMutation _ => d
                       | stepSnapshot => S d
                       | stepRestore => pred d
                       end) steps d.
Proof.
  revert s d. induction steps as [|st steps IH]; intros s d Hd; simpl; [done|].
  apply IH. rewrite step_depth. by destruct st; rewrite Hd.
Qed.

(** C3.  In a container without snapshots, [restore()] throws
    NO_MORE_SNAPSHOTS_AVAILABLE and leaves the container and the store, so
    the dictionary and [_middleware], as they were.  After any use of such a
    container the stack holds the snapshots taken and not yet restored, so a
    [restore()] beyond them fails in this way, and one within them returns. *)
Theorem restore_beyond_snapshots (s : State) (steps : list Step) :
  _snapshots (this s) = [] →
  let s' := stepAll steps s in
  Container.restore s = (Throw [Const NO_MORE_SNAPSHOTS_AVAILABLE], s)
  ∧ ContainerBase.restore s = (Throw [Const NO_MORE_SNAPSHOTS_AVAILABLE], s)
  ∧ length (_snapshots (this s')) = depth steps
  ∧ (depth steps = 0 →
       Container.restore s' = (Throw [Const NO_MORE_SNAPSHOTS_AVAILABLE], s')
       ∧ contents (exec Container.restore s') = contents s'
       ∧ _middleware (this (exec Container.restore s')) = _middleware (this s'))
  ∧ (0 < depth steps → outcome Container.restore s' = Ok tt).
Proof.
  intros Hempty s'.
  assert (Hdepth : length (_snapshots (this s')) = depth steps).
  { apply stepAll_depth. by rewrite Hempty. }
  split; [by apply restore_empty|]. split; [by apply restore_empty|].
  split; [done|]. split.
  - intros Hzero. rewrite Hzero in Hdepth. apply length_zero_iff_nil in Hdepth.
    unfold exec. by rewrite (restore_empty s' Hdepth).
  - intros Hpos. rewrite <- Hdepth in Hpos.
    destruct (pop (_snapshots (this s'))) as [[sn rest]|] eqn:E.
    + apply pop_Some_inv in E. unfold outcome. by rewrite (restore_run s' sn rest E).
    + apply pop_nil_inv in E. rewrite E in Hpos. simpl in Hpos. lia.
Qed.

(** The end of the snapshot test: two snapshots, two restores, and the
    third [restore()] throws. *)
Lemma restore_beyond_snapshots_witness :
  let steps := [stepMutation (doBind (StringId "Ninja") []);
                stepSnapshot;
                stepMutation (doUnbind (StringId "Ninja"));
                stepSnapshot;
                stepRestore;
                stepRestore] in
  let s' := stepAll steps freshState in
  Container.restore s' = (Throw [Const NO_MORE_SNAPSHOTS_AVAILABLE], s')
  ∧ contents (exec Container.restore s') = contents s'.
Proof.
  intros steps s'.
  destruct (restore_beyond_snapshots freshState steps eq_refl) as (_ & _ & _ & Hfail & _).
  destruct (Hfail eq_refl) as (Hrun & Hcontents & _).
  split; assumption.
Defined.

(** ** unload *)

Lemma filter_map_pair {A B} (k : A) (f : B → bool) (l : list B) :
  List.filter (λ kr : A * B, f kr.2) (List.map (pair k) l)
  = List.map (pair k) (List.filter f l).
Proof.
  induction l as [|x l IH]; simpl; [done|].
  destruct (f x); simpl; by rewrite IH.
Qed.

Lemma pairs_removeByCondition map condition :
  pairs (Lookup.removeByCondition map condition)
  = List.filter (λ kr, negb (condition kr.2)) (pairs map).
Proof.
  unfold pairs. induction map as [|[k es] rest IH]; simpl; [done|].
  rewrite List.filter_app, <- IH. rewrite (filter_map_pair k (λ r, negb (condition r))).
  destruct (List.filter (λ entry, negb (condition entry)) es) as [|r rs] eqn:E; simpl; done.
Qed.

Lemma removeByCondition_entries map condition :
  Lookup.removeByCondition map condition
  = List.filter (λ e, 0 <? length e.2)
      (List.map (λ e, (e.1, List.filter (λ r, negb (condition r)) e.2)) map).
Proof.
  induction map as [|[k es] rest IH]; simpl; [done|].
  destruct (0 <? _); simpl; by rewrite IH.
Qed.

Lemma dictionary_write_any c lk b n map :
  dictionary (mkState c (mkStore (<[_bindingDictionary c := map]> lk) b n))
  = if decide (_bindingDictionary c < length lk) then map else [].
Proof.
  unfold dictionary, readLookup. simpl. case_decide.
  - by rewrite list_lookup_insert_eq.
  - rewrite list_insert_ge by lia. by rewrite lookup_ge_None_2 by lia.
Qed.

Lemma dictionary_dangling s :
  ¬ _bindingDictionary (this s) < length (lookups (store s)) → dictionary s = [].
Proof.
  intros H. unfold dictionary, readLookup. by rewrite lookup_ge_None_2 by lia.
Qed.

Lemma unload_run s m :
  Container.unload [m] s
  = (Ok tt,
     mkState (this s)
       (mkStore
          (<[_bindingDictionary (this s) :=
               Lookup.removeByCondition (dictionary s)
                 (ownedBy (store s) (ContainerModule.id m))]> (lookups (store s)))
          (bindingObjects (store s)) (nextId (store s)))).
Proof. done. Qed.

Lemma unload_dictionary s m :
  dictionary (exec (Container.unload [m]) s)
  = Lookup.removeByCondition (dictionary s) (ownedBy (store s) (ContainerModule.id m)).
Proof.
  unfold exec. rewrite unload_run. simpl. rewrite dictionary_write_any.
  case_decide as Hv; [done|]. by rewrite (dictionary_dangling s Hv).
Qed.

Lemma getBindFunction_run s mId k :
  let r := length (bindingObjects (store s)) in
  ∃ s', Container.getBindFunction mId k s = (Ok r, s')
        ∧ this s' = this s
        ∧ bindingObjects (store s')
          = bindingObjects (store s)
            ++ [Binding.make k (defaultScope (options (this s))) None None (λ _, true)
                  (Some mId)].
Proof.
  intros r. eexists. split; [reflexivity|]. simpl. split; [done|].
  rewrite alter_app_r_alt by done. by rewrite Nat.sub_diag.
Qed.

(** ** What a module's registry leaves in the store *)

Lemma fluent_moduleId f b : Binding.moduleId (fluent f b) = Binding.moduleId b.
Proof. by destruct b, f. Qed.

Lemma fluent_all_moduleId syntax b :
  Binding.moduleId (fold_left (λ b f, fluent f b) syntax b) = Binding.moduleId b.
Proof.
  revert b. induction syntax as [|f syntax IH]; intros b; simpl; [done|].
  by rewrite IH, fluent_moduleId.
Qed.

Lemma stamped_refl s mId : stamped s mId s.
Proof. exists []. by rewrite app_nil_r. Qed.

Lemma stamped_same_bindings s0 mId s s' :
  stamped s0 mId s → bindingObjects (store s') = bindingObjects (store s) →
  stamped s0 mId s'.
Proof. intros (news & Hb & Hall) Heq. exists news. by rewrite Heq. Qed.

Lemma stamped_new s0 mId s s' b :
  stamped s0 mId s → Binding.moduleId b = Some mId →
  bindingObjects (store s') = bindingObjects (store s) ++ [b] →
  stamped s0 mId s'.
Proof.
  intros (news & Hb & Hall) Hid Heq. exists (news ++ [b]).
  rewrite Heq, Hb, app_assoc. split; [done|].
  apply Forall_app. split; [done|]. by constructor.
Qed.

Lemma unbind_stamped s0 mId k :
  hoare (stamped s0 mId) (ContainerBase.unbind k) (λ _, stamped s0 mId) (stamped s0 mId).
Proof.
  intros s Hs. destruct (Lookup.hasKey (dictionary s) k) eqn:E.
  - rewrite unbind_present by done. by apply (stamped_same_bindings s0 mId s).
  - by rewrite unbind_absent.
Qed.

Lemma getBindFunction_stamped s0 mId k :
  hoare (stamped s0 mId) (Container.getBindFunction mId k)
    (λ r s, stamped s0 mId s ∧ length (bindingObjects (store s0)) ≤ r)
    (stamped s0 mId).
Proof.
  intros s Hs. destruct (getBindFunction_run s mId k) as (s' & -> & _ & Hb).
  split.
  - eapply (stamped_new s0 mId s s'); [done| |exact Hb]. done.
  - destruct Hs as (news & -> & _). rewrite length_app. lia.
Qed.

Lemma getRebindFunction_stamped s0 mId k :
  hoare (stamped s0 mId) (Container.getRebindFunction mId k)
    (λ r s, stamped s0 mId s ∧ length (bindingObjects (store s0)) ≤ r)
    (stamped s0 mId).
Proof.
  intros s Hs. unfold Container.getRebindFunction, andThen.
  destruct (Lookup.hasKey (dictionary s) k) eqn:E.
  - rewrite rebind_present by done.
    cbv [Container.setModuleId onStore updateBinding modify ret]. simpl. split.
    + eapply (stamped_new s0 mId s); [done| |].
      2:{ simpl. rewrite alter_app_r_alt by done. rewrite Nat.sub_diag. reflexivity. }
      done.
    + destruct Hs as (news & -> & _). rewrite length_app. lia.
  - unfold Container.rebind, andThen. by rewrite unbind_absent.
Qed.

Lemma configure_stamped s0 mId r syntax :
  hoare (λ s, stamped s0 mId s ∧ length (bindingObjects (store s0)) ≤ r)
    (configure r syntax) (λ _, stamped s0 mId) (stamped s0 mId).
Proof.
  intros s [(news & Hb & Hall) Hr].
  cbv [configure onStore updateBinding modify]. simpl.
  exists (alter (λ b, fold_left (λ b f, fluent f b) syntax b)
            (r - length (bindingObjects (store s0))) news).
  rewrite Hb, alter_app_r_alt by done. split; [done|].
  rewrite Forall_lookup in Hall. apply Forall_lookup. intros i b.
  rewrite list_lookup_alter. case_decide.
  - subst i. destruct (news !! _) as [b0|] eqn:E; simpl; [|done].
    intros [= <-]. rewrite fluent_all_moduleId. by eapply Hall.
  - apply Hall.
Qed.

Lemma callRegistry_stamped s0 mId registry :
  hoare (stamped s0 mId)
    (callRegistry (Container._getContainerModuleHelpersFactory mId) registry)
    (λ _, stamped s0 mId) (stamped s0 mId).
Proof.
  induction registry as [|k syntax next IH|k next IH|k next IH|k syntax next IH]; simpl.
  - by apply hoare_ret.
  - eapply hoare_andThen; [apply getBindFunction_stamped|]. intros r. simpl.
    eapply hoare_andThen; [apply configure_stamped|]. intros ?. exact IH.
  - eapply hoare_andThen; [apply unbind_stamped|]. intros ?. exact IH.
  - apply (hoare_andThen _ _ _ (λ _, stamped s0 mId)); [by apply hoare_gets|].
    intros b. apply IH.
  - eapply hoare_andThen; [apply getRebindFunction_stamped|]. intros r. simpl.
    eapply hoare_andThen; [apply configure_stamped|]. intros ?. exact IH.
Qed.

(** Whatever the registry of a module does with its helpers, the binding
    objects of the store stay as they are and every new one carries the id
    of the module. *)
Lemma load_stamps s m :
  stamped s (ContainerModule.id m) (exec (Container.load [m]) s).
Proof.
  eapply hoare_exec; [|apply stamped_refl].
  unfold Container.load, ContainerBase.load. simpl.
  eapply hoare_andThen; [apply callRegistry_stamped|]. intros ?. by apply hoare_ret.
Qed.

(** C5.  [unload(m)] returns and takes out of the dictionary the bindings
    whose [moduleId] is [m.id], under every identifier, and nothing else:
    the binding objects are untouched, and the bindings of other modules and
    of no module stay under their keys in their order; a key is dropped when
    none of its bindings stays.  The bindings a module registers through
    its [bind] helper are new objects stamped with its id, a binding made
    by the container's own [bind] has none, and whatever the registry of [m]
    does when [m] is loaded, the binding objects it leaves in the store are
    new and carry the id of [m]. *)
Theorem unload_removes_module (s : State) (m : ContainerModule.t) :
  let s' := exec (Container.unload [m]) s in
  let owned := ownedBy (store s) (ContainerModule.id m) in
  outcome (Container.unload [m]) s = Ok tt
  ∧ this s' = this s
  ∧ bindingObjects (store s') = bindingObjects (store s)
  ∧ pairs (dictionary s') = List.filter (λ kr, negb (owned kr.2)) (pairs (dictionary s))
  ∧ dictionary s'
    = List.filter (λ e, 0 <? length e.2)
        (List.map (λ e, (e.1, List.filter (λ r, negb (owned r)) e.2)) (dictionary s))
  ∧ (∀ k r, (k, r) ∈ pairs (dictionary s') ↔ (k, r) ∈ pairs (dictionary s) ∧ owned r = false)
  ∧ (∀ r b, bindingObjects (store s) !! r = Some b →
            (owned r = true ↔ Binding.moduleId b = Some (ContainerModule.id m)))
  ∧ (∀ k, ∃ r s1,
        Container.getBindFunction (ContainerModule.id m) k s = (Ok r, s1)
        ∧ bindingObjects (store s) !! r = None
        ∧ Binding.moduleId <$> bindingObjects (store s1) !! r
          = Some (Some (ContainerModule.id m)))
  ∧ (∀ k, ∃ r s1,
        Container.bind k s = (Ok r, s1)
        ∧ Binding.moduleId <$> bindingObjects (store s1) !! r = Some None)
  ∧ stamped s (ContainerModule.id m) (exec (Container.load [m]) s).
Proof.
  intros s' owned.
  pose proof (unload_dictionary s m) as Hd. fold s' owned in Hd.
  split_and!; try done.
  - rewrite Hd. apply pairs_removeByCondition.
  - rewrite Hd. apply removeByCondition_entries.
  - intros k r. rewrite Hd, pairs_removeByCondition.
    rewrite !list_elem_of_In, filter_In. simpl.
    by rewrite negb_true_iff.
  - intros r b Hb. unfold owned, ownedBy. rewrite Hb.
    unfold ContainerBase.conditionFactory. apply bool_decide_eq_true.
  - intros k. destruct (getBindFunction_run s (ContainerModule.id m) k) as (s1 & Hrun & _ & Hb).
    eexists _, s1. split; [exact Hrun|]. split.
    + by apply lookup_ge_None_2.
    + rewrite Hb. by rewrite list_lookup_middle.
  - intros k. eexists _, _. rewrite bind_run. split; [reflexivity|]. simpl.
    by rewrite list_lookup_middle.
  - apply load_stamps.
Qed.

(** The test "Should be able to use modules as configuration": after the
    two modules are loaded, unloading the first leaves the bindings of the
    second, and unloading the second leaves none. *)
Lemma unload_removes_module_witness :
  let s := exec (Container.load [warriors; weapons]) freshState in
  Lookup.keys (dictionary s) = [StringId "Ninja"; StringId "Katana"; StringId "Shuriken"]
  ∧ pairs (dictionary (exec (Container.unload [warriors]) s))
    = [(StringId "Katana", 1); (StringId "Shuriken", 2)]
  ∧ dictionary (exec (Container.unload [weapons]) (exec (Container.unload [warriors]) s)) = [].
Proof.
  intros s. split; [reflexivity|]. split.
  - destruct (unload_removes_module s warriors) as (_ & _ & _ & Hpairs & _).
    rewrite Hpairs. reflexivity.
  - destruct (unload_removes_module (exec (Container.unload [warriors]) s) weapons)
      as (_ & _ & _ & _ & Hdict & _).
    rewrite Hdict. reflexivity.
Defined.

(** ** isBound and isBoundTagged *)

Lemma someConstraint_spec σ request bindings :
  someConstraint σ request bindings = true
  ↔ ∃ r b, r ∈ bindings ∧ bindingObjects σ !! r = Some b
           ∧ Binding.constraint b request = true.
Proof.
  unfold someConstraint. rewrite existsb_exists. split.
  - intros (r & Hin & Hr). destruct (bindingObjects σ !! r) as [b|] eqn:E; [|done].
    exists r, b. by rewrite list_elem_of_In.
  - intros (r & b & Hin & Hb & Hc). exists r. rewrite Hb. by rewrite <- list_elem_of_In.
Qed.

Lemma ContainerBase_isBoundTagged_run s k key value :
  ContainerBase.isBoundTagged s k key value
  = Ok (someConstraint (store s) (createMockRequest (this s) k key value)
          (Lookup.entries (dictionary s) k)).
Proof.
  unfold ContainerBase.isBoundTagged, Lookup.entries.
  destruct (Lookup.hasKey (dictionary s) k) eqn:E.
  - destruct (hasKey_true_get _ _ E) as [es ->]. done.
  - by rewrite hasKey_false_get.
Qed.

Lemma ContainerBase_isBoundTagged_spec s k key value :
  ContainerBase.isBoundTagged s k key value = Ok true ↔ locallyTagged s k key value.
Proof.
  rewrite ContainerBase_isBoundTagged_run. unfold locallyTagged.
  rewrite <- someConstraint_spec. split; [by intros [= ->]|by intros ->].
Qed.

Lemma isBound_unfold c σ k :
  Container.isBound c σ k
  = ContainerBase.isBound (mkState c σ) k
    || match parent c with
       | Some p => Container.isBound p σ k
       | None => false
       end.
Proof.
  destruct c as [i o mw d sn [p|]]; simpl;
    destruct (ContainerBase.isBound _ k); simpl; done.
Qed.

Lemma isBoundTagged_unfold c σ k key value :
  Container.isBoundTagged c σ k key value
  = if someConstraint σ (createMockRequest c k key value)
         (Lookup.entries (dictionary (mkState c σ)) k)
    then Ok true
    else match parent c with
         | Some p => Container.isBoundTagged p σ k key value
         | None => Ok false
         end.
Proof.
  destruct c as [i o mw d sn [p|]]; simpl;
    rewrite ContainerBase_isBoundTagged_run; simpl;
    destruct (someConstraint _ _ _); simpl; done.
Qed.

(** [Container] has the structural induction of its parent chain. *)
Lemma Container_chain_ind (P : Container → Prop) :
  (∀ c, parent c = None → P c) →
  (∀ c p, parent c = Some p → P p → P c) →
  ∀ c, P c.
Proof.
  intros Hroot Hchild.
  fix IH 1. intros [i o mw d sn [p|]].
  - apply (Hchild _ p); [done|]. apply IH.
  - by apply Hroot.
Qed.

Lemma isBound_chain c σ k :
  Container.isBound c σ k
  = existsb (λ a, Lookup.hasKey (dictionary (mkState a σ)) k) (chain c).
Proof.
  induction c as [c Hroot|c p Hp IH] using Container_chain_ind;
    rewrite isBound_unfold; destruct c as [i o mw d sn q]; simpl in *; subst q.
  - done.
  - by rewrite IH.
Qed.

Lemma isBoundTagged_returns c σ k key value :
  ∃ b, Container.isBoundTagged c σ k key value = Ok b.
Proof.
  induction c as [c Hroot|c p Hp IH] using Container_chain_ind;
    rewrite isBoundTagged_unfold; destruct (someConstraint _ _ _); eauto.
  - rewrite Hroot. eauto.
  - rewrite Hp. exact IH.
Qed.

(** C6.  [isBound] is true exactly when the container's own dictionary has
    the key or the [isBound] of its parent is true, which makes it the search
    of the key along the chain of ancestors, nearest first.  [isBoundTagged]
    always returns, and returns true exactly when a binding of the
    container's own, under the identifier, accepts the mock request with the
    tag, or none does and the [isBoundTagged] of its parent is true.  The
    container's own dictionary decides first: when it says yes the answer is
    yes whatever the parent is. *)
Theorem isBound_local_then_parent (c : Container) (σ : Store)
    (serviceIdentifier : ServiceIdentifier) (key value : JsValue) :
  let s := mkState c σ in
  (Container.isBound c σ serviceIdentifier = true
   ↔ Lookup.hasKey (dictionary s) serviceIdentifier = true
     ∨ ∃ p, parent c = Some p ∧ Container.isBound p σ serviceIdentifier = true)
  ∧ Container.isBound c σ serviceIdentifier
    = existsb (λ a, Lookup.hasKey (dictionary (mkState a σ)) serviceIdentifier) (chain c)
  ∧ (∃ b, Container.isBoundTagged c σ serviceIdentifier key value = Ok b)
  ∧ (Container.isBoundTagged c σ serviceIdentifier key value = Ok true
     ↔ locallyTagged s serviceIdentifier key value
       ∨ (¬ locallyTagged s serviceIdentifier key value
          ∧ ∃ p, parent c = Some p
                 ∧ Container.isBoundTagged p σ serviceIdentifier key value = Ok true))
  ∧ (Lookup.hasKey (dictionary s) serviceIdentifier = true →
       ∀ p, Container.isBound (withParent c p) σ serviceIdentifier = true)
  ∧ (locallyTagged s serviceIdentifier key value →
       ∀ p, Container.isBoundTagged (withParent c p) σ serviceIdentifier key value = Ok true).
Proof.
  intros s. split_and!.
  - rewrite isBound_unfold, orb_true_iff. unfold ContainerBase.isBound. fold s.
    split; (intros [H|H]; [by left|right]).
    + destruct (parent c) as [p|]; [eauto|done].
    + destruct H as (p & -> & H). done.
  - apply isBound_chain.
  - apply isBoundTagged_returns.
  - rewrite isBoundTagged_unfold.
    pose proof (ContainerBase_isBoundTagged_spec s serviceIdentifier key value) as Hlocal.
    rewrite ContainerBase_isBoundTagged_run in Hlocal. simpl in Hlocal. fold s.
    destruct (someConstraint _ _ _).
    + split; [intros _; left; by apply Hlocal|done].
    + assert (Hnot : ¬ locallyTagged s serviceIdentifier key value).
      { intros H. apply Hlocal in H. done. }
      split.
      * intros H. right. split; [done|]. destruct (parent c) as [p|]; [eauto|done].
      * intros [H|(_ & p & -> & H)]; [done|exact H].
  - intros H p. rewrite isBound_unfold. unfold ContainerBase.isBound.
    change (dictionary (mkState (withParent c p) σ)) with (dictionary s). by rewrite H.
  - intros H p. rewrite isBoundTagged_unfold.
    apply ContainerBase_isBoundTagged_spec in H.
    rewrite ContainerBase_isBoundTagged_run in H. simpl in H.
    change (dictionary (mkState (withParent c p) σ)) with (dictionary s).
    change (createMockRequest (withParent c p)) with (createMockRequest c).
    injection H as ->. done.
Qed.

(** The tests "Should be able to check if services are bound from parent
    container" and "... if a named binding is bound from parent container":
    the binding is on the root and the question is put to its grandchild. *)
Lemma isBound_local_then_parent_witness :
  let s := grandchildOf rootWithZero in
  Lookup.hasKey (dictionary s) (StringId "Zero") = false
  ∧ Container.isBound (this s) (store s) (StringId "Zero") = true
  ∧ Container.isBoundTagged (this s) (store s) (StringId "Zero") NAMED_TAG
      (JsString "InvalidDivisor") = Ok true
  ∧ Container.isBoundTagged (this s) (store s) (StringId "Zero") NAMED_TAG
      (JsString "ValidDivisor") = Ok false.
Proof.
  intros s.
  destruct (isBound_local_then_parent (this s) (store s) (StringId "Zero") NAMED_TAG
              (JsString "InvalidDivisor")) as (_ & Hchain & _).
  split; [reflexivity|]. split; [rewrite Hchain; reflexivity|].
  split; reflexivity.
Defined.

(** ** The constructor *)

Lemma scopeAccepted_cases v :
  scopeAccepted v
  = (strict_equals v JsUndefined
     || negb (negb (strict_equals v (BindingScopeEnum Singleton))
              && negb (strict_equals v (BindingScopeEnum Transient))
              && negb (strict_equals v (BindingScopeEnum Request)))).
Proof.
  unfold scopeAccepted. simpl.
  destruct (strict_equals v JsUndefined), (strict_equals v (JsString "Singleton")),
    (strict_equals v (JsString "Transient")), (strict_equals v (JsString "Request")); done.
Qed.

Lemma scopeOf_undefined v :
  strict_equals v JsUndefined = true →
  ContainerBase.scopeOf v = Transient ∧ ContainerBase.scopeOf (BindingScopeEnum Transient) = Transient.
Proof. by destruct v. Qed.

Lemma booleanOf_undefined v :
  strict_equals v JsUndefined = true → ContainerBase.booleanOf v = false.
Proof. by destruct v. Qed.

(** C7, as the code has it.  The constructor goes by the argument when it is
    truthy and by an empty object otherwise, and checks in this order: options
    that are not an object, a [defaultScope] that is neither left out nor one
    of the three scopes, an [autoBindInjectable] and then a
    [skipBaseClassChecks] that is neither left out nor a boolean.  The first
    check that fails throws its error and the store stays as it was; when none
    fails the container is built with the given values, Transient and false
    where a field is left out, an empty dictionary, no snapshots, no
    middleware and no parent. *)
Theorem constructor_validates (containerOptions : JsValue) (σ : Store) :
  let options := effectiveOptions containerOptions in
  let scope := get_prop options "defaultScope" in
  let autoBind := get_prop options "autoBindInjectable" in
  let skip := get_prop options "skipBaseClassChecks" in
  (truthy containerOptions = false →
     Container.constructor containerOptions σ = Container.constructor JsUndefined σ)
  ∧ (typeof options ≠ "object" →
       truthy containerOptions = true
       ∧ Container.constructor containerOptions σ
         = (Throw [Const CONTAINER_OPTIONS_MUST_BE_AN_OBJECT], σ))
  ∧ (typeof options = "object" → scopeAccepted scope = false →
       Container.constructor containerOptions σ
       = (Throw [Const CONTAINER_OPTIONS_INVALID_DEFAULT_SCOPE], σ))
  ∧ (typeof options = "object" → scopeAccepted scope = true →
     flagAccepted autoBind = false →
       Container.constructor containerOptions σ
       = (Throw [Const CONTAINER_OPTIONS_INVALID_AUTO_BIND_INJECTABLE], σ))
  ∧ (typeof options = "object" → scopeAccepted scope = true →
     flagAccepted autoBind = true → flagAccepted skip = false →
       Container.constructor containerOptions σ
       = (Throw [Const CONTAINER_OPTIONS_INVALID_SKIP_BASE_CHECK], σ))
  ∧ (typeof options = "object" → scopeAccepted scope = true →
     flagAccepted autoBind = true → flagAccepted skip = true →
       Container.constructor containerOptions σ
       = (Ok {| id := nextId σ;
                options := {| autoBindInjectable := ContainerBase.booleanOf autoBind;
                              defaultScope := ContainerBase.scopeOf scope;
                              skipBaseClassChecks := ContainerBase.booleanOf skip |};
                _middleware := None;
                _bindingDictionary := length (lookups σ);
                _snapshots := [];
                parent := None |},
          mkStore (lookups σ ++ [Lookup.empty]) (bindingObjects σ) (S (nextId σ)))
       ∧ (scope = JsUndefined → ContainerBase.scopeOf scope = Transient)
       ∧ (autoBind = JsUndefined → ContainerBase.booleanOf autoBind = false)
       ∧ (skip = JsUndefined → ContainerBase.booleanOf skip = false))
  ∧ Container.constructor JsUndefined σ
    = (Ok {| id := nextId σ;
             options := {| autoBindInjectable := false;
                           defaultScope := Transient;
                           skipBaseClassChecks := false |};
             _middleware := None;
             _bindingDictionary := length (lookups σ);
             _snapshots := [];
             parent := None |},
       mkStore (lookups σ ++ [Lookup.empty]) (bindingObjects σ) (S (nextId σ))).
Proof.
  intros options scope autoBind skip.
  assert (Hrun : ∀ r, ContainerBase.constructor containerOptions σ = r →
                      Container.constructor containerOptions σ
                      = match r with
                        | (Ok c, σ') => (Ok (withParent c None), σ')
                        | (Throw e, σ') => (Throw e, σ')
                        end).
  { intros r <-. unfold Container.constructor, andThen.
    by destruct (ContainerBase.constructor containerOptions σ) as [[c|e] σ']. }
  split_and!.
  - intros Hfalsy. unfold Container.constructor, ContainerBase.constructor.
    rewrite Hfalsy. done.
  - intros Hnot. assert (Ht : truthy containerOptions = true).
    { subst options. unfold effectiveOptions in Hnot.
      destruct (truthy containerOptions); [done|]. by destruct Hnot. }
    split; [done|]. erewrite Hrun; [|reflexivity].
    unfold ContainerBase.constructor. fold (effectiveOptions containerOptions). fold options.
    destruct (String.eqb_spec (typeof options) "object") as [Heq|_]; [done|]. done.
  - intros Hobj Hscope. erewrite Hrun; [|reflexivity].
    unfold ContainerBase.constructor. fold (effectiveOptions containerOptions). fold options.
    rewrite Hobj. simpl. fold scope.
    rewrite scopeAccepted_cases in Hscope. apply orb_false_iff in Hscope as [-> Hs].
    apply negb_false_iff in Hs. unfold BindingScopeEnum in Hs. rewrite Hs. done.
  - intros Hobj Hscope Hauto. erewrite Hrun; [|reflexivity].
    unfold ContainerBase.constructor. fold (effectiveOptions containerOptions). fold options.
    rewrite Hobj. simpl. fold scope autoBind.
    rewrite scopeAccepted_cases in Hscope. unfold BindingScopeEnum in Hscope.
    apply orb_false_iff in Hauto as [-> Ha]. rewrite Ha.
    destruct (strict_equals scope JsUndefined); simpl in *; [done|].
    apply negb_true_iff in Hscope. rewrite Hscope. done.
  - intros Hobj Hscope Hauto Hskip. erewrite Hrun; [|reflexivity].
    unfold ContainerBase.constructor. fold (effectiveOptions containerOptions). fold options.
    rewrite Hobj. simpl. fold scope autoBind skip.
    rewrite scopeAccepted_cases in Hscope. unfold BindingScopeEnum in Hscope.
    apply orb_false_iff in Hskip as [-> Hk]. rewrite Hk.
    unfold flagAccepted in Hauto.
    destruct (strict_equals scope JsUndefined); simpl in *;
      [|apply negb_true_iff in Hscope; rewrite Hscope];
      (destruct (strict_equals autoBind JsUndefined); simpl in *; [done|];
       rewrite Hauto; done).
  - intros Hobj Hscope Hauto Hskip. split.
    + erewrite Hrun; [|reflexivity].
      unfold ContainerBase.constructor. fold (effectiveOptions containerOptions). fold options.
      rewrite Hobj. simpl. fold scope autoBind skip.
      rewrite scopeAccepted_cases in Hscope. unfold BindingScopeEnum in Hscope.
      unfold flagAccepted in Hauto, Hskip.
      destruct (strict_equals scope JsUndefined) eqn:Es; simpl in *;
        [|apply negb_true_iff in Hscope; rewrite Hscope];
        (destruct (strict_equals autoBind JsUndefined) eqn:Ea; simpl in *;
           [|rewrite Hauto];
         (destruct (strict_equals skip JsUndefined) eqn:Ek; simpl in *;
            [|rewrite Hskip]; simpl;
          rewrite ?(booleanOf_undefined autoBind), ?(booleanOf_undefined skip) by done;
          rewrite ?(proj1 (scopeOf_undefined scope Es)); done)).
    + split_and!; by intros ->.
  - done.
Qed.

(** The test "Should be throw an exception if incorrect options is provided",
    and a container with Singleton as its default scope. *)
Lemma constructor_validates_witness :
  Container.constructor (JsFunction 7 "invalidOptions1") emptyStore
  = (Throw [Const CONTAINER_OPTIONS_MUST_BE_AN_OBJECT], emptyStore)
  ∧ Container.constructor (JsObject 1 [("autoBindInjectable", JsString "wrongValue")]) emptyStore
    = (Throw [Const CONTAINER_OPTIONS_INVALID_AUTO_BIND_INJECTABLE], emptyStore)
  ∧ Container.constructor (JsObject 2 [("defaultScope", JsString "wrongValue")]) emptyStore
    = (Throw [Const CONTAINER_OPTIONS_INVALID_DEFAULT_SCOPE], emptyStore)
  ∧ Container.constructor (JsObject 3 [("skipBaseClassChecks", JsNumber 1)]) emptyStore
    = (Throw [Const CONTAINER_OPTIONS_INVALID_SKIP_BASE_CHECK], emptyStore)
  ∧ (∃ c σ, Container.constructor (JsObject 4 [("defaultScope", JsString "Singleton")]) emptyStore
            = (Ok c, σ)
            ∧ options c = mkOptions false Singleton false).
Proof.
  split_and!.
  - apply (constructor_validates (JsFunction 7 "invalidOptions1") emptyStore). done.
  - by apply (constructor_validates
                (JsObject 1 [("autoBindInjectable", JsString "wrongValue")]) emptyStore).
  - by apply (constructor_validates
                (JsObject 2 [("defaultScope", JsString "wrongValue")]) emptyStore).
  - by apply (constructor_validates
                (JsObject 3 [("skipBaseClassChecks", JsNumber 1)]) emptyStore).
  - destruct (constructor_validates
                (JsObject 4 [("defaultScope", JsString "Singleton")]) emptyStore)
      as (_ & _ & _ & _ & _ & Hok & _).
    destruct (Hok eq_refl eq_refl eq_refl eq_refl) as [Hrun _].
    eexists _, _. split; [exact Hrun|reflexivity].
Defined.

(** C7 as stated fails: [0], [false] and the empty string are not objects,
    and the constructor builds a container with the default options from each
    of them. *)
Lemma constructor_accepts_falsy :
  typeof (JsNumber 0) = "number"
  ∧ (∃ c σ, Container.constructor (JsNumber 0) emptyStore = (Ok c, σ)
            ∧ options c = mkOptions false Transient false)
  ∧ (∃ c σ, Container.constructor (JsBoolean false) emptyStore = (Ok c, σ))
  ∧ (∃ c σ, Container.constructor (JsString "") emptyStore = (Ok c, σ)).
Proof. split_and!; [done| |by eexists _, _|by eexists _, _]. by eexists _, _. Qed.

(** ** The get family and the middleware chain *)

Section Middleware.

Variable plan : State → bool → TargetType → ServiceIdentifier → JsValue → JsValue → bool
                → Res Context.t.
Variable resolve : State → Context.t → Res JsValue.

Lemma _get_with_middleware s middleware avoidConstraints isMultiInject targetType k key value :
  _middleware (this s) = Some middleware →
  Container._get plan resolve avoidConstraints isMultiInject targetType k key value s
  = checked (middleware (Container._planAndResolve plan resolve s)
               (Container.defaultArgs avoidConstraints isMultiInject targetType k key value)).
Proof. intros H. unfold Container._get. rewrite H. done. Qed.

Lemma _get_without_middleware s avoidConstraints isMultiInject targetType k key value :
  _middleware (this s) = None →
  Container._get plan resolve avoidConstraints isMultiInject targetType k key value s
  = Container._planAndResolve plan resolve s
      (Container.defaultArgs avoidConstraints isMultiInject targetType k key value).
Proof. intros H. unfold Container._get. rewrite H. done. Qed.

Lemma call_with_middleware s middleware g :
  _middleware (this s) = Some middleware →
  call plan resolve g s
  = checked (middleware (Container._planAndResolve plan resolve s) (argsOf g)).
Proof. intros H. destruct g; simpl; by apply _get_with_middleware. Qed.

End Middleware.

(** C8.  With a middleware chain installed, each of [get], [getTagged],
    [getNamed], [getAll], [getAllTagged] and [getAllNamed] hands its
    arguments to the chain; when the chain returns [null] or [undefined] the
    call throws INVALID_MIDDLEWARE_RETURN, and when it returns anything else
    the call returns that value. *)
Theorem middleware_result_checked
    (plan : State → bool → TargetType → ServiceIdentifier → JsValue → JsValue → bool
            → Res Context.t)
    (resolve : State → Context.t → Res JsValue)
    (s : State) (middleware : Chain) (g : GetCall) (result : JsValue) :
  _middleware (this s) = Some middleware →
  middleware (Container._planAndResolve plan resolve s) (argsOf g) = Ok result →
  (result = JsNull ∨ result = JsUndefined →
     call plan resolve g s = Throw [Const INVALID_MIDDLEWARE_RETURN])
  ∧ (result ≠ JsNull → result ≠ JsUndefined → call plan resolve g s = Ok result).
Proof.
  intros Hmw Hresult. rewrite (call_with_middleware plan resolve s middleware g Hmw).
  rewrite Hresult. simpl. split.
  - by intros [-> | ->].
  - intros Hnull Hundef. by destruct result.
Qed.

(** Over a plan-and-resolve that yields 7: [getAll] of "Ninja" throws, and
    [getNamed] of "Katana" returns the 7. *)
Lemma middleware_result_checked_witness :
  let plan := λ (s : State) (_ : bool) (_ : TargetType) (_ : ServiceIdentifier)
                (_ _ : JsValue) (_ : bool),
                Ok (Context.make 0 (id (this s)) None None) in
  let resolve := λ (_ : State) (_ : Context.t), Ok (JsNumber 7) in
  call plan resolve (callGetAll (StringId "Ninja")) stateWithNullForNinja
  = Throw [Const INVALID_MIDDLEWARE_RETURN]
  ∧ call plan resolve (callGetNamed (StringId "Katana") (JsString "sharp"))
      stateWithNullForNinja
    = Ok (JsNumber 7).
Proof.
  intros plan resolve. split.
  - apply (middleware_result_checked plan resolve stateWithNullForNinja
             (λ planAndResolve, nullForNinja planAndResolve)
             (callGetAll (StringId "Ninja")) JsNull eq_refl eq_refl).
    by left.
  - by apply (middleware_result_checked plan resolve stateWithNullForNinja
                (λ planAndResolve, nullForNinja planAndResolve)
                (callGetNamed (StringId "Katana") (JsString "sharp")) (JsNumber 7)
                eq_refl eq_refl).
Defined.

(** The entry point a chain built by [applyMiddleware] is, over the entry
    point [initial]: each middleware gets the one composed so far as its
    [next]. *)
Lemma applyMiddleware_chain (middlewares : list Middleware) (initial : Chain)
    (planAndResolve : Next) :
  fold_left (λ (prev : Chain) (curr : Middleware), λ planAndResolve, curr (prev planAndResolve))
    middlewares initial planAndResolve
  = fold_left (λ (next : Next) (curr : Middleware), curr next) middlewares
      (initial planAndResolve).
Proof.
  revert initial. induction middlewares as [|m ms IH]; intros initial; simpl; [done|].
  by rewrite IH.
Qed.

(** C9.  [applyMiddleware(m1, ..., mn)] returns and changes nothing but
    [_middleware].  The chain it installs is, over the entry point it starts
    from, the fold of the middlewares in call order, each one applied to the
    entry point composed so far: [mn (... (m1 initial))], where [initial] is
    the chain installed before if there was one and plan-and-resolve
    otherwise.  From then on every call of the get family is what this chain
    answers to the arguments of the call, under the null check of [_get]. *)
Theorem applyMiddleware_composes
    (plan : State → bool → TargetType → ServiceIdentifier → JsValue → JsValue → bool
            → Res Context.t)
    (resolve : State → Context.t → Res JsValue)
    (s : State) (middlewares : list Middleware) :
  let s' := exec (Container.applyMiddleware middlewares) s in
  let initial : Next → Next :=
    match _middleware (this s) with
    | Some installed => installed
    | None => λ planAndResolve, planAndResolve
    end in
  outcome (Container.applyMiddleware middlewares) s = Ok tt
  ∧ store s' = store s
  ∧ (∃ chain, this s' = withMiddleware (this s) (Some chain)
              ∧ ∀ planAndResolve,
                  chain planAndResolve
                  = fold_left (λ (next : Next) (curr : Middleware), curr next) middlewares
                      (initial planAndResolve))
  ∧ (∀ g, call plan resolve g s'
          = checked (fold_left (λ (next : Next) (curr : Middleware), curr next) middlewares
                       (initial (Container._planAndResolve plan resolve s')) (argsOf g)))
  ∧ (∀ m1 m2 planAndResolve,
       middlewares = [m1; m2] →
       ∃ chain, _middleware (this s') = Some chain
                ∧ chain planAndResolve = m2 (m1 (initial planAndResolve))).
Proof.
  intros s' initial. split; [done|]. split; [done|]. split; [|split].
  - eexists. split; [reflexivity|]. intros planAndResolve.
    apply applyMiddleware_chain.
  - intros g. erewrite call_with_middleware; [|reflexivity].
    f_equal. by rewrite applyMiddleware_chain.
  - intros m1 m2 planAndResolve ->. eexists. split; [reflexivity|]. done.
Qed.

(** Two middlewares over a plan-and-resolve that yields 7: the first adds 1
    and the second doubles, so [get] returns 16. *)
Lemma applyMiddleware_composes_witness :
  let plan := λ (s : State) (_ : bool) (_ : TargetType) (_ : ServiceIdentifier)
                (_ _ : JsValue) (_ : bool),
                Ok (Context.make 0 (id (this s)) None None) in
  let resolve := λ (_ : State) (_ : Context.t), Ok (JsNumber 7) in
  let s' := exec (Container.applyMiddleware [mapResult (Z.add 1); mapResult (Z.mul 2)])
              freshState in
  call plan resolve (callGet (StringId "Ninja")) s' = Ok (JsNumber 16).
Proof.
  intros plan resolve s'.
  destruct (applyMiddleware_composes plan resolve freshState
              [mapResult (Z.add 1); mapResult (Z.mul 2)]) as (_ & _ & _ & Hcall & _).
  fold s' in Hcall. rewrite Hcall. reflexivity.
Defined.

(** C10.  The named operations are the tagged ones at the tag NAMED_TAG:
    [getNamed] is [getTagged], [getAllNamed] is [getAllTagged], and
    [isBoundNamed] is [isBoundTagged], in [Container] and in
    [ContainerBase]. *)
Theorem named_is_tagged
    (plan : State → bool → TargetType → ServiceIdentifier → JsValue → JsValue → bool
            → Res Context.t)
    (resolve : State → Context.t → Res JsValue)
    (s : State) (serviceIdentifier : ServiceIdentifier) (named : JsValue) :
  Container.getNamed plan resolve serviceIdentifier named s
  = Container.getTagged plan resolve serviceIdentifier NAMED_TAG named s
  ∧ Container.getAllNamed plan resolve serviceIdentifier named s
    = Container.getAllTagged plan resolve serviceIdentifier NAMED_TAG named s
  ∧ Container.isBoundNamed (this s) (store s) serviceIdentifier named
    = Container.isBoundTagged (this s) (store s) serviceIdentifier NAMED_TAG named
  ∧ ContainerBase.isBoundNamed s serviceIdentifier named
    = ContainerBase.isBoundTagged s serviceIdentifier NAMED_TAG named.
Proof. split_and!; reflexivity. Qed.

(** ** The container tests, on the embedding *)

(** "Should be able to store bindings" *)
Example test_store_bindings :
  let s := mutateAll [doBind (StringId "Ninja") [to (JsFunction 1 "Ninja")]] freshState in
  length (dictionary s) = 1 ∧ Lookup.hasKey (dictionary s) (StringId "Ninja") = true.
Proof. split; reflexivity. Qed.

(** "Should have an unique identifier" *)
Example test_unique_identifier :
  ∃ container1 σ1 container2 σ2,
    Container.constructor JsUndefined emptyStore = (Ok container1, σ1)
    ∧ Container.constructor JsUndefined σ1 = (Ok container2, σ2)
    ∧ id container1 ≠ id container2.
Proof. eexists _, _, _, _. split; [reflexivity|]. split; [reflexivity|]. simpl. lia. Qed.

(** "Should unbind a binding when requested", both tests of that name *)
Example test_unbind :
  let one := mutateAll [doBind (StringId "Ninja") [to (JsFunction 1 "Ninja")];
                        doUnbind (StringId "Ninja")] freshState in
  let two := mutateAll [doBind (StringId "Ninja") [to (JsFunction 1 "Ninja")];
                        doBind (StringId "Samurai") [to (JsFunction 2 "Samurai")];
                        doUnbind (StringId "Ninja")] freshState in
  Lookup.hasKey (dictionary one) (StringId "Ninja") = false
  ∧ length (dictionary one) = 0
  ∧ length (dictionary two) = 1.
Proof. split_and!; reflexivity. Qed.

(** "Should be able unbound all dependencies" *)
Example test_unbindAll :
  let s := mutateAll [doBind (StringId "Ninja") [to (JsFunction 1 "Ninja")];
                      doBind (StringId "Samurai") [to (JsFunction 2 "Samurai")]] freshState in
  length (dictionary s) = 2
  ∧ length (dictionary (exec Container.unbindAll s)) = 0.
Proof. split; reflexivity. Qed.

(** "Should NOT be able to get ambiguous match": one key, two bindings *)
Example test_two_bindings_one_key :
  let s := mutateAll [doBind (StringId "Warrior") [to (JsFunction 1 "Ninja")];
                      doBind (StringId "Warrior") [to (JsFunction 2 "Samurai")]] freshState in
  dictionary s = [(StringId "Warrior", [0; 1])].
Proof. reflexivity. Qed.

(** "Should be able to get a string literal / symbol / class identifier as a
    string" *)
Example test_getServiceIdentifierAsString :
  getServiceIdentifierAsString (StringId "Katana") = "Katana"
  ∧ getServiceIdentifierAsString (SymbolId "Katana") = "Symbol(Katana)"
  ∧ getServiceIdentifierAsString (NewableId 1 "Katana") = "Katana".
Proof. split_and!; reflexivity. Qed.

(** "Should be able to check is there are bindings available for a given
    identifier" *)
Example test_isBound :
  let s := mutateAll [doBind (NewableId 1 "Ninja") [to (JsFunction 1 "Ninja")];
                      doBind (StringId "Warrior") [to (JsFunction 1 "Ninja")];
                      doBind (SymbolId "Warrior") [to (JsFunction 1 "Ninja")]] freshState in
  let isBound := Container.isBound (this s) (store s) in
  isBound (NewableId 1 "Ninja") = true
  ∧ isBound (StringId "Warrior") = true
  ∧ isBound (SymbolId "Warrior") = true
  ∧ isBound (NewableId 2 "Katana") = false
  ∧ isBound (StringId "Katana") = false
  ∧ isBound (SymbolId "Katana") = false.
Proof. split_and!; reflexivity. Qed.

(** "Should be able create a child containers", "Should inherit parent
    container options" and "Should be able to override options to child
    containers" *)
Example test_createChild :
  ∃ root σ child σ' overriding σ'',
    Container.constructor (JsObject 1 [("defaultScope", BindingScopeEnum Singleton)]) emptyStore
    = (Ok root, σ)
    ∧ Container.createChild JsUndefined (mkState root σ)
      = (Ok child, mkState root σ')
    ∧ Container.createChild (JsObject 2 [("defaultScope", BindingScopeEnum Request)])
        (mkState root σ)
      = (Ok overriding, mkState root σ'')
    ∧ (id <$> parent child) = Some (id root)
    ∧ defaultScope (options child) = Singleton
    ∧ defaultScope (options overriding) = Request.
Proof. eexists _, _, _, _, _, _. split_and!; reflexivity. Qed.

(** "Should be able check if a named binding is bound" *)
Example test_isBoundNamed :
  let s1 := mutateAll [doBind (StringId "Zero") [toConstantValue (JsNumber 0)]] freshState in
  let s2 := mutateAll [doUnbindAll] s1 in
  let s3 := mutateAll [doBind (StringId "Zero")
                         [toConstantValue (JsNumber 0);
                          whenTargetNamed (JsString "InvalidDivisor")]] s2 in
  let s4 := mutateAll [doBind (StringId "Zero")
                         [toConstantValue (JsNumber 1);
                          whenTargetNamed (JsString "ValidDivisor")]] s3 in
  let isBoundNamed s := Container.isBoundNamed (this s) (store s) (StringId "Zero") in
  Container.isBound (this freshState) (store freshState) (StringId "Zero") = false
  ∧ Container.isBound (this s1) (store s1) (StringId "Zero") = true
  ∧ Container.isBound (this s2) (store s2) (StringId "Zero") = false
  ∧ isBoundNamed s3 (JsString "InvalidDivisor") = Ok true
  ∧ isBoundNamed s3 (JsString "ValidDivisor") = Ok false
  ∧ isBoundNamed s4 (JsString "InvalidDivisor") = Ok true
  ∧ isBoundNamed s4 (JsString "ValidDivisor") = Ok true.
Proof. split_and!; reflexivity. Qed.

(** "Should be able to check if a tagged binding is bound from parent
    container": the bindings are made on the root after its grandchild was
    created. *)
Example test_isBoundTagged_from_parent :
  let leaf := grandchildOf freshState in
  let tagged (value : bool) :=
    doBind (StringId "Zero")
      [toConstantValue (JsNumber (if value then 1 else 0));
       whenTargetTagged (JsString "IsValidDivisor") (JsBoolean value)] in
  let σ1 := store (mutateAll [tagged false] (mkState (this freshState) (store leaf))) in
  let σ2 := store (mutateAll [tagged false; tagged true]
                     (mkState (this freshState) (store leaf))) in
  let isBoundTagged σ value :=
    Container.isBoundTagged (this leaf) σ (StringId "Zero") (JsString "IsValidDivisor")
      (JsBoolean value) in
  isBoundTagged σ1 false = Ok true
  ∧ isBoundTagged σ1 true = Ok false
  ∧ isBoundTagged σ2 false = Ok true
  ∧ isBoundTagged σ2 true = Ok true.
Proof. split_and!; reflexivity. Qed.

(** "Should be able to snapshot and restore container", on the dictionary *)
Example test_snapshot_restore :
  let ninja := NewableId 1 "Ninja" in
  let samurai := NewableId 2 "Samurai" in
  let v1 := mutateAll [doBind ninja [to (JsFunction 1 "Ninja")];
                       doBind samurai [to (JsFunction 2 "Samurai")]] freshState in
  let v2 := stepAll [stepSnapshot; stepMutation (doUnbind ninja)] v1 in
  let v3 := stepAll [stepSnapshot; stepMutation (doBind ninja [to (JsFunction 1 "Ninja")])] v2 in
  let back2 := stepAll [stepRestore] v3 in
  let back1 := stepAll [stepRestore] back2 in
  Lookup.keys (dictionary v2) = [samurai]
  ∧ Lookup.keys (dictionary v3) = [samurai; ninja]
  ∧ contents back2 = contents v2
  ∧ contents back1 = contents v1
  ∧ outcome Container.restore back1 = Throw [Const NO_MORE_SNAPSHOTS_AVAILABLE].
Proof. split_and!; reflexivity. Qed.

(** "Should be able to override a binding using rebind" *)
Example test_rebind :
  let s := mutateAll [doBind (StringId "someType") [toConstantValue (JsNumber 1)];
                      doBind (StringId "someType") [toConstantValue (JsNumber 2)]] freshState in
  let s' := mutateAll [doRebind (StringId "someType") [toConstantValue (JsNumber 3)]] s in
  Binding.cache <$> deref (store s) (Lookup.entries (dictionary s) (StringId "someType"))
  = [Some (JsNumber 1); Some (JsNumber 2)]
  ∧ Binding.cache <$> deref (store s') (Lookup.entries (dictionary s') (StringId "someType"))
    = [Some (JsNumber 3)].
Proof. split; reflexivity. Qed.

(** * Further properties of the container *)

(** ** bind, unbind and unbindAll on the dictionary *)

Lemma keys_add map k r :
  Lookup.keys (Lookup.add map k r)
  = if Lookup.hasKey map k then Lookup.keys map else Lookup.keys map ++ [k].
Proof.
  unfold Lookup.keys. induction map as [|[k' es] rest IH]; csimpl; [done|].
  case_bool_decide; csimpl; [done|]. rewrite IH.
  by destruct (Lookup.hasKey rest k).
Qed.

Lemma remove_add_absent map k r :
  Lookup.hasKey map k = false →
  List.filter (λ e, negb (bool_decide (e.1 = k))) (Lookup.add map k r) = map.
Proof.
  induction map as [|[k' es] rest IH]; simpl.
  - intros _. by rewrite bool_decide_eq_true_2.
  - case_bool_decide as Hk; simpl; [done|]. intros Hrest.
    rewrite bool_decide_eq_false_2 by done. simpl. by rewrite IH.
Qed.

(** X1.  In a container whose dictionary is an object of the store, [bind]
    never throws: it creates a binding object that was not there, with the
    identifier, the default scope of the container, the constraint that
    accepts every request and no module, and puts it after the bindings the
    identifier already has; a new identifier goes after the keys there are.
    Every other identifier keeps its bindings, and the container's fields and
    the binding objects there were stay as they are. *)
Theorem bind_appends (s : State) (serviceIdentifier : ServiceIdentifier) :
  _bindingDictionary (this s) < length (lookups (store s)) →
  ∃ binding s',
    Container.bind serviceIdentifier s = (Ok binding, s')
    ∧ this s' = this s
    ∧ bindingObjects (store s) !! binding = None
    ∧ bindingObjects (store s')
      = bindingObjects (store s)
        ++ [Binding.make serviceIdentifier (defaultScope (options (this s))) None None
              (λ _, true) None]
    ∧ Lookup.get (dictionary s') serviceIdentifier
      = Ok (Lookup.entries (dictionary s) serviceIdentifier ++ [binding])
    ∧ (∀ k, k ≠ serviceIdentifier →
            Lookup.get (dictionary s') k = Lookup.get (dictionary s) k)
    ∧ Lookup.keys (dictionary s')
      = (if Lookup.hasKey (dictionary s) serviceIdentifier
         then Lookup.keys (dictionary s)
         else Lookup.keys (dictionary s) ++ [serviceIdentifier])
    ∧ ContainerBase.isBound s' serviceIdentifier = true.
Proof.
  intros Hv. eexists _, _. rewrite bind_run. split; [reflexivity|].
  unfold ContainerBase.isBound. rewrite dictionary_write by done. simpl.
  split_and!; try done.
  - by apply lookup_ge_None_2.
  - apply get_add_eq.
  - intros k Hk. by apply get_add_ne.
  - apply keys_add.
  - apply hasKey_add.
Qed.

(** Two [bind]s of one identifier and one of another, in a new container. *)
Lemma bind_appends_witness :
  let s := mutateAll [doBind (StringId "Warrior") []; doBind (StringId "Weapon") []]
             freshState in
  ∃ binding s',
    Container.bind (StringId "Warrior") s = (Ok binding, s')
    ∧ Lookup.get (dictionary s') (StringId "Warrior") = Ok ([0] ++ [binding])
    ∧ Lookup.keys (dictionary s') = [StringId "Warrior"; StringId "Weapon"].
Proof.
  intros s.
  destruct (bind_appends s (StringId "Warrior"))
    as (binding & s' & Hrun & _ & _ & _ & Hget & _ & Hkeys & _).
  - vm_compute. lia.
  - exists binding, s'. split; [exact Hrun|]. split; [exact Hget|exact Hkeys].
Defined.

(** X2.  [bind] of an identifier the container does not have, followed by
    [unbind] of it, returns and leaves the dictionary exactly as it was. *)
Theorem bind_unbind_roundtrip (s : State) (serviceIdentifier : ServiceIdentifier) :
  _bindingDictionary (this s) < length (lookups (store s)) →
  Lookup.hasKey (dictionary s) serviceIdentifier = false →
  let s' := exec (Container.bind serviceIdentifier) s in
  outcome (Container.unbind serviceIdentifier) s' = Ok tt
  ∧ dictionary (exec (Container.unbind serviceIdentifier) s') = dictionary s
  ∧ this (exec (Container.unbind serviceIdentifier) s') = this s.
Proof.
  intros Hv Habsent s'.
  assert (Hs' : s' = (Container.bind serviceIdentifier s).2) by done.
  rewrite bind_run in Hs'. simpl in Hs'. clearbody s'.
  assert (Hd : dictionary s' = Lookup.add (dictionary s) serviceIdentifier
                                 (length (bindingObjects (store s)))).
  { rewrite Hs'. by apply dictionary_write. }
  assert (Hkey : Lookup.hasKey (dictionary s') serviceIdentifier = true).
  { rewrite Hd. apply hasKey_add. }
  unfold outcome, exec, Container.unbind. rewrite (unbind_present s' _ Hkey). simpl.
  split; [done|]. split; [|by rewrite Hs'].
  rewrite Hd. rewrite remove_add_absent by done.
  rewrite Hs'. simpl. rewrite list_insert_insert_eq.
  unfold dictionary, readLookup. simpl. rewrite list_lookup_insert_eq by done. simpl.
  by destruct (lookups (store s) !! _bindingDictionary (this s)) eqn:E.
Qed.

Lemma bind_unbind_roundtrip_witness :
  let s := mutateAll [doBind (StringId "Warrior") []] freshState in
  dictionary (exec (Container.unbind (StringId "Weapon"))
                (exec (Container.bind (StringId "Weapon")) s))
  = dictionary s.
Proof.
  intros s.
  destruct (bind_unbind_roundtrip s (StringId "Weapon")) as (_ & Hd & _).
  - vm_compute. lia.
  - reflexivity.
  - exact Hd.
Defined.

(** X3.  [unbindAll] never throws.  It does not empty the dictionary object
    but gives the container a new, empty one: afterwards no identifier is
    bound in the container itself, [isBound] is what the parent answers, and
    the dictionary object the container had, the binding objects, the
    snapshots and the middleware are as they were. *)
Theorem unbindAll_replaces_dictionary (s : State) :
  ∃ s', ContainerBase.unbindAll s = (Ok tt, s')
        ∧ dictionary s' = []
        ∧ (∀ k, ContainerBase.isBound s' k = false)
        ∧ (∀ k, Container.isBound (this s') (store s') k
                = match parent (this s) with
                  | Some p => Container.isBound p (store s') k
                  | None => false
                  end)
        ∧ _bindingDictionary (this s') = length (lookups (store s))
        ∧ readLookup (store s') (_bindingDictionary (this s)) = dictionary s
        ∧ bindingObjects (store s') = bindingObjects (store s)
        ∧ _snapshots (this s') = _snapshots (this s)
        ∧ _middleware (this s') = _middleware (this s)
        ∧ parent (this s') = parent (this s).
Proof.
  set (s' := mkState (withBindingDictionary (this s) (length (lookups (store s))))
               (mkStore (lookups (store s) ++ [Lookup.empty])
                  (bindingObjects (store s)) (nextId (store s)))).
  exists s'. split; [reflexivity|].
  assert (Hd : dictionary s' = []).
  { unfold dictionary, readLookup. simpl. by rewrite list_lookup_middle. }
  split_and!; try done.
  - intros k. unfold ContainerBase.isBound. by rewrite Hd.
  - intros k. rewrite isBound_unfold. unfold ContainerBase.isBound.
    rewrite state_eta, Hd. done.
  - unfold dictionary, readLookup. simpl.
    destruct (decide (_bindingDictionary (this s) < length (lookups (store s)))) as [Hv|Hv].
    + by rewrite lookup_app_l.
    + rewrite (lookup_ge_None_2 (lookups (store s))) by lia.
      destruct (decide (_bindingDictionary (this s) = length (lookups (store s)))) as [->|Hne].
      * by rewrite list_lookup_middle.
      * rewrite lookup_ge_None_2; [done|]. rewrite length_app. simpl. lia.
Qed.

(** ** Invariants of the mutations *)

Section MutationInvariant.

Variable I : State → Prop.

Hypothesis I_add : ∀ s k r, I s →
  I (mkState (this s)
       (mkStore (<[_bindingDictionary (this s) := Lookup.add (dictionary s) k r]>
                   (lookups (store s)))
          (bindingObjects (store s)) (nextId (store s)))).
Hypothesis I_remove : ∀ s k, I s →
  I (mkState (this s)
       (mkStore (<[_bindingDictionary (this s) :=
                     List.filter (λ e, negb (bool_decide (e.1 = k))) (dictionary s)]>
                   (lookups (store s)))
          (bindingObjects (store s)) (nextId (store s)))).
Hypothesis I_removeByCondition : ∀ s condition, I s →
  I (mkState (this s)
       (mkStore (<[_bindingDictionary (this s) :=
                     Lookup.removeByCondition (dictionary s) condition]>
                   (lookups (store s)))
          (bindingObjects (store s)) (nextId (store s)))).
Hypothesis I_newBinding : ∀ s b, I s →
  I (mkState (this s)
       (mkStore (lookups (store s)) (bindingObjects (store s) ++ [b]) (nextId (store s)))).
Hypothesis I_updateBinding : ∀ s r f, I s →
  I (mkState (this s)
       (mkStore (lookups (store s)) (alter f r (bindingObjects (store s)))
          (nextId (store s)))).
Hypothesis I_newDictionary : ∀ s, I s →
  I (mkState (withBindingDictionary (this s) (length (lookups (store s))))
       (mkStore (lookups (store s) ++ [Lookup.empty]) (bindingObjects (store s))
          (nextId (store s)))).
Hypothesis I_middleware : ∀ s middleware, I s →
  I (mkState (withMiddleware (this s) middleware) (store s)).

Lemma bind_invariant k : hoare I (Container.bind k) (λ _, I) I.
Proof.
  intros s Hs. rewrite bind_run.
  apply (I_add (mkState (this s)
                  (mkStore (lookups (store s))
                     (bindingObjects (store s)
                        ++ [Binding.new k (defaultScope (options (this s)))])
                     (nextId (store s)))) k (length (bindingObjects (store s)))).
  by apply I_newBinding.
Qed.

Lemma unbind_invariant k : hoare I (ContainerBase.unbind k) (λ _, I) I.
Proof.
  intros s Hs. destruct (Lookup.hasKey (dictionary s) k) eqn:E.
  - rewrite unbind_present by done. by apply I_remove.
  - by rewrite unbind_absent.
Qed.

Lemma rebind_invariant k : hoare I (Container.rebind k) (λ _, I) I.
Proof.
  unfold Container.rebind. eapply hoare_andThen; [apply unbind_invariant|].
  intros ?. apply bind_invariant.
Qed.

Lemma configure_invariant r syntax : hoare I (configure r syntax) (λ _, I) I.
Proof.
  intros s Hs. cbv [configure onStore updateBinding modify]. simpl.
  by apply I_updateBinding.
Qed.

Lemma setModuleId_invariant r mId : hoare I (Container.setModuleId r mId) (λ _, I) I.
Proof.
  intros s Hs. cbv [Container.setModuleId onStore updateBinding modify]. simpl.
  by apply I_updateBinding.
Qed.

Lemma getBindFunction_invariant mId k : hoare I (Container.getBindFunction mId k) (λ _, I) I.
Proof.
  unfold Container.getBindFunction.
  eapply hoare_andThen; [apply bind_invariant|]. intros r.
  eapply hoare_andThen; [apply setModuleId_invariant|]. intros ?. by apply hoare_ret.
Qed.

Lemma getRebindFunction_invariant mId k : hoare I (Container.getRebindFunction mId k) (λ _, I) I.
Proof.
  unfold Container.getRebindFunction.
  eapply hoare_andThen; [apply rebind_invariant|]. intros r.
  eapply hoare_andThen; [apply setModuleId_invariant|]. intros ?. by apply hoare_ret.
Qed.

Lemma callRegistry_invariant mId registry :
  hoare I (callRegistry (Container._getContainerModuleHelpersFactory mId) registry) (λ _, I) I.
Proof.
  induction registry as [|k syntax next IH|k next IH|k next IH|k syntax next IH]; simpl.
  - by apply hoare_ret.
  - eapply hoare_andThen; [apply getBindFunction_invariant|]. intros r.
    eapply hoare_andThen; [apply configure_invariant|]. intros ?. exact IH.
  - eapply hoare_andThen; [apply unbind_invariant|]. intros ?. exact IH.
  - apply (hoare_andThen _ _ _ (λ _, I)); [by apply hoare_gets|]. intros b. apply IH.
  - eapply hoare_andThen; [apply getRebindFunction_invariant|]. intros r.
    eapply hoare_andThen; [apply configure_invariant|]. intros ?. exact IH.
Qed.

Lemma load_invariant modules : hoare I (Container.load modules) (λ _, I) I.
Proof.
  unfold Container.load, ContainerBase.load. apply hoare_forEach.
  intros m. apply callRegistry_invariant.
Qed.

Lemma unload_invariant modules : hoare I (Container.unload modules) (λ _, I) I.
Proof.
  unfold Container.unload, ContainerBase.unload. apply hoare_forEach.
  intros m s Hs. cbv [ContainerBase.removeByCondition onStore writeLookup modify]. simpl.
  by apply I_removeByCondition.
Qed.

Lemma mutate_invariant m : hoare I (mutate m) (λ _, I) I.
Proof.
  destruct m; simpl.
  - eapply hoare_andThen; [apply bind_invariant|]. intros r. apply configure_invariant.
  - eapply hoare_andThen; [apply rebind_invariant|]. intros r. apply configure_invariant.
  - apply unbind_invariant.
  - intros s Hs.
    cbv [Container.unbindAll ContainerBase.unbindAll andThen onStore newLookup gets setThis modify].
    simpl. by apply I_newDictionary.
  - apply load_invariant.
  - apply unload_invariant.
  - intros s Hs. cbv [Container.applyMiddleware andThen gets setThis modify]. simpl.
    by apply I_middleware.
Qed.

Lemma mutateAll_invariant ms s : I s → I (mutateAll ms s).
Proof.
  revert s. induction ms as [|m ms IH]; intros s Hs; simpl; [done|].
  apply IH. eapply hoare_exec; [apply mutate_invariant|done].
Qed.

End MutationInvariant.

(** ** The hierarchy under mutations *)

Lemma isBound_same_lookups c σ σ' k :
  Forall (λ a, lookups σ' !! _bindingDictionary a = lookups σ !! _bindingDictionary a)
    (chain c) →
  Container.isBound c σ' k = Container.isBound c σ k.
Proof.
  intros H. rewrite !isBound_chain.
  induction H as [|a l Ha _ IH]; simpl; [done|].
  rewrite IH. f_equal. unfold dictionary, readLookup. simpl. by rewrite Ha.
Qed.

Lemma keptFor_refl c s : apart s c → keptFor c s s.
Proof. intros H. split; [|done]. by apply Forall_true. Qed.

Lemma keptFor_write c s0 s map b n :
  keptFor c s0 s →
  keptFor c s0 (mkState (this s)
                  (mkStore (<[_bindingDictionary (this s) := map]> (lookups (store s))) b n)).
Proof.
  intros [Hk Ha]. unfold keptFor, apart in *. simpl. rewrite length_insert.
  split; [|done]. rewrite Forall_forall in Hk, Ha. apply Forall_forall. intros a Hin.
  rewrite <- (Hk a Hin). apply list_lookup_insert_ne.
  destruct (Ha a Hin) as [_ Hne]. congruence.
Qed.

Lemma keptFor_bindings c s0 s b :
  keptFor c s0 s →
  keptFor c s0 (mkState (this s) (mkStore (lookups (store s)) b (nextId (store s)))).
Proof. intros [Hk Ha]. by split. Qed.

Lemma keptFor_newDictionary c s0 s :
  keptFor c s0 s →
  keptFor c s0 (mkState (withBindingDictionary (this s) (length (lookups (store s))))
                  (mkStore (lookups (store s) ++ [Lookup.empty]) (bindingObjects (store s))
                     (nextId (store s)))).
Proof.
  intros [Hk Ha]. unfold keptFor, apart in *. simpl. rewrite length_app. simpl.
  rewrite Forall_forall in Hk, Ha. split; apply Forall_forall; intros a Hin.
  - rewrite <- (Hk a Hin). apply lookup_app_l. by destruct (Ha a Hin).
  - destruct (Ha a Hin). lia.
Qed.

Lemma mutateAll_keptFor c s0 ms s : keptFor c s0 s → keptFor c s0 (mutateAll ms s).
Proof.
  apply mutateAll_invariant.
  - intros ? ? ? H. by apply keptFor_write.
  - intros ? ? H. by apply keptFor_write.
  - intros ? ? H. by apply keptFor_write.
  - intros ? ? H. by apply (keptFor_bindings c s0).
  - intros ? ? ? H. by apply (keptFor_bindings c s0).
  - intros ? H. by apply keptFor_newDictionary.
  - intros ? ? [Hk Ha]. by split.
Qed.

Lemma other_containers_frame s c ms k :
  apart s c →
  Container.isBound c (store (mutateAll ms s)) k = Container.isBound c (store s) k.
Proof.
  intros Ha. destruct (mutateAll_keptFor c s ms s (keptFor_refl c s Ha)) as [Hk _].
  by apply isBound_same_lookups.
Qed.

(** X4.  Whatever a container does to its own bindings ([bind], [rebind],
    [unbind], [unbindAll], [load], [unload], [applyMiddleware], returning or
    throwing) leaves the answers of another container untouched: when the
    dictionaries of [c] and of its ancestors are objects of the store other
    than the dictionary of the mutated container, [isBound] of [c] is after
    the mutations what it was before, and they are still apart. *)
Theorem mutations_leave_other_containers
    (s : State) (c : Container) (ms : list Mutation) (serviceIdentifier : ServiceIdentifier) :
  apart s c →
  Container.isBound c (store (mutateAll ms s)) serviceIdentifier
  = Container.isBound c (store s) serviceIdentifier
  ∧ apart (mutateAll ms s) c.
Proof.
  intros Ha. destruct (mutateAll_keptFor c s ms s (keptFor_refl c s Ha)) as [Hk Ha'].
  split; [|done]. by apply isBound_same_lookups.
Qed.

(** A child binds, unbinds and clears; its parent answers as before. *)
Lemma mutations_leave_other_containers_witness :
  let root := mutateAll [doBind (StringId "Weapon") []] freshState in
  let child := mkState (this (grandchildOf root)) (store (grandchildOf root)) in
  let ms := [doBind (StringId "Weapon") []; doUnbind (StringId "Weapon"); doUnbindAll;
             doBind (StringId "Shield") []] in
  Container.isBound (this root) (store (mutateAll ms child)) (StringId "Weapon") = true
  ∧ Container.isBound (this root) (store (mutateAll ms child)) (StringId "Shield") = false.
Proof.
  intros root child ms.
  assert (Ha : apart child (this root))
    by (apply (@bool_decide_unpack _ (apart_dec child (this root))); vm_compute; exact I).
  split.
  - rewrite (proj1 (mutations_leave_other_containers child (this root) ms
                      (StringId "Weapon") Ha)).
    reflexivity.
  - rewrite (proj1 (mutations_leave_other_containers child (this root) ms
                      (StringId "Shield") Ha)).
    reflexivity.
Defined.

(** X5.  [unbind] takes away the container's own bindings only: when the
    identifier is bound in a child and the dictionaries of the parent chain
    are apart from the child's, [unbind] in the child returns and afterwards
    [isBound] of the child is what the parent answered before, so an
    identifier that an ancestor binds stays bound. *)
Theorem unbind_falls_back_to_parent
    (s : State) (p : Container) (serviceIdentifier : ServiceIdentifier) :
  parent (this s) = Some p →
  apart s p →
  Lookup.hasKey (dictionary s) serviceIdentifier = true →
  let s' := exec (Container.unbind serviceIdentifier) s in
  outcome (Container.unbind serviceIdentifier) s = Ok tt
  ∧ Container.isBound (this s) (store s) serviceIdentifier = true
  ∧ Container.isBound (this s') (store s') serviceIdentifier
    = Container.isBound p (store s) serviceIdentifier.
Proof.
  intros Hp Ha Hkey s'.
  pose proof (other_containers_frame s p [doUnbind serviceIdentifier] serviceIdentifier Ha)
    as Hframe.
  simpl in Hframe. unfold outcome, exec, Container.unbind in *. subst s'.
  rewrite (unbind_present s _ Hkey) in *. simpl in *.
  split; [done|]. split.
  - rewrite isBound_unfold. unfold ContainerBase.isBound. by rewrite state_eta, Hkey.
  - rewrite isBound_unfold, Hp. unfold ContainerBase.isBound.
    rewrite dictionary_write by (by eapply hasKey_dictionary_valid).
    rewrite hasKey_remove. simpl. exact Hframe.
Qed.

(** A grandchild binds "Weapon" over the binding of the root and unbinds it
    again. *)
Lemma unbind_falls_back_to_parent_witness :
  let root := mutateAll [doBind (StringId "Weapon") []] freshState in
  let leaf := mutateAll [doBind (StringId "Weapon") []] (grandchildOf root) in
  ∃ p, parent (this leaf) = Some p
       ∧ Container.isBound (this (exec (Container.unbind (StringId "Weapon")) leaf))
           (store (exec (Container.unbind (StringId "Weapon")) leaf)) (StringId "Weapon")
         = true.
Proof.
  intros root leaf.
  destruct (parent (this leaf)) as [p|] eqn:Hp; [|discriminate Hp].
  exists p. split; [reflexivity|].
  assert (Ha : apart leaf p).
  { injection Hp as <-.
    apply (@bool_decide_unpack _ (apart_dec leaf _)). vm_compute. exact I. }
  destruct (unbind_falls_back_to_parent leaf p (StringId "Weapon") Hp Ha eq_refl)
    as (_ & _ & Hafter).
  rewrite Hafter. injection Hp as <-. reflexivity.
Defined.

(** ** What holds in every state a container gets to *)

(** X6.  From a new container on, whatever is done with it ([snapshot],
    [restore] and the mutations, returning or throwing), the dictionary of
    the container and the dictionaries of its snapshots are objects of the
    store, each its own, so that no snapshot shares its dictionary with the
    container or with another snapshot, and every reference in a dictionary
    is to a binding object of the store. *)
Theorem reachable_states_wf (containerOptions : JsValue) (c : Container) (σ : Store)
    (steps : list Step) :
  Container.constructor containerOptions emptyStore = (Ok c, σ) →
  stateWf (stepAll steps (mkState c σ)).
Proof.
  intros Hnew. apply stepAll_wf. apply (constructor_wf containerOptions emptyStore); [|done].
  constructor.
Qed.

Lemma reachable_states_wf_witness :
  stateWf (stepAll [stepSnapshot; stepMutation (doBind (StringId "Ninja") []);
                    stepSnapshot; stepRestore; stepMutation doUnbindAll]
             freshState).
Proof.
  exact (reachable_states_wf JsUndefined (this freshState) (store freshState) _ eq_refl).
Defined.

(** ** isBoundTagged and isBound *)

Lemma someConstraint_hasKey σ request map k :
  someConstraint σ request (Lookup.entries map k) = true → Lookup.hasKey map k = true.
Proof.
  destruct (Lookup.hasKey map k) eqn:E; [done|].
  by rewrite entries_absent.
Qed.

(** X7.  [isBoundTagged] answers yes only for an identifier that [isBound]
    answers yes for: a binding that accepts the tag is a binding of the
    identifier, in the container or in an ancestor. *)
Theorem isBoundTagged_implies_isBound (c : Container) (σ : Store)
    (serviceIdentifier : ServiceIdentifier) (key value : JsValue) :
  Container.isBoundTagged c σ serviceIdentifier key value = Ok true →
  Container.isBound c σ serviceIdentifier = true.
Proof.
  induction c as [c Hroot|c p Hp IH] using Container_chain_ind;
    rewrite isBoundTagged_unfold, isBound_unfold; unfold ContainerBase.isBound;
    destruct (someConstraint _ _ _) eqn:E.
  - intros _. by rewrite (someConstraint_hasKey _ _ _ _ E).
  - by rewrite Hroot.
  - intros _. by rewrite (someConstraint_hasKey _ _ _ _ E).
  - rewrite Hp. intros H. rewrite (IH H). apply orb_true_r.
Qed.

(** The grandchild of a root with a named binding: bound for the name, and
    bound. *)
Lemma isBoundTagged_implies_isBound_witness :
  let s := grandchildOf rootWithZero in
  Container.isBound (this s) (store s) (StringId "Zero") = true.
Proof.
  intros s.
  exact (isBoundTagged_implies_isBound (this s) (store s) (StringId "Zero") NAMED_TAG
           (JsString "InvalidDivisor") eq_refl).
Defined.

(** ** Nested snapshots *)

Lemma evolvedOver_evolved s0 extra s s' :
  evolvedOver s0 extra s → evolved s s' → evolvedOver s0 extra s'.
Proof.
  intros [Hsn Hb Hl Hwf] [Hsn' Hb' Hl' Hwf']. constructor; try done.
  - by rewrite Hsn'.
  - by etrans.
  - intros sn Hin. rewrite <- Hl by done. apply Hl'.
    rewrite Hsn. apply elem_of_app. by left.
Qed.

Lemma evolvedOver_snapshot s0 extra s :
  evolvedOver s0 extra s →
  ∃ sn, evolvedOver s0 (extra ++ [sn]) (exec Container.snapshot s).
Proof.
  intros [Hsn Hb Hl Hwf].
  pose proof (snapshot_wf s Hwf) as Hwf'.
  destruct (snapshot_run s Hwf) as (copy & news & Hrun & _ & _).
  unfold exec in *. rewrite Hrun in *. simpl in *.
  eexists. constructor; simpl.
  - rewrite Hsn, <- app_assoc. reflexivity.
  - etrans; [exact Hb|]. by apply prefix_app_r.
  - intros sn Hin. rewrite <- Hl by done. apply lookup_app_l.
    assert (Hin' : sn ∈ _snapshots (this s)) by (rewrite Hsn; apply elem_of_app; by left).
    by destruct (snapshot_not_live s sn Hwf Hin').
  - exact Hwf'.
Qed.

Lemma evolvedOver_restore s0 extra sn s :
  evolvedOver s0 (extra ++ [sn]) s →
  outcome Container.restore s = Ok tt
  ∧ evolvedOver s0 extra (exec Container.restore s)
  ∧ _bindingDictionary (this (exec Container.restore s)) = ContainerSnapshot.bindings sn
  ∧ _middleware (this (exec Container.restore s)) = ContainerSnapshot.middleware sn.
Proof.
  intros [Hsn Hb Hl Hwf].
  pose proof (restore_wf s Hwf) as Hwf'.
  rewrite app_assoc in Hsn.
  unfold outcome, exec in *. rewrite (restore_run s sn _ Hsn) in *. simpl in *.
  split; [done|]. split; [|done]. by constructor.
Qed.

Lemma stepAll_nested s0 steps : ∀ extra s d',
  evolvedOver s0 extra s → nested (length extra) steps d' →
  ∃ extra', length extra' = d' ∧ evolvedOver s0 extra' (stepAll steps s).
Proof.
  induction steps as [|st steps IH]; intros extra s d' Hs Hn; simpl in *.
  - exists extra. by split.
  - destruct st as [m| |].
    + apply (IH extra); [|done]. apply (evolvedOver_evolved s0 extra s); [done|].
      eapply hoare_exec; [apply mutate_evolved|]. apply evolved_refl, Hs.
    + destruct (evolvedOver_snapshot s0 extra s Hs) as [sn Hs'].
      apply (IH (extra ++ [sn])); [done|]. rewrite length_app. simpl.
      by rewrite Nat.add_1_r.
    + destruct (length extra) as [|d0] eqn:E; [done|].
      destruct (pop extra) as [[sn rest]|] eqn:Ep.
      * apply pop_Some_inv in Ep. subst extra.
        destruct (evolvedOver_restore s0 rest sn s Hs) as (_ & Hs' & _).
        apply (IH rest); [done|]. rewrite length_app in E. simpl in E.
        assert (length rest = d0) as -> by lia. done.
      * apply pop_nil_inv in Ep. by subst extra.
Qed.

(** X8.  Snapshots nest.  In a well-formed state, [snapshot()], then any use
    of the container in which every [restore()] has a [snapshot()] of its own
    before it and every such [snapshot()] is restored, then [restore()]: the
    last [restore()] returns and the dictionary holds what it held at the
    first [snapshot()], with the middleware and the stack of that moment. *)
Theorem snapshots_nest (s : State) (steps : list Step) :
  stateWf s →
  nested 0 steps 0 →
  let s' := stepAll (stepSnapshot :: steps ++ [stepRestore]) s in
  outcome Container.restore (stepAll steps (exec Container.snapshot s)) = Ok tt
  ∧ contents s' = contents s
  ∧ _middleware (this s') = _middleware (this s)
  ∧ _snapshots (this s') = _snapshots (this s)
  ∧ stateWf s'.
Proof.
  intros Hwf Hn s'.
  destruct (snapshot_run s Hwf) as (copy & news & Hrun & Hvalid & Hcontents).
  pose proof (snapshot_wf s Hwf) as Hwf1.
  set (s1 := exec Container.snapshot s) in *.
  set (sn := ContainerSnapshot.of_ (length (lookups (store s))) (_middleware (this s))).
  assert (Hs1 : s1 = (Container.snapshot s).2) by done.
  rewrite Hrun in Hs1. simpl in Hs1.
  assert (H1 : evolvedOver s1 [] s1).
  { constructor; try done. by rewrite app_nil_r. }
  destruct (stepAll_nested s1 steps [] s1 0 H1 Hn) as (extra' & Hlen & H2).
  apply length_zero_iff_nil in Hlen. subst extra'.
  set (s2 := stepAll steps s1) in *.
  assert (H2' : evolvedOver s [sn] s2).
  { destruct H2 as [Hsn Hb Hl Hwf2]. constructor; try done.
    - rewrite Hsn, app_nil_r, Hs1. done.
    - etrans; [|exact Hb]. rewrite Hs1. simpl. by apply prefix_app_r.
    - intros x Hin. rewrite Hl.
      + rewrite Hs1. simpl. apply lookup_app_l.
        by destruct (snapshot_not_live s x Hwf Hin).
      + rewrite Hs1. simpl. apply elem_of_app. by left. }
  destruct (evolvedOver_restore s [] sn s2 H2') as (Hok & H3 & Hlive & Hmw).
  assert (Hs' : s' = exec Container.restore s2).
  { subst s' s2 s1. unfold stepAll. simpl. rewrite fold_left_app. done. }
  rewrite Hs'. destruct H3 as [Hsn3 Hb3 Hl3 Hwf3].
  split; [done|]. split; [|split; [done|split; [by rewrite Hsn3, app_nil_r|done]]].
  destruct H2 as [Hsn2 Hb2 Hl2 Hwf2].
  assert (Hcopy : lookups (store s2) !! length (lookups (store s)) = Some copy).
  { transitivity (lookups (store s1) !! ContainerSnapshot.bindings sn).
    - apply (Hl2 sn). rewrite Hs1. simpl. apply elem_of_app. right.
      by apply list_elem_of_singleton.
    - rewrite Hs1. simpl. by apply list_lookup_middle. }
  assert (Hstore : store (exec Container.restore s2) = store s2).
  { unfold exec. rewrite (restore_run s2 sn (_snapshots (this s))); [done|].
    rewrite Hsn2, app_nil_r, Hs1. done. }
  rewrite <- Hcontents.
  transitivity (contentsOf (store s2) copy).
  - unfold contents, dictionary, readLookup. rewrite Hlive, Hstore. simpl.
    by rewrite Hcopy.
  - rewrite (contentsOf_prefix (store s1) (store s2)).
    + by rewrite Hs1.
    + exact Hb2.
    + rewrite Hs1. simpl. exact Hvalid.
Qed.

(** The snapshot test of the container, with its snapshots, one within the
    other, restored in turn. *)
Lemma snapshots_nest_witness :
  let s := mutateAll [doBind (NewableId 1 "Ninja") []; doBind (NewableId 2 "Samurai") []]
             freshState in
  let steps := [stepMutation (doUnbind (NewableId 1 "Ninja"));
                stepSnapshot;
                stepMutation (doBind (NewableId 1 "Ninja") []);
                stepRestore;
                stepMutation doUnbindAll] in
  contents (stepAll (stepSnapshot :: steps ++ [stepRestore]) s) = contents s.
Proof.
  intros s steps.
  assert (Hwf : stateWf s) by (apply (@bool_decide_unpack _ (stateWf_dec s)); vm_compute; exact I).
  destruct (snapshots_nest s steps Hwf) as (_ & Hc & _); [|exact Hc].
  simpl. reflexivity.
Defined.

(** ** load and unload as operations on modules *)

Lemma forEach_app {S X} (xs ys : list X) (body : X → M S unit) s :
  forEach (xs ++ ys) body s = (forEach xs body ;;; forEach ys body) s.
Proof.
  revert s. induction xs as [|x xs IH]; intros s; simpl.
  - reflexivity.
  - unfold andThen. destruct (body x s) as [[[]|e] s1]; [|done].
    rewrite IH. done.
Qed.

(** X9.  [load] of several modules is [load] of the first ones followed by
    [load] of the others, module by module in the order given.  When the
    registry of a module throws, [load] throws that error at once: the
    modules after it are not loaded, and what was registered before the
    error stays registered. *)
Theorem load_in_order (modules1 modules2 : list ContainerModule.t) (s : State) :
  Container.load (modules1 ++ modules2) s
  = (Container.load modules1 ;;; Container.load modules2) s
  ∧ (∀ e, outcome (Container.load modules1) s = Throw e →
          Container.load (modules1 ++ modules2) s
          = (Throw e, exec (Container.load modules1) s)).
Proof.
  assert (Heq : Container.load (modules1 ++ modules2) s
                = (Container.load modules1 ;;; Container.load modules2) s).
  { unfold Container.load, ContainerBase.load. apply forEach_app. }
  split; [exact Heq|].
  intros e He. rewrite Heq. unfold andThen, outcome, exec in *.
  destruct (Container.load modules1 s) as [[[]|e'] s1]; simpl in *; congruence.
Qed.

(** A module that binds "Katana" and then unbinds "Shuriken", which nobody
    bound, followed by [warriors]: [load] throws, "Katana" stays bound and
    "Ninja" is never registered. *)
Lemma load_in_order_witness :
  let failing := ContainerModule.make 102
                   (registryBind (StringId "Katana") []
                      (registryUnbind (StringId "Shuriken") registryReturn)) in
  let s' := exec (Container.load ([failing] ++ [warriors])) freshState in
  outcome (Container.load ([failing] ++ [warriors])) freshState
  = Throw [Const CANNOT_UNBIND; Text " "; Text "Shuriken"]
  ∧ Lookup.keys (dictionary s') = [StringId "Katana"].
Proof.
  intros failing s'.
  destruct (load_in_order [failing] [warriors] freshState) as [_ Hfail].
  specialize (Hfail _ eq_refl). subst s'. unfold outcome, exec. rewrite Hfail.
  split; reflexivity.
Defined.

Lemma removeByCondition_twice map c1 c2 :
  Lookup.removeByCondition (Lookup.removeByCondition map c1) c2
  = Lookup.removeByCondition map (λ r, c1 r || c2 r).
Proof.
  induction map as [|[k es] rest IH]; simpl; [done|].
  assert (Hf : List.filter (λ entry, negb (c2 entry))
                 (List.filter (λ entry, negb (c1 entry)) es)
               = List.filter (λ entry, negb (c1 entry || c2 entry)) es).
  { clear. induction es as [|r es IHes]; simpl; [done|].
    destruct (c1 r); simpl; [done|]. destruct (c2 r); simpl; by rewrite IHes. }
  remember (List.filter (λ entry, negb (c1 entry)) es) as F1 eqn:E1.
  rewrite <- Hf. clear E1 Hf.
  destruct (0 <? length F1) eqn:El; simpl.
  - by rewrite IH.
  - apply Nat.ltb_ge in El. destruct F1; simpl in *; [by rewrite IH|lia].
Qed.

Lemma removeByCondition_ext map c1 c2 :
  (∀ r, c1 r = c2 r) → Lookup.removeByCondition map c1 = Lookup.removeByCondition map c2.
Proof.
  intros H. induction map as [|[k es] rest IH]; simpl; [done|].
  assert (Hf : List.filter (λ entry, negb (c1 entry)) es
               = List.filter (λ entry, negb (c2 entry)) es).
  { apply filter_ext. intros r. by rewrite H. }
  by rewrite Hf, IH.
Qed.

Lemma unload_cons m modules s :
  Container.unload (m :: modules) s
  = Container.unload modules (exec (Container.unload [m]) s).
Proof. done. Qed.

Lemma unload_store m s :
  bindingObjects (store (exec (Container.unload [m]) s)) = bindingObjects (store s)
  ∧ this (exec (Container.unload [m]) s) = this s.
Proof. done. Qed.

Lemma unload_returns modules s : outcome (Container.unload modules) s = Ok tt.
Proof.
  revert s. induction modules as [|m modules IH]; intros s; [done|].
  unfold outcome. rewrite unload_cons. apply IH.
Qed.

Lemma unload_two_dictionary m1 m2 s :
  dictionary (exec (Container.unload [m1; m2]) s)
  = Lookup.removeByCondition (dictionary s)
      (λ r, ownedBy (store s) (ContainerModule.id m1) r
            || ownedBy (store s) (ContainerModule.id m2) r).
Proof.
  unfold exec at 1. rewrite unload_cons. fold (exec (Container.unload [m2])
                                               (exec (Container.unload [m1]) s)).
  rewrite unload_dictionary, unload_dictionary.
  rewrite removeByCondition_twice. done.
Qed.

(** X10.  [unload] never throws, whatever the modules, loaded or not.  It
    is idempotent and the order of the modules does not matter: unloading a
    module twice leaves the dictionary that unloading it once leaves, and
    unloading two modules leaves the same dictionary in either order.  The
    container's fields and the binding objects are never touched. *)
Theorem unload_idempotent_commutative (s : State) (m1 m2 : ContainerModule.t)
    (modules : list ContainerModule.t) :
  outcome (Container.unload modules) s = Ok tt
  ∧ dictionary (exec (Container.unload [m1; m1]) s)
    = dictionary (exec (Container.unload [m1]) s)
  ∧ dictionary (exec (Container.unload [m1; m2]) s)
    = dictionary (exec (Container.unload [m2; m1]) s)
  ∧ this (exec (Container.unload [m1; m2]) s) = this s
  ∧ bindingObjects (store (exec (Container.unload [m1; m2]) s)) = bindingObjects (store s).
Proof.
  split_and!; try done.
  - apply unload_returns.
  - rewrite unload_two_dictionary, unload_dictionary.
    apply removeByCondition_ext. intros r. apply orb_diag.
  - rewrite !unload_two_dictionary.
    apply removeByCondition_ext. intros r. apply orb_comm.
Qed.

(** ** Modules and the bindings they own *)

Lemma removeByCondition_add_owned map k r condition :
  condition r = true →
  Lookup.removeByCondition (Lookup.add map k r) condition
  = Lookup.removeByCondition map condition.
Proof.
  intros Hr. induction map as [|[k' es] rest IH]; simpl.
  - by rewrite Hr.
  - case_bool_decide; simpl.
    + rewrite List.filter_app. simpl. rewrite Hr. simpl. by rewrite app_nil_r.
    + by rewrite IH.
Qed.

Lemma removeByCondition_ext_valid n map c1 c2 :
  lookupValid n map → (∀ r, r < n → c1 r = c2 r) →
  Lookup.removeByCondition map c1 = Lookup.removeByCondition map c2.
Proof.
  intros Hmap H. induction Hmap as [|[k es] rest Hes _ IH]; simpl; [done|].
  assert (Hf : List.filter (λ entry, negb (c1 entry)) es
               = List.filter (λ entry, negb (c2 entry)) es).
  { simpl in Hes. clear -Hes H. induction Hes as [|r es Hr _ IHes]; simpl; [done|].
    by rewrite (H r Hr), IHes. }
  by rewrite Hf, IH.
Qed.

Lemma removeByCondition_hasKey map condition k :
  Lookup.hasKey (Lookup.removeByCondition map condition) k = true →
  Lookup.hasKey map k = true.
Proof.
  induction map as [|[k' es] rest IH]; simpl; [done|].
  destruct (0 <? _); simpl.
  - case_bool_decide; simpl; [done|]. exact IH.
  - intros H. rewrite (IH H). apply orb_true_r.
Qed.

Lemma removeByCondition_free map condition :
  Forall (λ e : ServiceIdentifier * list BindingRef,
            e.2 ≠ [] ∧ Forall (λ r, condition r = false) e.2) map →
  Lookup.removeByCondition map condition = map.
Proof.
  intros H. induction H as [|[k es] rest [Hne Hes] _ IH]; simpl; [done|].
  simpl in *.
  assert (Hf : List.filter (λ entry, negb (condition entry)) es = es).
  { clear -Hes. induction Hes as [|r es Hr _ IHes]; simpl; [done|].
    by rewrite Hr, IHes. }
  rewrite Hf, IH. destruct es; [done|]. done.
Qed.

Lemma getBindFunction_state s mId k :
  Container.getBindFunction mId k s
  = (Ok (length (bindingObjects (store s))),
     mkState (this s)
       (mkStore
          (<[_bindingDictionary (this s) :=
               Lookup.add (dictionary s) k (length (bindingObjects (store s)))]>
             (lookups (store s)))
          (bindingObjects (store s)
             ++ [Binding.make k (defaultScope (options (this s))) None None (λ _, true)
                   (Some mId)])
          (nextId (store s)))).
Proof.
  unfold Container.getBindFunction, andThen. rewrite bind_run.
  cbv [Container.setModuleId onStore updateBinding modify ret]. simpl.
  rewrite alter_app_r_alt by done. by rewrite Nat.sub_diag.
Qed.

Lemma getRebindFunction_state s mId k :
  Lookup.hasKey (dictionary s) k = true →
  Container.getRebindFunction mId k s
  = (Ok (length (bindingObjects (store s))),
     mkState (this s)
       (mkStore
          (<[_bindingDictionary (this s) :=
               Lookup.add (List.filter (λ e, negb (bool_decide (e.1 = k))) (dictionary s))
                 k (length (bindingObjects (store s)))]>
             (lookups (store s)))
          (bindingObjects (store s)
             ++ [Binding.make k (defaultScope (options (this s))) None None (λ _, true)
                   (Some mId)])
          (nextId (store s)))).
Proof.
  intros H. unfold Container.getRebindFunction, andThen. rewrite rebind_present by done.
  cbv [Container.setModuleId onStore updateBinding modify ret]. simpl.
  rewrite alter_app_r_alt by done. by rewrite Nat.sub_diag.
Qed.

(** X11.  The [rebind] helper of a module takes over an identifier: when the
    identifier is bound, by anyone, the helper returns a new binding that
    belongs to the module and is afterwards the only binding of the
    identifier, so that [unload] of the module leaves the identifier without
    bindings in the container. *)
Theorem rebind_helper_takes_over (s : State) (m : ContainerModule.t)
    (serviceIdentifier : ServiceIdentifier) :
  Lookup.hasKey (dictionary s) serviceIdentifier = true →
  ∃ binding s1,
    Container.getRebindFunction (ContainerModule.id m) serviceIdentifier s = (Ok binding, s1)
    ∧ Lookup.get (dictionary s1) serviceIdentifier = Ok [binding]
    ∧ ownedBy (store s1) (ContainerModule.id m) binding = true
    ∧ Lookup.hasKey (dictionary (exec (Container.unload [m]) s1)) serviceIdentifier = false.
Proof.
  intros Hkey. pose proof (hasKey_dictionary_valid _ _ Hkey) as Hv.
  eexists _, _. split; [by apply getRebindFunction_state|].
  rewrite unload_dictionary. rewrite dictionary_write by done.
  assert (Howned : ownedBy
                     (mkStore
                        (<[_bindingDictionary (this s) :=
                             Lookup.add
                               (List.filter (λ e, negb (bool_decide (e.1 = serviceIdentifier)))
                                  (dictionary s))
                               serviceIdentifier (length (bindingObjects (store s)))]>
                           (lookups (store s)))
                        (bindingObjects (store s)
                           ++ [Binding.make serviceIdentifier (defaultScope (options (this s)))
                                 None None (λ _, true) (Some (ContainerModule.id m))])
                        (nextId (store s)))
                     (ContainerModule.id m) (length (bindingObjects (store s))) = true).
  { unfold ownedBy. simpl. rewrite list_lookup_middle by done.
    unfold ContainerBase.conditionFactory. simpl. by apply bool_decide_eq_true_2. }
  split_and!.
  - rewrite get_add_eq, entries_absent; [done|apply hasKey_remove].
  - exact Howned.
  - simpl. rewrite removeByCondition_add_owned by exact Howned.
    apply not_true_is_false. intros E.
    apply removeByCondition_hasKey in E. by rewrite hasKey_remove in E.
Qed.

(** "Warrior" is bound twice by the container itself; the module [warriors]
    rebinds it and is unloaded. *)
Lemma rebind_helper_takes_over_witness :
  let s := mutateAll [doBind (StringId "Warrior") []; doBind (StringId "Warrior") []]
             freshState in
  ∃ binding s1,
    Container.getRebindFunction (ContainerModule.id warriors) (StringId "Warrior") s
    = (Ok binding, s1)
    ∧ Lookup.hasKey (dictionary (exec (Container.unload [warriors]) s1)) (StringId "Warrior")
      = false.
Proof.
  intros s.
  destruct (rebind_helper_takes_over s warriors (StringId "Warrior") eq_refl)
    as (binding & s1 & Hrun & _ & _ & Hgone).
  exists binding, s1. split; assumption.
Defined.

Lemma ownedBy_new σ b mId r :
  r < length (bindingObjects σ) →
  ownedBy (mkStore (lookups σ) (bindingObjects σ ++ [b]) (nextId σ)) mId r = ownedBy σ mId r.
Proof. intros Hr. unfold ownedBy. simpl. by rewrite lookup_app_l. Qed.

Lemma ownedBy_configure σ lk r syntax mId x :
  ownedBy (mkStore lk (alter (λ b, fold_left (λ b f, fluent f b) syntax b) r (bindingObjects σ))
             (nextId σ)) mId x
  = ownedBy σ mId x.
Proof.
  unfold ownedBy. simpl. rewrite list_lookup_alter. case_decide; [|done]. subst x.
  destruct (bindingObjects σ !! r) as [b|]; simpl; [|done].
  unfold ContainerBase.conditionFactory. by rewrite fluent_all_moduleId.
Qed.

Lemma getBindFunction_unloadsTo s0 mId k :
  hoare (unloadsTo s0 mId) (Container.getBindFunction mId k)
    (λ _, unloadsTo s0 mId) (λ _, False).
Proof.
  intros s (Hthis & Hv & Hvalid & Heq). rewrite getBindFunction_state.
  unfold unloadsTo. simpl. rewrite length_insert.
  rewrite dictionary_write by done. split_and!; try done.
  - rewrite length_app. simpl. apply lookupValid_add; [|lia].
    eapply lookupValid_mono; [|exact Hvalid]. lia.
  - rewrite <- Heq. rewrite removeByCondition_add_owned.
    + apply (removeByCondition_ext_valid _ _ _ _ Hvalid). intros r Hr.
      unfold ownedBy. simpl. by rewrite lookup_app_l.
    + unfold ownedBy. simpl. rewrite list_lookup_middle by done.
      unfold ContainerBase.conditionFactory. simpl. by apply bool_decide_eq_true_2.
Qed.

Lemma configure_unloadsTo s0 mId r syntax :
  hoare (unloadsTo s0 mId) (configure r syntax) (λ _, unloadsTo s0 mId) (λ _, False).
Proof.
  intros s (Hthis & Hv & Hvalid & Heq).
  cbv [configure onStore updateBinding modify]. simpl.
  unfold unloadsTo. simpl. split_and!; try done.
  - by rewrite length_alter.
  - rewrite <- Heq. apply removeByCondition_ext. intros x.
    apply (ownedBy_configure (store s)).
Qed.

Lemma callRegistry_unloadsTo s0 mId registry :
  bindsOnly registry →
  hoare (unloadsTo s0 mId)
    (callRegistry (Container._getContainerModuleHelpersFactory mId) registry)
    (λ _, unloadsTo s0 mId) (λ _, False).
Proof.
  induction registry as [|k syntax next IH|k next IH|k next IH|k syntax next IH];
    simpl; intros Hb; try done.
  - by apply hoare_ret.
  - eapply hoare_andThen; [apply getBindFunction_unloadsTo|]. intros r.
    eapply hoare_andThen; [apply configure_unloadsTo|]. intros ?. by apply IH.
  - apply (hoare_andThen _ _ _ (λ _, unloadsTo s0 mId)); [by apply hoare_gets|].
    intros b. by apply IH.
Qed.

(** X12.  [load] and [unload] of a module are a round trip.  In a
    well-formed state whose dictionary has a binding under every key and no
    binding of the module, [load] of a module whose registry only binds (and
    asks [isBound]) returns, and [unload] of the module then leaves the
    dictionary and the container exactly as they were before the [load]. *)
Theorem load_unload_roundtrip (s : State) (m : ContainerModule.t) :
  stateWf s →
  freeOf (ContainerModule.id m) s →
  bindsOnly (ContainerModule.registry m) →
  let s1 := exec (Container.load [m]) s in
  outcome (Container.load [m]) s = Ok tt
  ∧ dictionary (exec (Container.unload [m]) s1) = dictionary s
  ∧ this (exec (Container.unload [m]) s1) = this s.
Proof.
  intros Hwf Hfree Hbinds s1.
  assert (H0 : unloadsTo s (ContainerModule.id m) s).
  { destruct Hwf as (Hv & _ & _ & Hstore). split_and!; try done.
    by apply readLookup_valid. }
  pose proof (callRegistry_unloadsTo s (ContainerModule.id m) (ContainerModule.registry m)
                Hbinds s H0) as Hrun.
  assert (Hload : Container.load [m] s
                  = (callRegistry (Container._getContainerModuleHelpersFactory
                                     (ContainerModule.id m)) (ContainerModule.registry m)
                     ;;; ret tt) s) by done.
  assert (Hs1 : ∃ s', Container.load [m] s = (Ok tt, s') ∧ unloadsTo s (ContainerModule.id m) s').
  { rewrite Hload. unfold andThen.
    destruct (callRegistry _ _ s) as [[[]|e] s']; [|done]. by exists s'. }
  destruct Hs1 as (s' & Hs' & Hthis & _ & _ & Heq).
  subst s1. unfold outcome. unfold exec at 2 4. rewrite Hs'. cbn [fst snd].
  split; [done|]. split.
  - rewrite unload_dictionary, Heq. by apply removeByCondition_free.
  - by rewrite (proj2 (unload_store m s')).
Qed.

(** The container binds "Samurai", then the modules [warriors] and [weapons]
    are loaded and unloaded in turn. *)
Lemma load_unload_roundtrip_witness :
  let s := mutateAll [doBind (StringId "Samurai") []] freshState in
  dictionary (exec (Container.unload [weapons]) (exec (Container.load [weapons]) s))
  = dictionary s.
Proof.
  intros s.
  destruct (load_unload_roundtrip s weapons) as (_ & Hd & _).
  - apply (@bool_decide_unpack _ (stateWf_dec s)). vm_compute. exact I.
  - apply (@bool_decide_unpack _ (freeOf_dec _ s)). vm_compute. exact I.
  - simpl. exact I.
  - exact Hd.
Defined.

(** ** Child containers *)

Lemma constructor_optionsObject o σ :
  Container.constructor (Container.optionsObject o) σ
  = (Ok (mkContainer (nextId σ) o None (length (lookups σ)) [] None),
     mkStore (lookups σ ++ [Lookup.empty]) (bindingObjects σ) (S (nextId σ))).
Proof. destruct o as [[] [] []]; reflexivity. Qed.

Lemma createChild_run s containerOptions :
  truthy containerOptions = false →
  Container.createChild containerOptions s
  = (Ok (mkContainer (nextId (store s)) (options (this s)) None (length (lookups (store s)))
           [] (Some (this s))),
     mkState (this s)
       (mkStore (lookups (store s) ++ [Lookup.empty]) (bindingObjects (store s))
          (S (nextId (store s))))).
Proof.
  intros H. unfold Container.createChild, andThen, gets, onStore. rewrite H.
  rewrite constructor_optionsObject. reflexivity.
Qed.

Lemma readLookup_new σ b n l :
  readLookup (mkStore (lookups σ ++ [Lookup.empty]) b n) l = readLookup σ l.
Proof.
  unfold readLookup. simpl.
  destruct (decide (l < length (lookups σ))) as [Hl|Hl].
  - by rewrite lookup_app_l.
  - rewrite (lookup_ge_None_2 (lookups σ)) by lia.
    destruct (decide (l = length (lookups σ))) as [->|Hne].
    + by rewrite list_lookup_middle.
    + rewrite lookup_ge_None_2; [done|]. rewrite length_app. simpl. lia.
Qed.

Lemma isBound_same_read c σ σ' k :
  (∀ l, readLookup σ' l = readLookup σ l) →
  Container.isBound c σ' k = Container.isBound c σ k.
Proof.
  intros H. rewrite !isBound_chain. induction (chain c) as [|a l IH]; simpl; [done|].
  rewrite IH. f_equal. unfold dictionary. simpl. by rewrite H.
Qed.

Lemma isBound_empty_child i o mw d sn p σ k :
  readLookup σ d = Lookup.empty →
  Container.isBound (mkContainer i o mw d sn (Some p)) σ k = Container.isBound p σ k.
Proof.
  intros H. rewrite isBound_unfold. unfold ContainerBase.isBound, dictionary.
  cbn [this store _bindingDictionary parent]. by rewrite H.
Qed.

(** X13.  [createChild] with no options, or with a falsy argument, hands the
    options of the container to the constructor; the constructor accepts
    them, whatever they are, so the call returns.  The child has the options
    of the container, the container as its parent, an empty dictionary of
    its own, no snapshots and no middleware (the chain of the container is
    not handed on); the container itself is unchanged, and at first the
    child answers [isBound] exactly as the container does. *)
Theorem createChild_inherits (s : State) (containerOptions : JsValue) :
  truthy containerOptions = false →
  ∃ child s',
    Container.createChild containerOptions s = (Ok child, s')
    ∧ this s' = this s
    ∧ dictionary s' = dictionary s
    ∧ bindingObjects (store s') = bindingObjects (store s)
    ∧ options child = options (this s)
    ∧ parent child = Some (this s)
    ∧ _middleware child = None
    ∧ _snapshots child = []
    ∧ dictionary (mkState child (store s')) = Lookup.empty
    ∧ ∀ serviceIdentifier,
        Container.isBound child (store s') serviceIdentifier
        = Container.isBound (this s) (store s) serviceIdentifier.
Proof.
  intros H. eexists _, _. split; [by apply createChild_run|].
  split_and!; try done.
  - unfold dictionary. simpl. apply readLookup_new.
  - unfold dictionary, readLookup. simpl. by rewrite list_lookup_middle.
  - intros k. rewrite isBound_empty_child.
    + apply isBound_same_read. intros l. apply readLookup_new.
    + unfold readLookup. simpl. by rewrite list_lookup_middle.
Qed.

(** The grandchild of a container installs a chain, binds "Ninja" and
    creates a child with [null] for the options. *)
Lemma createChild_inherits_witness :
  let s := mutateAll [doApplyMiddleware [nullForNinja]; doBind (StringId "Ninja") []]
             (grandchildOf rootWithZero) in
  ∃ child s',
    Container.createChild JsNull s = (Ok child, s')
    ∧ options child = options (this s)
    ∧ _middleware child = None
    ∧ Container.isBound child (store s') (StringId "Ninja") = true.
Proof.
  intros s.
  destruct (createChild_inherits s JsNull eq_refl)
    as (child & s' & Hrun & _ & _ & _ & Ho & _ & Hm & _ & _ & Hb).
  exists child, s'. split; [exact Hrun|]. split; [exact Ho|]. split; [exact Hm|].
  rewrite Hb. reflexivity.
Defined.

(** ** resolve *)


(** ** Middleware, continued *)

(** X15.  [applyMiddleware] accumulates: applying the middlewares [ms1] and
    then the middlewares [ms2] leaves the container as one call with
    [ms1] followed by [ms2] does. *)
Theorem applyMiddleware_accumulates (s : State) (ms1 ms2 : list Middleware) :
  exec (Container.applyMiddleware ms2) (exec (Container.applyMiddleware ms1) s)
  = exec (Container.applyMiddleware (ms1 ++ ms2)) s.
Proof.
  unfold exec. cbv [Container.applyMiddleware andThen gets setThis modify]. simpl.
  by rewrite fold_left_app.
Qed.

(** X16.  Without a chain installed the get family returns what
    plan-and-resolve answers, unchecked: also [null] and [undefined].
    [applyMiddleware()] with no middlewares is therefore not a no-op: it
    installs plan-and-resolve itself as the chain, and from then on the same
    answers go through the null check. *)
Theorem get_unchecked_without_middleware
    (plan : State → bool → TargetType → ServiceIdentifier → JsValue → JsValue → bool
            → Res Context.t)
    (resolve : State → Context.t → Res JsValue)
    (s : State) (g : GetCall) :
  _middleware (this s) = None →
  let s' := exec (Container.applyMiddleware []) s in
  call plan resolve g s = Container._planAndResolve plan resolve s (argsOf g)
  ∧ call plan resolve g s' = checked (Container._planAndResolve plan resolve s' (argsOf g))
  ∧ store s' = store s
  ∧ dictionary s' = dictionary s.
Proof.
  intros H s'. split_and!; try done.
  - destruct g; simpl; by apply _get_without_middleware.
  - subst s'. unfold exec. cbv [Container.applyMiddleware andThen gets setThis modify].
    simpl. rewrite H.
    by erewrite call_with_middleware; [|reflexivity].
Qed.

(** Over a plan-and-resolve that yields [null]: [get] returns the [null],
    and throws once [applyMiddleware()] was called. *)
Lemma get_unchecked_without_middleware_witness :
  let plan := λ (s : State) (_ : bool) (_ : TargetType) (_ : ServiceIdentifier)
                (_ _ : JsValue) (_ : bool),
                Ok (Context.make 0 (id (this s)) None None) in
  let resolve := λ (_ : State) (_ : Context.t), Ok JsNull in
  call plan resolve (callGet (StringId "Ninja")) freshState = Ok JsNull
  ∧ call plan resolve (callGet (StringId "Ninja"))
      (exec (Container.applyMiddleware []) freshState)
    = Throw [Const INVALID_MIDDLEWARE_RETURN].
Proof.
  intros plan resolve.
  destruct (get_unchecked_without_middleware plan resolve freshState
              (callGet (StringId "Ninja")) eq_refl) as (H1 & H2 & _).
  split; [exact H1|exact H2].
Defined.

(** ** merge *)

Lemma entries_add map k' r k :
  Lookup.entries (Lookup.add map k' r) k
  = Lookup.entries map k ++ (if bool_decide (k' = k) then [r] else []).
Proof.
  case_bool_decide as Hk.
  - subst k'. unfold Lookup.entries at 1. by rewrite get_add_eq.
  - unfold Lookup.entries. rewrite get_add_ne by done. by rewrite app_nil_r.
Qed.

Lemma lookupWithin_add lo hi map k r :
  lookupWithin lo hi map → lo ≤ r < hi → lookupWithin lo hi (Lookup.add map k r).
Proof.
  unfold lookupWithin. intros Hmap Hr.
  induction map as [|[k' es] rest IH]; simpl.
  - repeat constructor; lia.
  - inversion_clear Hmap as [|? ? Hes Hrest]. case_bool_decide.
    + constructor; [|done]. simpl in *. apply Forall_app. split; [done|by constructor].
    + constructor; [done|]. by apply IH.
Qed.

Lemma lookupWithin_mono lo hi hi' map :
  hi ≤ hi' → lookupWithin lo hi map → lookupWithin lo hi' map.
Proof.
  intros Hn Hmap. unfold lookupWithin in *.
  eapply Forall_impl; [exact Hmap|]. intros e He. simpl in *.
  eapply Forall_impl; [exact He|]. intros r. simpl. lia.
Qed.

Lemma lookupWithin_entries lo hi map k :
  lookupWithin lo hi map → Forall (λ r, r < hi) (Lookup.entries map k).
Proof.
  unfold lookupWithin, Lookup.entries. intros Hmap.
  induction Hmap as [|[k' es] rest Hes _ IH]; simpl; [done|].
  case_bool_decide; [|done]. simpl in Hes.
  eapply Forall_impl; [exact Hes|]. intros r. simpl. lia.
Qed.

Lemma lookupWithin_references lo hi map :
  lookupWithin lo hi map → Forall (λ r, lo ≤ r < hi) (references map).
Proof.
  unfold lookupWithin, references. intros Hmap.
  induction Hmap as [|[k es] rest Hes _ IH]; simpl; [done|].
  apply Forall_app. by split.
Qed.

Lemma lookupValid_references n map :
  lookupValid n map → Forall (λ r, r < n) (references map).
Proof.
  unfold lookupValid, references. intros Hmap.
  induction Hmap as [|[k es] rest Hes _ IH]; simpl; [done|].
  apply Forall_app. by split.
Qed.

Lemma forEach_flat_map {S X Y} (f : X → list Y) (xs : list X) (body : Y → M S unit) s :
  forEach xs (λ x, forEach (f x) body) s = forEach (flat_map f xs) body s.
Proof.
  revert s. induction xs as [|x xs IH]; intros s; simpl; [done|].
  rewrite forEach_app. unfold andThen.
  destruct (forEach (f x) body s) as [[[]|e] s1]; [|done]. apply IH.
Qed.

Lemma filedUnder_app k bs1 bs2 :
  filedUnder k (bs1 ++ bs2) = filedUnder k bs1 ++ filedUnder k bs2.
Proof. apply List.filter_app. Qed.

(** The loop of [copyDictionary] over the references [rs]: one clone for
    each, added to [destination] under the identifier the binding holds. *)
Lemma copy_run destination lo rs σ :
  destination < length (lookups σ) →
  lo ≤ length (bindingObjects σ) →
  Forall (λ r, r < length (bindingObjects σ)) rs →
  lookupWithin lo (length (bindingObjects σ)) (readLookup σ destination) →
  ∃ σ',
    forEach rs (λ binding,
      λ σ, match bindingObjects σ !! binding with
           | Some b =>
               (copy <- newBinding (Binding.clone b) ;;
                λ σ, writeLookup destination
                       (Lookup.add (readLookup σ destination)
                          (Binding.serviceIdentifier b) copy) σ) σ
           | None => ret tt σ
           end) σ = (Ok tt, σ')
    ∧ length (lookups σ') = length (lookups σ)
    ∧ (∀ l, l ≠ destination → readLookup σ' l = readLookup σ l)
    ∧ bindingObjects σ' = bindingObjects σ ++ deref σ rs
    ∧ nextId σ' = nextId σ
    ∧ lookupWithin lo (length (bindingObjects σ')) (readLookup σ' destination)
    ∧ ∀ k, entriesAt σ' destination k
           = entriesAt σ destination k ++ filedUnder k (deref σ rs).
Proof.
  revert σ. induction rs as [|r rs IH]; intros σ Hd Hlo Hrs Hmap.
  - exists σ. simpl. rewrite app_nil_r. split_and!; try done.
    intros k. unfold filedUnder. simpl. by rewrite app_nil_r.
  - inversion_clear Hrs as [|? ? Hr Hrest].
    destruct (lookup_lt_is_Some_2 _ _ Hr) as [b Hb].
    set (σ1 := mkStore
                 (<[destination := Lookup.add (readLookup σ destination)
                                     (Binding.serviceIdentifier b)
                                     (length (bindingObjects σ))]> (lookups σ))
                 (bindingObjects σ ++ [b]) (nextId σ)).
    assert (Hread1 : readLookup σ1 destination
                     = Lookup.add (readLookup σ destination) (Binding.serviceIdentifier b)
                         (length (bindingObjects σ))).
    { unfold readLookup, σ1. simpl. by rewrite list_lookup_insert_eq. }
    assert (Hlen1 : length (bindingObjects σ1) = S (length (bindingObjects σ))).
    { unfold σ1. simpl. rewrite length_app. simpl. lia. }
    assert (Hpre : bindingObjects σ `prefix_of` bindingObjects σ1) by (by eexists).
    destruct (IH σ1) as (σ' & Hrun & Hlen & Hother & Hbo & Hid & Hwithin & Hentries).
    + unfold σ1. simpl. by rewrite length_insert.
    + lia.
    + rewrite Hlen1. eapply Forall_impl; [exact Hrest|]. intros x. simpl. lia.
    + rewrite Hread1, Hlen1. apply lookupWithin_add; [|lia].
      eapply lookupWithin_mono; [|exact Hmap]. lia.
    + exists σ'. split_and!.
      * simpl. unfold andThen at 1. rewrite Hb.
        cbv [andThen newBinding writeLookup modify]. simpl.
        rewrite clone_same. unfold readLookup at 1. simpl. fold (readLookup σ destination).
        exact Hrun.
      * rewrite Hlen. unfold σ1. simpl. by rewrite length_insert.
      * intros l Hl. rewrite (Hother l Hl). unfold readLookup, σ1. simpl.
        by rewrite list_lookup_insert_ne.
      * rewrite Hbo. unfold deref at 2. rewrite (omap_cons_Some _ r rs b) by done.
        fold (deref σ rs). rewrite (deref_prefix σ σ1) by done.
        unfold σ1. simpl. by rewrite <- app_assoc.
      * done.
      * done.
      * intros k. rewrite (Hentries k). unfold entriesAt at 1. rewrite Hread1.
        rewrite entries_add. unfold deref at 1. rewrite omap_app.
        fold (deref σ1 (Lookup.entries (readLookup σ destination) k)).
        rewrite (deref_prefix σ σ1); [|done|by eapply lookupWithin_entries].
        rewrite (deref_prefix σ σ1) by done.
        unfold deref at 3. rewrite (omap_cons_Some _ r rs b) by done. fold (deref σ rs).
        rewrite <- app_assoc. f_equal. unfold filedUnder at 2. simpl.
        case_bool_decide; simpl.
        -- unfold σ1. simpl. by rewrite list_lookup_middle.
        -- done.
Qed.

Lemma copyDictionary_run origin destination lo σ :
  destination < length (lookups σ) →
  origin ≠ destination →
  lo ≤ length (bindingObjects σ) →
  lookupValid (length (bindingObjects σ)) (readLookup σ origin) →
  lookupWithin lo (length (bindingObjects σ)) (readLookup σ destination) →
  ∃ σ',
    Container.copyDictionary origin destination σ = (Ok tt, σ')
    ∧ length (lookups σ') = length (lookups σ)
    ∧ (∀ l, l ≠ destination → readLookup σ' l = readLookup σ l)
    ∧ bindingObjects σ' = bindingObjects σ ++ deref σ (references (readLookup σ origin))
    ∧ nextId σ' = nextId σ
    ∧ lookupWithin lo (length (bindingObjects σ')) (readLookup σ' destination)
    ∧ ∀ k, entriesAt σ' destination k
           = entriesAt σ destination k
             ++ filedUnder k (deref σ (references (readLookup σ origin))).
Proof.
  intros Hd Hne Hlo Horigin Hdest.
  unfold Container.copyDictionary, traverse. rewrite forEach_flat_map.
  apply (copy_run destination lo); try done.
  by apply lookupValid_references.
Qed.

(** X17.  [Container.merge] returns a new container with the default
    options, whatever the options of the two containers are, and with no
    parent, middleware or snapshots.  Its dictionary is a new object; under
    each identifier it holds clones of the bindings of the first container
    and then of the second that carry that identifier, in traversal order.
    Every binding of the new dictionary is a new object, so the new container
    shares none with the two, whose dictionaries and bindings stay as they
    were. *)
Theorem merge_collects_clones (container1 container2 : Container) (σ : Store) :
  storeWf σ →
  _bindingDictionary container1 < length (lookups σ) →
  _bindingDictionary container2 < length (lookups σ) →
  let bindings1 := deref σ (references (readLookup σ (_bindingDictionary container1))) in
  let bindings2 := deref σ (references (readLookup σ (_bindingDictionary container2))) in
  ∃ container σ',
    Container.merge container1 container2 σ = (Ok container, σ')
    ∧ options container = mkOptions false Transient false
    ∧ parent container = None
    ∧ _middleware container = None
    ∧ _snapshots container = []
    ∧ _bindingDictionary container = length (lookups σ)
    ∧ (∀ l, l < length (lookups σ) → readLookup σ' l = readLookup σ l)
    ∧ bindingObjects σ' = bindingObjects σ ++ bindings1 ++ bindings2
    ∧ Forall (λ r, length (bindingObjects σ) ≤ r < length (bindingObjects σ'))
        (references (readLookup σ' (_bindingDictionary container)))
    ∧ ∀ serviceIdentifier,
        entriesAt σ' (_bindingDictionary container) serviceIdentifier
        = filedUnder serviceIdentifier bindings1 ++ filedUnder serviceIdentifier bindings2.
Proof.
  intros Hwf H1 H2 bindings1 bindings2.
  set (σ0 := mkStore (lookups σ ++ [Lookup.empty]) (bindingObjects σ) (S (nextId σ))).
  set (destination := length (lookups σ)).
  assert (Hnew : Container.constructor JsUndefined σ
                 = (Ok (mkContainer (nextId σ) (mkOptions false Transient false) None
                          destination [] None), σ0)) by reflexivity.
  assert (Hread0 : ∀ l, readLookup σ0 l = readLookup σ l) by (intros l; apply readLookup_new).
  assert (Hd0 : destination < length (lookups σ0)).
  { unfold σ0, destination. simpl. rewrite length_app. simpl. lia. }
  assert (Hvalid1 : lookupValid (length (bindingObjects σ))
                      (readLookup σ (_bindingDictionary container1)))
    by exact (readLookup_valid σ _ Hwf).
  assert (Hvalid2 : lookupValid (length (bindingObjects σ))
                      (readLookup σ (_bindingDictionary container2)))
    by exact (readLookup_valid σ _ Hwf).
  assert (Hne1 : _bindingDictionary container1 ≠ destination) by (unfold destination; lia).
  assert (Hne2 : _bindingDictionary container2 ≠ destination) by (unfold destination; lia).
  assert (Hempty : readLookup σ destination = Lookup.empty).
  { unfold readLookup, destination. by rewrite lookup_ge_None_2 by lia. }
  assert (Horigin0 : lookupValid (length (bindingObjects σ0))
                       (readLookup σ0 (_bindingDictionary container1)))
    by (rewrite Hread0; exact Hvalid1).
  assert (Hdest0 : lookupWithin (length (bindingObjects σ)) (length (bindingObjects σ0))
                     (readLookup σ0 destination))
    by (rewrite Hread0, Hempty; constructor).
  destruct (copyDictionary_run (_bindingDictionary container1) destination
              (length (bindingObjects σ)) σ0 Hd0 Hne1 (le_n _) Horigin0 Hdest0)
    as (σ1 & Hrun1 & Hlen1 & Hother1 & Hbo1 & Hid1 & Hwithin1 & Hentries1).
  rewrite Hread0 in Hbo1. simpl in Hbo1. fold bindings1 in Hbo1.
  assert (Hpre1 : bindingObjects σ `prefix_of` bindingObjects σ1) by (rewrite Hbo1; by eexists).
  assert (Hd1 : destination < length (lookups σ1)) by (by rewrite Hlen1).
  assert (Hlo1 : length (bindingObjects σ) ≤ length (bindingObjects σ1))
    by (rewrite Hbo1, length_app; lia).
  assert (Horigin1 : lookupValid (length (bindingObjects σ1))
                       (readLookup σ1 (_bindingDictionary container2))).
  { rewrite Hother1 by done. rewrite Hread0.
    eapply lookupValid_mono; [|exact Hvalid2]. exact Hlo1. }
  destruct (copyDictionary_run (_bindingDictionary container2) destination
              (length (bindingObjects σ)) σ1 Hd1 Hne2 Hlo1 Horigin1 Hwithin1)
    as (σ2 & Hrun2 & Hlen2 & Hother2 & Hbo2 & Hid2 & Hwithin2 & Hentries2).
  rewrite (Hother1 (_bindingDictionary container2)) in Hbo2, Hentries2 by done.
  rewrite Hread0 in Hbo2, Hentries2.
  rewrite (deref_prefix σ σ1) in Hbo2, Hentries2
    by (done || by apply lookupValid_references).
  fold bindings2 in Hbo2, Hentries2.
  exists (mkContainer (nextId σ) (mkOptions false Transient false) None destination [] None), σ2.
  split_and!; try done.
  - unfold Container.merge, Container.getBindingDictionary. unfold andThen at 1.
    rewrite Hnew. cbn [_bindingDictionary]. unfold andThen at 1. rewrite Hrun1.
    unfold andThen. by rewrite Hrun2.
  - intros l Hl. rewrite Hother2, Hother1 by (unfold destination; lia). apply Hread0.
  - rewrite Hbo2, Hbo1. by rewrite <- app_assoc.
  - by apply lookupWithin_references.
  - intros k. cbn [_bindingDictionary]. rewrite Hentries2, Hentries1.
    rewrite Hread0. fold bindings1. f_equal.
    unfold entriesAt. by rewrite Hread0, Hempty.
Qed.

(** A container that binds "Ninja" and "Katana", and a grandchild of it that
    binds "Ninja" again and "Shuriken". *)
Lemma merge_collects_clones_witness :
  let root := mutateAll [doBind (StringId "Ninja") []; doBind (StringId "Katana") []]
                freshState in
  let leaf := mutateAll [doBind (StringId "Ninja") [inSingletonScope];
                         doBind (StringId "Shuriken") []] (grandchildOf root) in
  ∃ container σ',
    Container.merge (this root) (this leaf) (store leaf) = (Ok container, σ')
    ∧ length (entriesAt σ' (_bindingDictionary container) (StringId "Ninja")) = 2
    ∧ length (entriesAt σ' (_bindingDictionary container) (StringId "Shuriken")) = 1.
Proof.
  intros root leaf.
  destruct (merge_collects_clones (this root) (this leaf) (store leaf))
    as (container & σ' & Hrun & _ & _ & _ & _ & _ & _ & _ & _ & Hentries).
  - apply (@bool_decide_unpack _ (storeWf_dec (store leaf))). vm_compute. exact I.
  - vm_compute. lia.
  - vm_compute. lia.
  - exists container, σ'. split; [exact Hrun|]. rewrite !Hentries. split; reflexivity.
Defined.

(** ** Snapshots and the bindings handed out before them *)

Lemma cloneBindings_fresh refs σ copies σ' :
  cloneBindings refs σ = (Ok copies, σ') →
  Forall (λ r, length (bindingObjects σ) ≤ r) copies
  ∧ length (bindingObjects σ) ≤ length (bindingObjects σ').
Proof.
  revert σ copies σ'. induction refs as [|r refs IH]; intros σ copies σ'; simpl.
  - intros [= <- <-]. split; [constructor|lia].
  - destruct (bindingObjects σ !! r) as [b|].
    + unfold andThen, newBinding, ret.
      set (σ1 := mkStore (lookups σ) (bindingObjects σ ++ [Binding.clone b]) (nextId σ)).
      destruct (cloneBindings refs σ1) as [[rest|e] σ2] eqn:Hrest; [|done].
      intros [= <- <-]. destruct (IH _ _ _ Hrest) as [Hall Hlen].
      unfold σ1 in Hall, Hlen. simpl in Hall, Hlen. rewrite length_app in Hall, Hlen.
      simpl in Hall, Hlen. split; [|lia].
      constructor; [lia|]. eapply Forall_impl; [exact Hall|]. intros x. simpl. lia.
    + apply IH.
Qed.

Lemma cloneEntries_fresh map σ copy σ' :
  cloneEntries map σ = (Ok copy, σ') →
  Forall (λ e : ServiceIdentifier * list BindingRef,
            Forall (λ r, length (bindingObjects σ) ≤ r) e.2) copy
  ∧ length (bindingObjects σ) ≤ length (bindingObjects σ').
Proof.
  revert σ copy σ'. induction map as [|[k refs] map IH]; intros σ copy σ'; simpl.
  - intros [= <- <-]. split; [constructor|lia].
  - unfold andThen, ret.
    destruct (cloneBindings refs σ) as [[copies|e] σ1] eqn:H1; [|done].
    destruct (cloneEntries map σ1) as [[others|e] σ2] eqn:H2; [|done].
    intros [= <- <-].
    destruct (cloneBindings_fresh _ _ _ _ H1) as [Hall1 Hlen1].
    destruct (IH _ _ _ H2) as [Hall2 Hlen2]. split; [|lia].
    constructor; [done|].
    eapply Forall_impl; [exact Hall2|]. intros e He. simpl in *.
    eapply Forall_impl; [exact He|]. intros x. simpl. lia.
Qed.

Lemma contentsOf_alter lk lk' n n' bindings f r map :
  Forall (λ e : ServiceIdentifier * list BindingRef, Forall (λ x, r < x) e.2) map →
  contentsOf (mkStore lk (alter f r bindings) n) map
  = contentsOf (mkStore lk' bindings n') map.
Proof.
  intros Hmap. unfold contentsOf. induction Hmap as [|[k refs] map Hrefs _ IH]; simpl; [done|].
  rewrite IH. do 2 f_equal. unfold deref. simpl in *.
  clear -Hrefs. induction Hrefs as [|x refs Hx _ IHrefs]; [done|].
  csimpl. rewrite list_lookup_alter_ne by lia. by rewrite IHrefs.
Qed.

(** X18.  [snapshot()] keeps clones, and [restore()] installs them: the
    fluent calls made after a snapshot on a binding that was handed out
    before it are undone by [restore()], and the calls made on it after the
    [restore()] no longer reach the container, whose dictionary then holds
    the clones. *)
Theorem snapshot_detaches_bindings (s : State) (binding : BindingRef) (syntax : list Fluent) :
  stateWf s →
  binding < length (bindingObjects (store s)) →
  let s1 := exec Container.snapshot s in
  contents (exec Container.restore (exec (configure binding syntax) s1)) = contents s
  ∧ contents (exec (configure binding syntax) (exec Container.restore s1)) = contents s.
Proof.
  intros Hwf Hr s1.
  destruct (cloneEntries_run (dictionary s) (store s) (dictionary_valid s Hwf))
    as (copy & news & Hclone & Hvalid & Hcontents).
  destruct (cloneEntries_fresh _ _ _ _ Hclone) as [Hfresh _].
  assert (Hrun : Container.snapshot s
                 = (Ok tt,
                    mkState
                      (withSnapshots (this s)
                         (_snapshots (this s)
                            ++ [ContainerSnapshot.of_ (length (lookups (store s)))
                                  (_middleware (this s))]))
                      (mkStore (lookups (store s) ++ [copy]) (bindingObjects (store s) ++ news)
                         (nextId (store s))))).
  { cbv [Container.snapshot andThen gets onStore cloneLookup newLookup setThis modify].
    simpl. unfold dictionary in Hclone. unfold andThen. rewrite Hclone. done. }
  assert (Hs1 : s1 = (Container.snapshot s).2) by done.
  rewrite Hrun in Hs1. simpl in Hs1. clearbody s1. subst s1.
  assert (Hafter : Forall (λ e : ServiceIdentifier * list BindingRef,
                             Forall (λ x, binding < x) e.2) copy).
  { eapply Forall_impl; [exact Hfresh|]. intros e He. simpl in *.
    eapply Forall_impl; [exact He|]. intros x. simpl. lia. }
  split.
  - unfold exec at 2. cbv [configure onStore updateBinding modify]. simpl.
    unfold exec. erewrite restore_run; [|simpl; reflexivity]. simpl.
    unfold contents at 1, dictionary, readLookup. simpl.
    rewrite list_lookup_middle by done. simpl.
    etrans; [|exact Hcontents]. by apply contentsOf_alter.
  - unfold exec at 2. erewrite restore_run; [|simpl; reflexivity]. simpl.
    unfold exec. cbv [configure onStore updateBinding modify]. simpl.
    unfold contents at 1, dictionary, readLookup. simpl.
    rewrite list_lookup_middle by done. simpl.
    etrans; [|exact Hcontents]. by apply contentsOf_alter.
Qed.

(** "Ninja" is bound; after a snapshot its binding is put in singleton scope
    and given a constant value, and the container is restored. *)
Lemma snapshot_detaches_bindings_witness :
  let s := mutateAll [doBind (StringId "Ninja") []] freshState in
  contents (exec Container.restore
              (exec (configure 0 [inSingletonScope; toConstantValue (JsNumber 7)])
                 (exec Container.snapshot s)))
  = contents s.
Proof.
  intros s.
  destruct (snapshot_detaches_bindings s 0 [inSingletonScope; toConstantValue (JsNumber 7)])
    as [H _].
  - apply (@bool_decide_unpack _ (stateWf_dec s)). vm_compute. exact I.
  - vm_compute. lia.
  - exact H.
Defined.
